(** * The macOS (kqueue) event handler of dart:io

    A shallow embedding of [runtime/bin/eventhandler_macos.cc]: the worker
    thread that multiplexes descriptor readiness, the wake-up pipe and the
    timer queue, and posts event masks to Dart ports.

    Machine integers are [Z]; bit operations are [Z.land], [Z.lor] and
    [Z.shiftl].  A [DescriptorInfo*] is represented by the descriptor it was
    created for: the socket map owns one object per descriptor. *)

From Stdlib Require Import ZArith Bool List Lia.
From Stdlib.Strings Require Import Byte.
From stdpp Require Import gmap list strings.
Import ListNotations.
Local Open Scope Z_scope.

(** ** Event bits and kqueue constants *)

(** Modelled from the spec: [kInEvent] of the missing enumeration
    [MessageFlags]; "bits IN=0, OUT=1, ERROR=2, CLOSE=3, DESTROYED=4". *)
Definition kInEvent : Z := 0.
(** Modelled from the spec: [kOutEvent] of the missing enumeration
    [MessageFlags]; "OUT=1". *)
Definition kOutEvent : Z := 1.
(** Modelled from the spec: [kErrorEvent] of the missing enumeration
    [MessageFlags]; "ERROR=2". *)
Definition kErrorEvent : Z := 2.
(** Modelled from the spec: [kCloseEvent] of the missing enumeration
    [MessageFlags]; "CLOSE=3". *)
Definition kCloseEvent : Z := 3.
(** Modelled from the spec: [kDestroyedEvent] of the missing enumeration
    [MessageFlags]; "DESTROYED=4". *)
Definition kDestroyedEvent : Z := 4.

(** [1 << n] *)
Definition bit (n : Z) : Z := Z.shiftl 1 n.

(** The values of <sys/event.h> on macOS. *)
Definition EVFILT_READ : Z := -1.
Definition EVFILT_WRITE : Z := -2.
Definition EV_ADD : Z := 1.
Definition EV_DELETE : Z := 2.
Definition EV_CLEAR : Z := 32.
Definition EV_ERROR : Z := 16384.
Definition EV_EOF : Z := 32768.

(** Modelled from the spec: [ILLEGAL_PORT] of the missing header
    [include/dart_api.h], the null port; "all subscriber ports are distinct
    and non-zero", and the worker asserts [port != 0]. *)
Definition ILLEGAL_PORT : Z := 0.

(** [PIPE_BUF] of <limits.h> on macOS. *)
Definition PIPE_BUF : Z := 512.

(** Modelled from the spec: [kMaxInt32] of the missing header
    [platform/globals.h]; "clamped to 32-bit milliseconds", "INT32_MAX". *)
Definition kMaxInt32 : Z := 2147483647.

(** Two's complement wrap-around of 32- and 64-bit signed arithmetic. *)
Definition wrap (w : Z) (x : Z) : Z :=
  (x + 2 ^ (w - 1)) mod 2 ^ w - 2 ^ (w - 1).
Definition wrap32 : Z -> Z := wrap 32.
Definition wrap64 : Z -> Z := wrap 64.

(** [struct kevent]; [udata] is [None] for [nullptr] and [Some fd] for the
    [DescriptorInfo] created for [fd]. *)
Record kevent : Type := EV_SET {
  ident : Z;
  filter : Z;
  flags : Z;
  fflags : Z;
  data : Z;
  udata : option Z
}.

Record timespec : Type := { tv_sec : Z; tv_nsec : Z }.

(** Modelled from the spec: [InterruptMessage] of the missing header
    [bin/eventhandler.h], the record written to the wake-up pipe; "fixed
    three-field record: {id: int, port: int, data: int64}". *)
Record InterruptMessage : Type := {
  id : Z;
  dart_port : Z;
  msg_data : Z
}.

(** Modelled from the spec: the commands of the missing enumeration
    [MessageFlags], under the names the worker uses; "command in
    {SET_MASK, CLOSE, SHUTDOWN_READ, SHUTDOWN_WRITE, RETURN_TOKEN}". *)
Inductive Command : Type :=
| kCloseCommand
| kShutdownReadCommand
| kShutdownWriteCommand
| kReturnTokenCommand
| kSetEventMaskCommand.

(** What the worker does to the outside world, in program order. *)
Inductive Effect : Type :=
| SysKevent (changes : list kevent)          (* kevent(kq, changes, n, 0, 0, 0) *)
| SysKeventWait (timeout : option timespec)  (* the blocking query *)
| SysRead (count : Z)                        (* read(interrupt_fds_[0], ..) *)
| SysShutdown (fd how : Z)
| PostInt32 (port value : Z)
| PostNull (port : Z)
| DescriptorClose (fd : Z)                   (* di->Close() *)
| SocketCloseFd (socket : Z)                 (* socket->CloseFd() *)
| ClearSignalHandlerByFd (fd port : Z)
| NotifyShutdownDone.

Definition SHUT_RD : Z := 0.
Definition SHUT_WR : Z := 1.

(** ** Build configuration

    Constants and macros of headers that are not part of the translated file
    are parameters of the development. *)
Record Header : Type := {
  kTimerId : Z;
  kShutdownId : Z;
  kInfinityTimeout : Z;
  COMMAND_MASK : Z;
  EVENT_MASK : Z;
  IS_COMMAND : Z -> Command -> bool;
  IS_LISTENING_SOCKET : Z -> bool;
  IS_SIGNAL_SOCKET : Z -> bool;
  TOKEN_COUNT : Z -> Z;
  (** tokens a subscriber starts with *)
  kTokenCount : Z;
  (** [true] in a debug build, where [ASSERT] is compiled in *)
  assertions_enabled : bool
}.

(** The answers of the collaborators the worker calls: the kernel's status
    for a registration, [ListeningSocketRegistry::CloseSafe], and the number
    of bytes [FDUtils::WriteToBlocking] gets into the pipe (or -1). *)
Record Collaborators : Type := {
  kevent_status : list kevent -> Z;
  CloseSafe : Z -> bool;
  WriteToBlocking : list byte -> Z
}.

(** ** Descriptor infos *)

(** Modelled from the spec: the two classes [DescriptorInfoSingle] and
    [DescriptorInfoMultiple] of the missing header [bin/eventhandler.h];
    "kind: single (one subscriber) or multiple (listening fd shared by N
    subscribers)". *)
Inductive DescriptorKind : Type := Single | Multiple.

(** Modelled from the spec: a subscriber of a descriptor info (missing header
    [bin/eventhandler.h]); "mapping from port -> (requested-mask,
    token-count)". *)
Record PortEntry : Type := {
  port : Z;
  event_mask : Z;
  token_count : Z
}.

(** Modelled from the spec: [DescriptorInfo] of the missing header
    [bin/eventhandler.h]; "fd", "kind", "subscribers ... for multiple, an
    ordered ring used for round-robin dispatch", "tracked: boolean, whether
    currently registered with the kernel readiness device".  The head of
    [subscribers] is the next in the ring. *)
Record DescriptorInfo : Type := {
  fd : Z;
  kind : DescriptorKind;
  subscribers : list PortEntry;
  tracked_by_kqueue : bool
}.

Definition set_tracked_by_kqueue (b : bool) (di : DescriptorInfo) : DescriptorInfo :=
  {| fd := fd di; kind := kind di; subscribers := subscribers di;
     tracked_by_kqueue := b |}.

Definition set_subscribers (l : list PortEntry) (di : DescriptorInfo) : DescriptorInfo :=
  {| fd := fd di; kind := kind di; subscribers := l;
     tracked_by_kqueue := tracked_by_kqueue di |}.

(** Modelled from the spec: [IsListeningSocket] of the missing header
    [bin/eventhandler.h]; "multiple (listening fd shared by N
    subscribers)". *)
Definition IsListeningSocket (di : DescriptorInfo) : bool :=
  match kind di with Multiple => true | Single => false end.

(** Modelled from the spec: [new DescriptorInfoSingle(fd)] (missing header
    [bin/eventhandler.h]); a descriptor info without subscribers, not
    registered. *)
Definition DescriptorInfoSingle (fd0 : Z) : DescriptorInfo :=
  {| fd := fd0; kind := Single; subscribers := []; tracked_by_kqueue := false |}.
(** Modelled from the spec: [new DescriptorInfoMultiple(fd)] (missing header
    [bin/eventhandler.h]). *)
Definition DescriptorInfoMultiple (fd0 : Z) : DescriptorInfo :=
  {| fd := fd0; kind := Multiple; subscribers := []; tracked_by_kqueue := false |}.

Definition io_bits : Z := Z.lor (bit kInEvent) (bit kOutEvent).

(** Modelled from the spec: [DescriptorInfo::Mask] of the missing header
    [bin/eventhandler.h].  "Effective mask = bitwise OR over subscribers whose
    tokens > 0, restricted to {IN, OUT}." *)
Definition Mask (di : DescriptorInfo) : Z :=
  fold_right
    (fun e acc =>
       if 0 <? token_count e then Z.lor (Z.land (event_mask e) io_bits) acc
       else acc)
    0 (subscribers di).

Definition with_mask (m : Z) (e : PortEntry) : PortEntry :=
  {| port := port e; event_mask := m; token_count := token_count e |}.

Definition with_tokens (n : Z) (e : PortEntry) : PortEntry :=
  {| port := port e; event_mask := event_mask e; token_count := n |}.

(** Modelled from the spec: the search of [NextNotifyDartPort] (missing
    header [bin/eventhandler.h]), "the next subscriber in round-robin order
    whose requested mask intersects mask and whose tokens > 0": the entries
    before it, the entry, and the entries after it. *)
Fixpoint next_eligible (events_ready : Z) (l : list PortEntry)
  : option (list PortEntry * PortEntry * list PortEntry) :=
  match l with
  | [] => None
  | e :: l' =>
      if negb (Z.land (event_mask e) events_ready =? 0) && (0 <? token_count e)
      then Some ([], e, l')
      else match next_eligible events_ready l' with
           | Some (pre, c, post) => Some (e :: pre, c, post)
           | None => None
           end
  end.

(** Modelled from the spec: the "upsert" of [SetPortAndMask] (missing header
    [bin/eventhandler.h]): the mask of the entry of [p], or a new entry at
    the end of the ring. *)
Fixpoint upsert (new_tokens : Z) (p m : Z) (l : list PortEntry) : list PortEntry :=
  match l with
  | [] => [ {| port := p; event_mask := m; token_count := new_tokens |} ]
  | e :: l' =>
      if port e =? p then with_mask m e :: l'
      else e :: upsert new_tokens p m l'
  end.

(** ** The worker's state *)

(** Modelled from the spec: the [Socket] objects whose addresses are the
    ids of interrupt messages (missing header [bin/socket.h]): "opaque socket
    pointers carried as integers; the worker performs reference-count release
    on each receipt". *)
Record Socket : Type := {
  socket_fd : Z;
  isolate_port : Z;
  ref_count : Z
}.

Record World : Type := {
  (** the fields of [EventHandlerImplementation] *)
  socket_map_ : gmap Z DescriptorInfo;
  timeout_queue_ : list (Z * Z);          (* (port, deadline) *)
  shutdown_ : bool;
  (** the bytes waiting in the pipe [interrupt_fds_] *)
  interrupt_pipe : list byte;
  (** the socket objects alive in the process *)
  sockets : gmap Z Socket;
  (** [TimerUtils::GetCurrentMonotonicMillis()] *)
  clock : Z
}.

Definition set_socket_map (m : gmap Z DescriptorInfo) (w : World) : World :=
  {| socket_map_ := m; timeout_queue_ := timeout_queue_ w;
     shutdown_ := shutdown_ w; interrupt_pipe := interrupt_pipe w;
     sockets := sockets w; clock := clock w |}.
Definition set_timeout_queue (q : list (Z * Z)) (w : World) : World :=
  {| socket_map_ := socket_map_ w; timeout_queue_ := q;
     shutdown_ := shutdown_ w; interrupt_pipe := interrupt_pipe w;
     sockets := sockets w; clock := clock w |}.
Definition set_shutdown (b : bool) (w : World) : World :=
  {| socket_map_ := socket_map_ w; timeout_queue_ := timeout_queue_ w;
     shutdown_ := b; interrupt_pipe := interrupt_pipe w;
     sockets := sockets w; clock := clock w |}.
Definition set_interrupt_pipe (p : list byte) (w : World) : World :=
  {| socket_map_ := socket_map_ w; timeout_queue_ := timeout_queue_ w;
     shutdown_ := shutdown_ w; interrupt_pipe := p;
     sockets := sockets w; clock := clock w |}.
Definition set_sockets (s : gmap Z Socket) (w : World) : World :=
  {| socket_map_ := socket_map_ w; timeout_queue_ := timeout_queue_ w;
     shutdown_ := shutdown_ w; interrupt_pipe := interrupt_pipe w;
     sockets := s; clock := clock w |}.
Definition set_clock (t : Z) (w : World) : World :=
  {| socket_map_ := socket_map_ w; timeout_queue_ := timeout_queue_ w;
     shutdown_ := shutdown_ w; interrupt_pipe := interrupt_pipe w;
     sockets := sockets w; clock := t |}.

(** ** Computations: state, effects and aborts *)

Inductive Abort : Type :=
| Fatal (message : string)         (* FATAL(..) and UNREACHABLE() *)
| AssertFailed (condition : string) (* ASSERT(..) in a debug build *)
| Dangling.                         (* use of a deleted object *)

Inductive Result (S A : Type) : Type :=
| Ok (a : A) (s : S) (out : list Effect)
| Aborted (x : Abort).
Arguments Ok {S A} a s out.
Arguments Aborted {S A} x.

(** A computation over a state [S]: it returns a value, the new state and
    the effects it performed, or aborts the process. *)
Definition M (S A : Type) : Type := S -> Result S A.

Definition ret {S A} (a : A) : M S A := fun s => Ok a s [].

Definition bind {S A B} (c : M S A) (k : A -> M S B) : M S B :=
  fun s =>
    match c s with
    | Aborted x => Aborted x
    | Ok a s1 out1 =>
        match k a s1 with
        | Aborted x => Aborted x
        | Ok b s2 out2 => Ok b s2 (out1 ++ out2)
        end
    end.

Declare Scope m_scope.
Delimit Scope m_scope with M.
Notation "'let*' x := c 'in' k" := (bind c (fun x => k))
  (at level 10, x name, c at level 100, k at level 200) : m_scope.
Notation "c ;; k" := (bind c (fun _ => k))
  (at level 100, k at level 200, right associativity) : m_scope.
Local Open Scope m_scope.

Definition get {S} : M S S := fun s => Ok s s [].
Definition put {S} (s : S) : M S unit := fun _ => Ok tt s [].
Definition modify {S} (f : S -> S) : M S unit := fun s => Ok tt (f s) [].
Definition emit {S} (e : Effect) : M S unit := fun s => Ok tt s [e].
Definition abort {S A} (x : Abort) : M S A := fun _ => Aborted x.

(** [for (x : l) body(x)] *)
Fixpoint for_each {S A} (l : list A) (body : A -> M S unit) : M S unit :=
  match l with
  | [] => ret tt
  | x :: l' => body x ;; for_each l' body
  end.

(** The hashmap does not support keys with value 0.  A descriptor is an
    [int]: [fd + 1] does not leave [intptr_t]. *)
Definition GetHashmapKeyFromFd (fd0 : Z) : Z := fd0 + 1.

(** Run a computation on the [DescriptorInfo] that [p] points to.  The
    object lives in the socket map; using it after it was removed from the
    map and deleted is a use after free. *)
Definition on_di {A} (p : Z) (c : M DescriptorInfo A) : M World A :=
  fun w =>
    match socket_map_ w !! GetHashmapKeyFromFd p with
    | None => Aborted Dangling
    | Some di =>
        match c di with
        | Aborted x => Aborted x
        | Ok a di' out =>
            Ok a (set_socket_map (<[GetHashmapKeyFromFd p := di']> (socket_map_ w)) w) out
        end
    end.

(** ** The timer queue *)

(** Modelled from the spec: [UpdateTimeout] of the [TimeoutQueue] of the
    missing header [bin/eventhandler.h]; "update(port, deadline): if
    deadline > 0, inserts or updates; if deadline <= 0, removes". *)
Definition UpdateTimeout (p deadline : Z) (q : list (Z * Z)) : list (Z * Z) :=
  let q' := List.filter (fun e => negb (fst e =? p)) q in
  if 0 <? deadline then q' ++ [(p, deadline)] else q'.

(** Modelled from the spec: the head of the [TimeoutQueue] (missing header
    [bin/eventhandler.h]); "earliest() -> Option<(deadline, port)>". *)
Fixpoint earliest (q : list (Z * Z)) : option (Z * Z) :=
  match q with
  | [] => None
  | e :: q' =>
      match earliest q' with
      | None => Some e
      | Some m => if snd e <=? snd m then Some e else Some m
      end
  end.

(** Modelled from the spec: [HasTimeout] of the missing header
    [bin/eventhandler.h]; "infinite if no timer". *)
Definition HasTimeout (q : list (Z * Z)) : bool :=
  match q with [] => false | _ :: _ => true end.

(** Modelled from the spec: [CurrentTimeout] of the missing header
    [bin/eventhandler.h]; the deadline of "earliest()". *)
Definition CurrentTimeout (q : list (Z * Z)) : Z :=
  match earliest q with Some e => snd e | None => 0 end.

(** Modelled from the spec: [CurrentPort] of the missing header
    [bin/eventhandler.h]; the port of "earliest()". *)
Definition CurrentPort (q : list (Z * Z)) : Z :=
  match earliest q with Some e => fst e | None => ILLEGAL_PORT end.

(** Modelled from the spec: [RemoveCurrent] of the missing header
    [bin/eventhandler.h]; "pop_if_due(now): if the earliest entry's deadline
    <= now, removes it". *)
Definition RemoveCurrent (q : list (Z * Z)) : list (Z * Z) :=
  List.filter (fun e => negb (fst e =? CurrentPort q)) q.

(** ** The wake-up pipe *)

(** Modelled from the spec: the layout of [InterruptMessage] (missing header
    [bin/eventhandler.h]), "fixed three-field record: {id: int, port: int,
    data: int64}", on the 64-bit little-endian targets of macOS: three
    8-byte fields, [sizeof(InterruptMessage) = 24]. *)
Definition kInterruptMessageSize : Z := 24.

(** The unsigned value of little-endian bytes. *)
Fixpoint le_unsigned (bs : list byte) : Z :=
  match bs with
  | [] => 0
  | b :: bs' => Z.of_N (Byte.to_N b) + 256 * le_unsigned bs'
  end.

(** The [int64_t] stored at [offset]. *)
Definition read_int64 (buf : list byte) (offset : nat) : Z :=
  wrap64 (le_unsigned (take 8 (drop offset buf))).

(** Modelled from the spec: [msg[i]] of the buffer the pipe was read into,
    in the layout of [InterruptMessage] (missing header
    [bin/eventhandler.h]): id, port and data, 8 bytes each. *)
Definition msg_at (buf : list byte) (i : nat) : InterruptMessage :=
  {| id := read_int64 buf (24 * i);
     dart_port := read_int64 buf (24 * i + 8);
     msg_data := read_int64 buf (24 * i + 16) |}.

(** The [n] low bytes of [x], little-endian. *)
Fixpoint le_bytes (n : nat) (x : Z) : list byte :=
  match n with
  | O => []
  | S n' =>
      match Byte.of_N (Z.to_N (x mod 256)) with
      | Some b => b :: le_bytes n' (x / 256)
      | None => Byte.x00 :: le_bytes n' (x / 256)
      end
  end.

(** Modelled from the spec: the bytes of an [InterruptMessage] (missing
    header [bin/eventhandler.h]) in memory. *)
Definition msg_bytes (m : InterruptMessage) : list byte :=
  le_bytes 8 (id m) ++ le_bytes 8 (dart_port m) ++ le_bytes 8 (msg_data m).

(** [read(interrupt_fds_[0], msg, count)] on the non-blocking read end: the
    bytes available, at most [count] of them; -1 when the pipe is empty. *)
Definition read_interrupt_pipe (count : Z) : M World (Z * list byte) :=
  fun w =>
    let buf := take (Z.to_nat count) (interrupt_pipe w) in
    match interrupt_pipe w with
    | [] => Ok (-1, []) w [SysRead count]
    | _ :: _ =>
        Ok (Z.of_nat (length buf), buf)
           (set_interrupt_pipe (drop (Z.to_nat count) (interrupt_pipe w)) w)
           [SysRead count]
    end.

(** ** Socket objects *)

(** The socket object at address [s]. *)
Definition socket_deref (s : Z) : M World Socket :=
  fun w =>
    match sockets w !! s with
    | Some so => Ok so w []
    | None => Aborted Dangling
    end.

(** Modelled from the spec: [Socket::CloseFd] of the missing header
    [bin/socket.h]; "closes the fd via the socket object".  A closed socket
    object has the descriptor -1, which the worker tests for. *)
Definition Socket_CloseFd (s : Z) : M World unit :=
  let* so := socket_deref s in
  modify (fun w =>
            set_sockets (<[s := {| socket_fd := -1; isolate_port := isolate_port so;
                                   ref_count := ref_count so |}]> (sockets w)) w);;
  emit (SocketCloseFd s).

(** Modelled from the spec: the destructor of [RefCntReleaseScope<Socket>],
    whose header is missing; "the worker releases one
    reference per message received on that handle's id".  The object is
    deleted with its last reference. *)
Definition Socket_Release (s : Z) : M World unit :=
  let* so := socket_deref s in
  modify (fun w =>
            if ref_count so - 1 =? 0 then set_sockets (delete s (sockets w)) w
            else set_sockets (<[s := {| socket_fd := socket_fd so;
                                        isolate_port := isolate_port so;
                                        ref_count := ref_count so - 1 |}]> (sockets w)) w).

Section EventHandler.

Variable hdr : Header.
Variable os : Collaborators.

(** [ASSERT(c)]: checked in a debug build, absent from a release build. *)
Definition ASSERT {S} (condition : string) (c : bool) : M S unit :=
  if assertions_enabled hdr && negb c then abort (AssertFailed condition)
  else ret tt.

Definition UNREACHABLE {S A} : M S A := abort (Fatal "unreachable code").

(** *** The operations of a descriptor info *)

(** Modelled from the spec: a subscriber as [SetPortAndMask] (missing header
    [bin/eventhandler.h]) creates it, with the initial token count. *)
Definition new_entry (p m : Z) : PortEntry :=
  {| port := p; event_mask := m; token_count := kTokenCount hdr |}.

(** Modelled from the spec: [SetPortAndMask] of the missing header
    [bin/eventhandler.h].  "upserts a subscriber. For single, replaces any
    prior entry; for multiple, stores per port." *)
Definition SetPortAndMask (p m : Z) : M DescriptorInfo unit :=
  modify (fun di =>
    set_subscribers
      match kind di with
      | Single =>
          match subscribers di with
          | e :: _ => if port e =? p then [with_mask m e] else [new_entry p m]
          | [] => [new_entry p m]
          end
      | Multiple => upsert (kTokenCount hdr) p m (subscribers di)
      end di).

(** Modelled from the spec: [RemovePort] of the missing header
    [bin/eventhandler.h].  "deletes the subscriber entry." *)
Definition RemovePort (p : Z) : M DescriptorInfo unit :=
  modify (fun di =>
    set_subscribers (List.filter (fun e => negb (port e =? p)) (subscribers di)) di).

(** Modelled from the spec: [ReturnTokens] of the missing header
    [bin/eventhandler.h].  "increases the subscriber's token balance by n." *)
Definition ReturnTokens (p n : Z) : M DescriptorInfo unit :=
  modify (fun di =>
    set_subscribers
      (map (fun e => if port e =? p then with_tokens (token_count e + n) e else e)
           (subscribers di)) di).

(** Modelled from the spec: [NextNotifyDartPort] of the missing header
    [bin/eventhandler.h].  "for single, the sole subscriber's port; for
    multiple, the next subscriber in round-robin order whose requested mask
    intersects mask and whose tokens > 0. Decrements that subscriber's token
    balance by 1"; "Single DIs are not throttled"; the chosen subscriber
    "advances the ring by one".  When no subscriber is eligible the null port
    is returned, on which the caller asserts ("the source's handling of a
    zero-tokens multiple DI when next_notify_port cannot find an eligible
    subscriber is implicit; specify it as skip the event rather than
    assert"). *)
Definition NextNotifyDartPort (events_ready : Z) : M DescriptorInfo Z :=
  fun di =>
    match kind di with
    | Single =>
        Ok match subscribers di with e :: _ => port e | [] => ILLEGAL_PORT end di []
    | Multiple =>
        match next_eligible events_ready (subscribers di) with
        | Some (pre, e, post) =>
            Ok (port e)
               (set_subscribers
                  (post ++ pre ++ [with_tokens (token_count e - 1) e]) di) []
        | None => Ok ILLEGAL_PORT di []
        end
    end.

(** Modelled from the spec: [NotifyAllDartPorts] of the missing header
    [bin/eventhandler.h].  "posts mask to every subscriber, clears their
    interest." *)
Definition NotifyAllDartPorts (events : Z) : M DescriptorInfo unit :=
  fun di =>
    Ok tt (set_subscribers (map (with_mask 0) (subscribers di)) di)
       (map (fun e => PostInt32 (port e) events) (subscribers di)).

(** [DescriptorInfo::HasReadEvent] and [DescriptorInfo::HasWriteEvent] *)
Definition HasReadEvent (di : DescriptorInfo) : bool :=
  negb (Z.land (Mask di) (bit kInEvent) =? 0).

Definition HasWriteEvent (di : DescriptorInfo) : bool :=
  negb (Z.land (Mask di) (bit kOutEvent) =? 0).

(** *** Kernel registration *)

Definition RemoveFromKqueue : M DescriptorInfo unit :=
  let* di := get in
  if negb (tracked_by_kqueue di) then ret tt
  else
    emit (SysKevent [EV_SET (fd di) EVFILT_READ EV_DELETE 0 0 None]);;
    emit (SysKevent [EV_SET (fd di) EVFILT_WRITE EV_DELETE 0 0 None]);;
    modify (set_tracked_by_kqueue false).

(** The change list [AddToKqueue] hands to the kernel. *)
Definition add_changes (di : DescriptorInfo) : list kevent :=
  let flags0 := if negb (IsListeningSocket di) then Z.lor EV_ADD EV_CLEAR else EV_ADD in
  (if HasReadEvent di
   then [EV_SET (fd di) EVFILT_READ flags0 0 0 (Some (fd di))] else [])
  ++ (if HasWriteEvent di
      then [EV_SET (fd di) EVFILT_WRITE flags0 0 0 (Some (fd di))] else []).

Definition AddToKqueue : M DescriptorInfo unit :=
  let* di := get in
  ASSERT "!di->tracked_by_kqueue()" (negb (tracked_by_kqueue di));;
  let kMaxChanges := 2 in
  ASSERT "di->HasReadEvent() || di->HasWriteEvent()"
         (HasReadEvent di || HasWriteEvent di);;
  let events := add_changes di in
  let changes := Z.of_nat (length events) in
  ASSERT "changes > 0" (0 <? changes);;
  ASSERT "changes <= kMaxChanges" (changes <=? kMaxChanges);;
  emit (SysKevent events);;
  let status := kevent_status os events in
  if status =? -1 then
    NotifyAllDartPorts (bit kCloseEvent)
  else
    modify (set_tracked_by_kqueue true).

Definition UpdateKQueueInstance (old_mask : Z) : M DescriptorInfo unit :=
  let* di := get in
  let new_mask := Mask di in
  if negb (old_mask =? 0) && (new_mask =? 0) then
    RemoveFromKqueue
  else if (old_mask =? 0) && negb (new_mask =? 0) then
    AddToKqueue
  else if negb (old_mask =? 0) && negb (new_mask =? 0) && negb (old_mask =? new_mask) then
    ASSERT "!di->IsListeningSocket()" (negb (IsListeningSocket di));;
    RemoveFromKqueue;;
    AddToKqueue
  else ret tt.

(** *** The descriptor map *)

Definition GetDescriptorInfo (fd0 : Z) (is_listening : bool) : M World DescriptorInfo :=
  ASSERT "fd >= 0" (0 <=? fd0);;
  let* w := get in
  let* di :=
    match socket_map_ w !! GetHashmapKeyFromFd fd0 with
    | Some di => ret di
    | None =>
        let di := if is_listening then DescriptorInfoMultiple fd0
                  else DescriptorInfoSingle fd0 in
        put (set_socket_map (<[GetHashmapKeyFromFd fd0 := di]> (socket_map_ w)) w);;
        ret di
    end in
  ASSERT "fd == di->fd()" (fd0 =? fd di);;
  ret di.

(** [socket_map_.Remove(..); di->Close(); delete di;] *)
Definition destroy_descriptor_info (fd0 : Z) : M World unit :=
  modify (fun w => set_socket_map (delete (GetHashmapKeyFromFd fd0) (socket_map_ w)) w);;
  emit (DescriptorClose fd0).

(** *** The wake-up channel *)

(** [FDUtils::WriteToBlocking] gets [result] bytes of the message into the
    pipe; anything but the whole message is fatal. *)
Definition WakeupHandler (id0 dart_port0 data0 : Z) : M World unit :=
  let msg := {| id := id0; dart_port := dart_port0; msg_data := data0 |} in
  ASSERT "kInterruptMessageSize < PIPE_BUF" (kInterruptMessageSize <? PIPE_BUF);;
  let result := WriteToBlocking os (msg_bytes msg) in
  modify (fun w =>
    set_interrupt_pipe (interrupt_pipe w ++ take (Z.to_nat result) (msg_bytes msg)) w);;
  if negb (result =? kInterruptMessageSize) then
    abort (Fatal "Interrupt message failure.")
  else ret tt.

Definition SendData (id0 dart_port0 data0 : Z) : M World unit :=
  WakeupHandler id0 dart_port0 data0.

Definition Shutdown : M World unit := SendData (kShutdownId hdr) 0 0.

(** What the [kCloseCommand] branch does on [di] itself: it removes the port
    of the message and updates the registration; it returns [new_mask]. *)
Definition CloseCommand_on_di (port0 : Z) : M DescriptorInfo Z :=
  let* d := get in
  let old_mask := Mask d in
  (if negb (port0 =? ILLEGAL_PORT) then RemovePort port0 else ret tt);;
  let* d := get in
  let new_mask := Mask d in
  UpdateKQueueInstance old_mask;;
  ret new_mask.

(** The [kCloseCommand] branch of [HandleInterruptFd], for the message [msg]
    of the socket object [socket] whose descriptor info is [di]. *)
Definition HandleCloseCommand (msg : InterruptMessage) (socket : Z) (di : Z)
  : M World unit :=
  let* so := socket_deref socket in
  let* d0 := on_di di get in
  (if IS_SIGNAL_SOCKET hdr (msg_data msg)
   then emit (ClearSignalHandlerByFd (fd d0) (isolate_port so))
   else ret tt);;
  let port0 := dart_port msg in
  let* new_mask := on_di di (CloseCommand_on_di port0) in
  let* d := on_di di get in
  let fd0 := fd d in
  (if IsListeningSocket d then
     (if CloseSafe os socket then
        ASSERT "new_mask == 0" (new_mask =? 0);;
        destroy_descriptor_info fd0
      else ret tt);;
     Socket_CloseFd socket
   else
     ASSERT "new_mask == 0" (new_mask =? 0);;
     destroy_descriptor_info fd0;;
     Socket_CloseFd socket);;
  emit (PostInt32 port0 (bit kDestroyedEvent)).

(** What the [kReturnTokenCommand] branch does on [di]. *)
Definition ReturnTokenCommand_on_di (msg : InterruptMessage) : M DescriptorInfo unit :=
  let* d := get in
  let old_mask := Mask d in
  ReturnTokens (dart_port msg) (TOKEN_COUNT hdr (msg_data msg));;
  UpdateKQueueInstance old_mask.

(** What the [kSetEventMaskCommand] branch does on [di]. *)
Definition SetEventMaskCommand_on_di (msg : InterruptMessage) : M DescriptorInfo unit :=
  let events := Z.land (msg_data msg) (EVENT_MASK hdr) in
  ASSERT "0 == (events & ~(1 << kInEvent | 1 << kOutEvent))"
         (Z.land events (Z.lnot io_bits) =? 0);;
  let* d := get in
  let old_mask := Mask d in
  SetPortAndMask (dart_port msg) (Z.land (msg_data msg) (EVENT_MASK hdr));;
  UpdateKQueueInstance old_mask.

(** The commands of a socket object, once its descriptor info [d], stored
    at [di], has been found. *)
Definition HandleSocketCommand (msg : InterruptMessage) (socket : Z)
    (d : DescriptorInfo) (di : Z) : M World unit :=
  if IS_COMMAND hdr (msg_data msg) kShutdownReadCommand then
    ASSERT "!di->IsListeningSocket()" (negb (IsListeningSocket d));;
    emit (SysShutdown (fd d) SHUT_RD)
  else if IS_COMMAND hdr (msg_data msg) kShutdownWriteCommand then
    ASSERT "!di->IsListeningSocket()" (negb (IsListeningSocket d));;
    emit (SysShutdown (fd d) SHUT_WR)
  else if IS_COMMAND hdr (msg_data msg) kCloseCommand then
    HandleCloseCommand msg socket di
  else if IS_COMMAND hdr (msg_data msg) kReturnTokenCommand then
    on_di di (ReturnTokenCommand_on_di msg)
  else if IS_COMMAND hdr (msg_data msg) kSetEventMaskCommand then
    on_di di (SetEventMaskCommand_on_di msg)
  else UNREACHABLE.

(** One turn of the loop of [HandleInterruptFd]. *)
Definition HandleInterruptMessage (msg : InterruptMessage) : M World unit :=
  if id msg =? kTimerId hdr then
    modify (fun w =>
      set_timeout_queue (UpdateTimeout (dart_port msg) (msg_data msg) (timeout_queue_ w)) w)
  else if id msg =? kShutdownId hdr then
    modify (set_shutdown true)
  else
    ASSERT "(msg[i].data & COMMAND_MASK) != 0"
           (negb (Z.land (msg_data msg) (COMMAND_MASK hdr) =? 0));;
    let socket := id msg in
    let* so := socket_deref socket in
    (if socket_fd so =? -1 then ret tt
     else
       let* d := GetDescriptorInfo (socket_fd so)
                                   (IS_LISTENING_SOCKET hdr (msg_data msg)) in
       HandleSocketCommand msg socket d (socket_fd so));;
    Socket_Release socket.

Definition HandleInterruptFd : M World unit :=
  let MAX_MESSAGES := kInterruptMessageSize in
  let* r := read_interrupt_pipe (MAX_MESSAGES * kInterruptMessageSize) in
  let bytes := fst r in
  let msg := snd r in
  for_each (seq 0 (Z.to_nat (bytes ÷ kInterruptMessageSize)))
           (fun i => HandleInterruptMessage (msg_at msg i)).

(** *** Readiness events *)

Definition GetEvents (event : kevent) : M DescriptorInfo Z :=
  let* di := get in
  if IsListeningSocket di then
    if filter event =? EVFILT_READ then
      let event_mask0 :=
        if negb (Z.land (flags event) EV_EOF =? 0) then
          if negb (fflags event =? 0) then Z.lor 0 (bit kErrorEvent)
          else Z.lor 0 (bit kCloseEvent)
        else 0 in
      ret (if event_mask0 =? 0 then Z.lor event_mask0 (bit kInEvent) else event_mask0)
    else UNREACHABLE
  else
    if filter event =? EVFILT_READ then
      let event_mask0 := bit kInEvent in
      ret (if negb (Z.land (flags event) EV_EOF =? 0) then
             if negb (fflags event =? 0) then bit kErrorEvent
             else Z.lor event_mask0 (bit kCloseEvent)
           else event_mask0)
    else if filter event =? EVFILT_WRITE then
      let event_mask0 := Z.lor 0 (bit kOutEvent) in
      ret (if negb (Z.land (flags event) EV_EOF =? 0) then
             if negb (fflags event =? 0) then bit kErrorEvent else event_mask0
           else event_mask0)
    else UNREACHABLE.

(** What [HandleEvents] does with an event that carries a descriptor info. *)
Definition HandleDescriptorEvent (event : kevent) : M DescriptorInfo unit :=
  let* di := get in
  let old_mask := Mask di in
  let* event_mask0 := GetEvents event in
  if negb (Z.land event_mask0 (bit kErrorEvent) =? 0) then
    NotifyAllDartPorts event_mask0;;
    UpdateKQueueInstance old_mask
  else if negb (event_mask0 =? 0) then
    let* port0 := NextNotifyDartPort event_mask0 in
    ASSERT "port != 0" (negb (port0 =? 0));;
    UpdateKQueueInstance old_mask;;
    emit (PostInt32 port0 event_mask0)
  else ret tt.

(** The [for] loop of [HandleEvents]; it returns [interrupt_seen]. *)
Fixpoint HandleEvents_loop (events : list kevent) (interrupt_seen : bool)
  : M World bool :=
  match events with
  | [] => ret interrupt_seen
  | event :: rest =>
      if negb (Z.land (flags event) EV_ERROR =? 0) then
        abort (Fatal "kevent failed")
      else
        match udata event with
        | None => HandleEvents_loop rest true
        | Some di =>
            on_di di (HandleDescriptorEvent event);;
            HandleEvents_loop rest interrupt_seen
        end
  end.

Definition HandleEvents (events : list kevent) : M World unit :=
  let* interrupt_seen := HandleEvents_loop events false in
  if interrupt_seen then HandleInterruptFd else ret tt.

(** *** Timers and the worker loop *)

Definition GetTimeout : M World Z :=
  let* w := get in
  if negb (HasTimeout (timeout_queue_ w)) then ret (kInfinityTimeout hdr)
  else
    let millis := wrap64 (CurrentTimeout (timeout_queue_ w) - clock w) in
    ret (if millis <? 0 then 0 else millis).

Definition HandleTimeout : M World unit :=
  let* w := get in
  if HasTimeout (timeout_queue_ w) then
    let millis := wrap64 (CurrentTimeout (timeout_queue_ w) - clock w) in
    if millis <=? 0 then
      emit (PostNull (CurrentPort (timeout_queue_ w)));;
      modify (fun w => set_timeout_queue (RemoveCurrent (timeout_queue_ w)) w)
    else ret tt
  else ret tt.

(** The [timespec*] that one turn of the loop of [EventHandlerEntry] passes
    to the blocking [kevent]; [None] is the null pointer. *)
Definition EventHandlerEntry_timeout : M World (option timespec) :=
  let* millis := GetTimeout in
  ASSERT "millis == kInfinityTimeout || millis >= 0"
         ((millis =? kInfinityTimeout hdr) || (0 <=? millis));;
  let millis := if kMaxInt32 <? millis then kMaxInt32 else millis in
  ASSERT "kInfinityTimeout < 0" (kInfinityTimeout hdr <? 0);;
  if 0 <=? millis then
    let millis32 := wrap32 millis in
    let secs := wrap32 (millis32 ÷ 1000) in
    ret (Some {| tv_sec := secs;
                 tv_nsec := wrap32 (wrap32 (millis32 - wrap32 (secs * 1000)) * 1000000) |})
  else ret None.

(** What the blocking [kevent] hands back: the events (or [None] for the
    result -1), and the time at which it returns. *)
Record KeventReturn : Type := {
  returned_events : option (list kevent);
  clock_after : Z
}.

(** The blocking [kevent] with [timeout], which returns [r], and what the
    loop does with the result. *)
Definition EventHandlerEntry_wait (timeout : option timespec) (r : KeventReturn)
  : M World unit :=
  emit (SysKeventWait timeout);;
  modify (set_clock (clock_after r));;
  match returned_events r with
  | None => abort (Fatal "kevent failed")
  | Some events =>
      HandleTimeout;;
      HandleEvents events
  end.

Definition EventHandlerEntry_iteration (r : KeventReturn) : M World unit :=
  let* timeout := EventHandlerEntry_timeout in
  EventHandlerEntry_wait timeout r.

(** The way out of the loop.  [DEBUG_ASSERT] is [ASSERT] in a debug build
    and nothing in a release build; [ReferenceCounted<Socket>::instances()]
    is the number of socket objects alive in the process. *)
Definition EventHandlerEntry_exit : M World unit :=
  let* w := get in
  ASSERT "ReferenceCounted<Socket>::instances() == 0"
         (Z.of_nat (size (sockets w)) =? 0);;
  emit NotifyShutdownDone.

(** The worker loop, against the returns [script] of the blocking query;
    when the script is used up the worker is left blocked in [kevent]. *)
Fixpoint EventHandlerEntry (script : list KeventReturn) : M World unit :=
  let* w := get in
  if shutdown_ w then EventHandlerEntry_exit
  else
    match script with
    | [] => ret tt
    | r :: script' =>
        EventHandlerEntry_iteration r;;
        EventHandlerEntry script'
    end.

End EventHandler.

(** ** Construction *)

(** The answers of the system calls that the constructor makes: the result
    of [pipe] and the two descriptors it leaves in [interrupt_fds_],
    [FDUtils::SetNonBlocking] and [FDUtils::SetCloseOnExec] for a descriptor,
    and the result of [kqueue]. *)
Record Startup : Type := {
  pipe_result : Z;
  interrupt_fds_ : Z * Z;
  SetNonBlocking : Z -> bool;
  SetCloseOnExec : Z -> bool;
  kqueue_result : Z
}.

(** [EV_SET(&event, interrupt_fds_[0], EVFILT_READ, EV_ADD, 0, 0, nullptr)] *)
Definition interrupt_registration (sys : Startup) : kevent :=
  EV_SET (fst (interrupt_fds_ sys)) EVFILT_READ EV_ADD 0 0 None.

(** The constructor [EventHandlerImplementation()], in a process with the
    socket objects and the clock of the state it starts from; it returns
    [kqueue_fd_].  The member [timeout_queue_] is constructed by default,
    which is taken to leave a queue without timers.  The messages of [FATAL]
    are without their line ends and without the text of [errno]. *)
Definition EventHandlerImplementation_new (os : Collaborators) (sys : Startup)
  : M World Z :=
  (* socket_map_(&SimpleHashMap::SamePointerValue, 16), timeout_queue_() *)
  modify (fun w => set_socket_map ∅ (set_timeout_queue [] w));;
  (* pipe(interrupt_fds_): a new pipe holds nothing *)
  let result := pipe_result sys in
  modify (set_interrupt_pipe []);;
  (if negb (result =? 0) then abort (Fatal "Pipe creation failed") else ret tt);;
  (if negb (SetNonBlocking sys (fst (interrupt_fds_ sys)))
   then abort (Fatal "Failed to set pipe fd non-blocking") else ret tt);;
  (if negb (SetCloseOnExec sys (fst (interrupt_fds_ sys)))
   then abort (Fatal "Failed to set pipe fd close on exec") else ret tt);;
  (if negb (SetCloseOnExec sys (snd (interrupt_fds_ sys)))
   then abort (Fatal "Failed to set pipe fd close on exec") else ret tt);;
  modify (set_shutdown false);;
  let kqueue_fd_ := kqueue_result sys in
  (if kqueue_fd_ =? -1 then abort (Fatal "Failed creating kqueue") else ret tt);;
  (if negb (SetCloseOnExec sys kqueue_fd_)
   then abort (Fatal "Failed to set kqueue fd close on exec") else ret tt);;
  let event := interrupt_registration sys in
  emit (SysKevent [event]);;
  let status := kevent_status os [event] in
  (if status =? -1 then abort (Fatal "Failed adding interrupt fd to kqueue") else ret tt);;
  ret kqueue_fd_.

(** ** A concrete build, for running the model *)

(** Modelled from the spec: the packing of [data] ("bits [0..15] event bits,
    bits [16..31] token count, bits [32..39] command tag, bit [40] LISTENING,
    bit [41] SIGNAL_SOCKET") and the two reserved ids.  The spec gives no
    numbers for the tags, the reserved ids, the infinite timeout and the
    initial token count; the ones below are one choice, and no theorem about
    the worker depends on them. *)
Definition command_tag (c : Command) : Z :=
  match c with
  | kSetEventMaskCommand => 1
  | kCloseCommand => 2
  | kShutdownReadCommand => 3
  | kShutdownWriteCommand => 4
  | kReturnTokenCommand => 5
  end.

(** Modelled from the spec: the macros of the missing headers over that
    packing, with the choices above. *)
Definition spec_header (debug : bool) : Header :=
  {| kTimerId := -1;
     kShutdownId := -2;
     kInfinityTimeout := -1;
     COMMAND_MASK := Z.shiftl 255 32;
     EVENT_MASK := 65535;
     IS_COMMAND := fun d c => Z.land (Z.shiftr d 32) 255 =? command_tag c;
     IS_LISTENING_SOCKET := fun d => Z.testbit d 40;
     IS_SIGNAL_SOCKET := fun d => Z.testbit d 41;
     TOKEN_COUNT := fun d => Z.land (Z.shiftr d 16) 65535;
     kTokenCount := 1;
     assertions_enabled := debug |}.

(** Modelled from the spec: [data] for a command, with its flags, token
    count and event bits, in the packing above. *)
Definition pack (c : Command) (listening signal : bool) (tokens events : Z) : Z :=
  Z.lor (Z.shiftl (command_tag c) 32)
    (Z.lor (if listening then Z.shiftl 1 40 else 0)
       (Z.lor (if signal then Z.shiftl 1 41 else 0)
          (Z.lor (Z.shiftl tokens 16) events))).

(** A kernel that accepts every registration but those of the descriptors
    in [rejected]; a registry that reports [safe]; a pipe that takes every
    message. *)
Definition a_kernel (rejected : list Z) (safe : bool) : Collaborators :=
  {| kevent_status := fun changes =>
       if existsb (fun c => existsb (Z.eqb (ident c)) rejected) changes then -1 else 0;
     CloseSafe := fun _ => safe;
     WriteToBlocking := fun bytes => Z.of_nat (length bytes) |}.

(** The state the constructor leaves: no descriptor info, no timer,
    [shutdown_ = false], an empty pipe whose read end is registered with a
    null [udata]. *)
Definition empty_world : World :=
  {| socket_map_ := ∅; timeout_queue_ := []; shutdown_ := false;
     interrupt_pipe := []; sockets := ∅; clock := 0 |}.

(** What a run shows: the descriptor infos, the timers, the shutdown flag,
    the pipe length, and the effects. *)
Definition observe {A} (r : Result World A)
  : option (list (Z * DescriptorInfo) * list (Z * Z) * bool * nat * list Effect) :=
  match r with
  | Ok _ w out =>
      Some (map_to_list (socket_map_ w), timeout_queue_ w, shutdown_ w,
            length (interrupt_pipe w), out)
  | Aborted _ => None
  end.

(** ** Invariants of the worker's state *)

(** Every descriptor info is stored under the key of its own descriptor. *)
Definition map_keyed (w : World) : Prop :=
  forall k di, socket_map_ w !! k = Some di -> k = GetHashmapKeyFromFd (fd di).

(** The timers the queue can hold: [UpdateTimeout] only stores positive
    deadlines, and they are [int64_t]. *)
Definition timers_in_range (w : World) : Prop :=
  Forall (fun e => 0 < snd e < 2 ^ 63) (timeout_queue_ w).

(** The length of a [timespec], in nanoseconds. *)
Definition timespec_nanos (ts : timespec) : Z :=
  tv_sec ts * 1000000000 + tv_nsec ts.

(** An event of the wake-up pipe: no kernel error, and no descriptor info
    attached. *)
Definition is_wakeup (event : kevent) : bool :=
  (Z.land (flags event) EV_ERROR =? 0)
  && match udata event with None => true | Some _ => false end.

(** The descriptor info once the port of a [kCloseCommand] message is
    removed from it. *)
Definition without_port (port0 : Z) (d : DescriptorInfo) : DescriptorInfo :=
  if negb (port0 =? ILLEGAL_PORT)
  then set_subscribers (List.filter (fun e => negb (port e =? port0)) (subscribers d)) d
  else d.

(** The two [EV_DELETE] calls of [RemoveFromKqueue]. *)
Definition delete_filters (fd0 : Z) : list Effect :=
  [SysKevent [EV_SET fd0 EVFILT_READ EV_DELETE 0 0 None];
   SysKevent [EV_SET fd0 EVFILT_WRITE EV_DELETE 0 0 None]].

(** The socket object after [CloseFd()] and the release of one reference. *)
Definition closed_and_released (so : Socket) : option Socket :=
  if ref_count so - 1 =? 0 then None
  else Some {| socket_fd := -1; isolate_port := isolate_port so;
               ref_count := ref_count so - 1 |}.

(** A computation that never uses a deleted object. *)
Definition no_dangling {S A} (c : M S A) : Prop :=
  forall s, c s <> Aborted Dangling.

(** The descriptor infos that the events of a batch point to are in the
    map. *)
Definition batch_alive (events : list kevent) (w : World) : Prop :=
  forall event p, In event events -> udata event = Some p ->
                  is_Some (socket_map_ w !! GetHashmapKeyFromFd p).

(** The [(port, value)] pairs that a run posted with [PostInt32]. *)
Definition posted (out : list Effect) : list (Z * Z) :=
  flat_map (fun e => match e with PostInt32 p v => [(p, v)] | _ => [] end) out.

(** A property of every entry of the socket map, given its key. *)
Definition map_all (P : Z -> DescriptorInfo -> Prop) (w : World) : Prop :=
  forall k d, socket_map_ w !! k = Some d -> P k d.

(** A property of every entry of the socket map, of the timer queue and of
    the bytes in the pipe. *)
Definition world_inv (P : Z -> DescriptorInfo -> Prop) (T : list (Z * Z) -> Prop)
    (R : list byte -> Prop) (w : World) : Prop :=
  map_all P w /\ T (timeout_queue_ w) /\ R (interrupt_pipe w).

(** The values of [intptr_t], [Dart_Port] and [int64_t]. *)
Definition in_int64 (x : Z) : Prop := - 2 ^ 63 <= x < 2 ^ 63.

(** The pipe holds whole messages. *)
Definition whole_messages (pipe : list byte) : Prop :=
  (kInterruptMessageSize | Z.of_nat (length pipe)).

(** What the theorems below assume of the state, together. *)
Definition standing (w : World) : Prop :=
  map_keyed w /\ timers_in_range w /\ whole_messages (interrupt_pipe w).

(** Invariant I1 for one descriptor info, and for the whole map: the
    descriptor info is registered with the kernel exactly when its effective
    mask is not 0. *)
Definition I1_di (d : DescriptorInfo) : Prop :=
  tracked_by_kqueue d = true <-> Mask d <> 0.

Definition I1 (w : World) : Prop :=
  forall k d, socket_map_ w !! k = Some d -> I1_di d.

(** Invariant I2, as far as the worker relies on it: no subscriber sits on
    the null port; and a single descriptor info has at most one subscriber. *)
Definition ports_nonzero (d : DescriptorInfo) : Prop :=
  Forall (fun e => port e <> ILLEGAL_PORT) (subscribers d).

Definition single_has_one (d : DescriptorInfo) : Prop :=
  kind d = Single -> (length (subscribers d) <= 1)%nat.

(** [hoare P c Q]: from a state with [P], when [c] returns, it returns a
    value and a state with [Q].  A run that aborts has no state to speak
    of. *)
Definition hoare {S A} (P : S -> Prop) (c : M S A) (Q : A -> S -> Prop) : Prop :=
  forall s a s' out, P s -> c s = Ok a s' out -> Q a s'.

(** ** What the further properties speak of *)

(** The masks that [GetEvents] can decode. *)
Definition decoded_masks : list Z :=
  [bit kInEvent; bit kOutEvent; bit kErrorEvent; bit kCloseEvent;
   Z.lor (bit kInEvent) (bit kCloseEvent)].

(** The filters [GetEvents] knows for a descriptor info. *)
Definition filter_known (event : kevent) (di : DescriptorInfo) : bool :=
  (filter event =? EVFILT_READ)
  || (negb (IsListeningSocket di) && (filter event =? EVFILT_WRITE)).

(** The descriptor infos of [m'] are those of [m], for the same descriptors
    and of the same kinds. *)
Definition same_descriptors (m m' : gmap Z DescriptorInfo) : Prop :=
  forall k, match m !! k, m' !! k with
            | Some d, Some d' => fd d' = fd d /\ kind d' = kind d
            | None, None => True
            | _, _ => False
            end.

(** The effects of handling a readiness event: kernel registrations, and
    posts of a decoded mask. *)
Definition readiness_effect (e : Effect) : Prop :=
  match e with
  | SysKevent _ => True
  | PostInt32 _ v => In v decoded_masks
  | _ => False
  end.

(** Every effect of [c], when it returns, is one of [E]. *)
Definition emits {S A} (E : Effect -> Prop) (c : M S A) : Prop :=
  forall s a s' out, c s = Ok a s' out -> Forall E out.

(** An event that reports an error of the kernel. *)
Definition has_EV_ERROR (event : kevent) : bool :=
  negb (Z.land (flags event) EV_ERROR =? 0).

(** The readiness events of a batch: every event but those of the wake-up
    pipe. *)
Definition readiness_events (events : list kevent) : list kevent :=
  List.filter (fun e => negb (is_wakeup e)) events.

(** What the worker does with one readiness event: an error of the kernel
    is fatal; otherwise the event is decoded and dispatched on the
    descriptor info it carries. *)
Definition handle_readiness_event (hdr : Header) (os : Collaborators) (event : kevent)
  : M World unit :=
  if has_EV_ERROR event then abort (Fatal "kevent failed")
  else match udata event with
       | Some di => on_di di (HandleDescriptorEvent hdr os event)
       | None => ret tt
       end.

(** The ordering in the words of the specification: "if a readiness batch
    and interrupts arrive in the same query return, process readiness first,
    interrupts last". *)
Definition HandleEvents_as_specified (hdr : Header) (os : Collaborators)
    (events : list kevent) : M World unit :=
  for_each (readiness_events events) (handle_readiness_event hdr os);;
  if existsb is_wakeup events then HandleInterruptFd hdr os else ret tt.

(** A message whose fields are an [intptr_t], a [Dart_Port] and an
    [int64_t]. *)
Definition message_in_range (m : InterruptMessage) : Prop :=
  in_int64 (id m) /\ in_int64 (dart_port m) /\ in_int64 (msg_data m).

(** [SendData] for a message. *)
Definition SendData_message (hdr : Header) (os : Collaborators) (m : InterruptMessage)
  : M World unit :=
  SendData hdr os (id m) (dart_port m) (msg_data m).

(** The messages that one call of [HandleInterruptFd] has room for:
    [MAX_MESSAGES = kInterruptMessageSize]. *)
Definition MAX_MESSAGES : nat := Z.to_nat kInterruptMessageSize.

(** The socket objects once a reference of the object [so] at [s] is
    released. *)
Definition released (s : Z) (so : Socket) (m : gmap Z Socket) : gmap Z Socket :=
  if ref_count so - 1 =? 0 then delete s m
  else <[s := {| socket_fd := socket_fd so; isolate_port := isolate_port so;
                 ref_count := ref_count so - 1 |}]> m.

(** The socket object after [CloseFd()]. *)
Definition closed (so : Socket) : Socket :=
  {| socket_fd := -1; isolate_port := isolate_port so; ref_count := ref_count so |}.

(** The message carries a command for a socket object: it is neither a
    timer nor the shutdown message, and it has a command bit, which a debug
    build asserts. *)
Definition socket_message (hdr : Header) (msg : InterruptMessage) : Prop :=
  id msg <> kTimerId hdr /\ id msg <> kShutdownId hdr
  /\ (assertions_enabled hdr = true -> Z.land (msg_data msg) (COMMAND_MASK hdr) <> 0).

(** The message [Shutdown] sends. *)
Definition shutdown_message (hdr : Header) : InterruptMessage :=
  {| id := kShutdownId hdr; dart_port := 0; msg_data := 0 |}.

(** [w] is [w0] but for the socket map and the socket objects, which are
    [m]. *)
Definition with_sockets (m : gmap Z Socket) (w0 w : World) : Prop :=
  timeout_queue_ w = timeout_queue_ w0 /\ shutdown_ w = shutdown_ w0
  /\ interrupt_pipe w = interrupt_pipe w0 /\ clock w = clock w0
  /\ sockets w = m.

(** What the worker does inside a turn of its loop: anything but the
    blocking query and the notification that it is done. *)
Definition turn_effect (e : Effect) : Prop :=
  e <> NotifyShutdownDone /\ forall timeout, e <> SysKeventWait timeout.

(** The effects of the turns of the loop: each turn is the timeout of its
    blocking query and what the worker did when the query returned. *)
Definition turns_trace (turns : list (option timespec * list Effect)) : list Effect :=
  flat_map (fun t => SysKeventWait (fst t) :: snd t) turns.

(** Every system call of the constructor succeeds. *)
Definition startup_succeeds (os : Collaborators) (sys : Startup) : bool :=
  (pipe_result sys =? 0)
  && SetNonBlocking sys (fst (interrupt_fds_ sys))
  && SetCloseOnExec sys (fst (interrupt_fds_ sys))
  && SetCloseOnExec sys (snd (interrupt_fds_ sys))
  && negb (kqueue_result sys =? -1)
  && SetCloseOnExec sys (kqueue_result sys)
  && negb (kevent_status os [interrupt_registration sys] =? -1).

(** The state the constructor leaves, in a process with the socket objects
    and the clock of [w]. *)
Definition constructed (w : World) : World :=
  {| socket_map_ := ∅; timeout_queue_ := []; shutdown_ := false;
     interrupt_pipe := []; sockets := sockets w; clock := clock w |}.

(** ** Worked inputs *)

(** The update procedure in the words of the specification: "old == 0 and
    new == 0: no-op; old == 0 and new != 0: add filters corresponding to bits
    in new; old != 0 and new == 0: delete all filters; otherwise: delete then
    add". *)
Definition UpdateKQueueInstance_as_specified (hdr : Header) (os : Collaborators)
    (old_mask : Z) : M DescriptorInfo unit :=
  let* di := get in
  let new_mask := Mask di in
  if (old_mask =? 0) && (new_mask =? 0) then ret tt
  else if (old_mask =? 0) && negb (new_mask =? 0) then AddToKqueue hdr os
  else if negb (old_mask =? 0) && (new_mask =? 0) then RemoveFromKqueue
  else RemoveFromKqueue;; AddToKqueue hdr os.

(** A connected socket on descriptor 5, one subscriber on port 77 waiting
    for IN, registered with the kernel. *)
Definition a_single_di : DescriptorInfo :=
  {| fd := 5; kind := Single;
     subscribers := [ {| port := 77; event_mask := 1; token_count := 1 |} ];
     tracked_by_kqueue := true |}.

(** A listening socket on descriptor 7, one subscriber on port 77 waiting
    for IN with one token, registered with the kernel. *)
Definition a_listening_di : DescriptorInfo :=
  {| fd := 7; kind := Multiple;
     subscribers := [ {| port := 77; event_mask := 1; token_count := 1 |} ];
     tracked_by_kqueue := true |}.

(** A pipe holding one whole timer message. *)
Definition a_world_with_a_whole_message : World :=
  set_interrupt_pipe (msg_bytes {| id := -1; dart_port := 55; msg_data := 1000 |})
                     empty_world.

(** A pipe holding one whole timer message (port 55, deadline 1000) and one
    stray byte. *)
Definition a_world_with_a_torn_message : World :=
  set_interrupt_pipe
    (msg_bytes {| id := -1; dart_port := 55; msg_data := 1000 |} ++ [Byte.x2a])
    empty_world.

(** Two timers, due at 5000 and 2511, at time 10. *)
Definition a_world_with_timers : World :=
  set_clock 10 (set_timeout_queue [(1, 5000); (2, 2511)] empty_world).

(** The event of the wake-up pipe, and an EOF without error on the
    listening descriptor 7. *)
Definition a_wakeup_event : kevent := EV_SET 3 EVFILT_READ 0 0 24 None.
Definition an_eof_event : kevent := EV_SET 7 EVFILT_READ EV_EOF 0 0 (Some 7).

(** A session: the socket object 100 listens on descriptor 7; port 77 asks
    for IN; the worker is woken up, registers the descriptor, and then sees
    it readable. *)
Definition a_session : M World unit :=
  put (set_sockets (<[100 := {| socket_fd := 7; isolate_port := 9; ref_count := 5 |}]> ∅)
                   empty_world);;
  SendData (spec_header true) (a_kernel [] true)
           100 77 (pack kSetEventMaskCommand true false 0 1);;
  EventHandlerEntry (spec_header true) (a_kernel [] true)
    [ {| returned_events := Some [a_wakeup_event]; clock_after := 1 |};
      {| returned_events := Some [EV_SET 7 EVFILT_READ 0 0 1 (Some 7)]; clock_after := 2 |} ].

(** The socket object 100 is connected on descriptor 5, with the
    descriptor info above; port 77 closes it. *)
Definition a_world_with_a_connection : World :=
  set_sockets (<[100 := {| socket_fd := 5; isolate_port := 9; ref_count := 2 |}]> ∅)
              (set_socket_map (<[6 := a_single_di]> ∅) empty_world).

Definition a_close_message : InterruptMessage :=
  {| id := 100; dart_port := 77; msg_data := pack kCloseCommand false false 0 0 |}.

(** The connected socket of descriptor 5 is readable while its close
    command sits in the pipe. *)
Definition a_world_closing : World :=
  set_interrupt_pipe (msg_bytes a_close_message) a_world_with_a_connection.

(** Three isolates accept on the listening descriptor 7, one token each. *)
Definition a_shared_listening_di : DescriptorInfo :=
  {| fd := 7; kind := Multiple;
     subscribers := [ {| port := 11; event_mask := 1; token_count := 1 |};
                      {| port := 12; event_mask := 1; token_count := 1 |};
                      {| port := 13; event_mask := 1; token_count := 1 |} ];
     tracked_by_kqueue := true |}.

(** The connected socket of descriptor 5 is readable. *)
Definition a_read_event : kevent := EV_SET 5 EVFILT_READ 0 0 1 (Some 5).


(** Two timer messages: port 55 at 1000, port 56 at 2000. *)
Definition two_timer_messages : list InterruptMessage :=
  [ {| id := -1; dart_port := 55; msg_data := 1000 |};
    {| id := -1; dart_port := 56; msg_data := 2000 |} ].

(** A pipe holding one stray byte. *)
Definition a_world_with_a_stray_byte : World :=
  set_interrupt_pipe [Byte.x2a] empty_world.

(** The socket object 100 was closed, and one reference to it is left. *)
Definition a_world_with_a_closed_socket : World :=
  set_sockets (<[100 := {| socket_fd := -1; isolate_port := 9; ref_count := 1 |}]> ∅)
              empty_world.

(** Port 77 closes the write side of the connection on descriptor 5. *)
Definition a_shutdown_write_message : InterruptMessage :=
  {| id := 100; dart_port := 77; msg_data := pack kShutdownWriteCommand false false 0 0 |}.

(** The socket object 100 listens on descriptor 7, which three isolates
    share; port 11 closes its socket. *)
Definition a_world_with_a_shared_listener : World :=
  set_sockets (<[100 := {| socket_fd := 7; isolate_port := 9; ref_count := 2 |}]> ∅)
              (set_socket_map (<[8 := a_shared_listening_di]> ∅) empty_world).

Definition a_listener_close_message : InterruptMessage :=
  {| id := 100; dart_port := 11; msg_data := pack kCloseCommand true false 0 0 |}.

(** The worker is woken up once, and would then see descriptor 5 readable. *)
Definition a_wakeup_return : KeventReturn :=
  {| returned_events := Some [a_wakeup_event]; clock_after := 1 |}.
Definition a_read_return : KeventReturn :=
  {| returned_events := Some [a_read_event]; clock_after := 2 |}.





(** System calls that all succeed: the pipe is (3, 4), the kqueue 5. *)
Definition a_startup : Startup :=
  {| pipe_result := 0; interrupt_fds_ := (3, 4);
     SetNonBlocking := fun _ => true; SetCloseOnExec := fun _ => true;
     kqueue_result := 5 |}.

(** * Properties *)

(** ** The model at work *)

(** The session: the worker blocks without a timeout, drains the pipe,
    registers the listening descriptor level-triggered, blocks again, hands
    the connection to port 77 and, the one token of the port being spent,
    takes the descriptor off the kernel. *)
Example a_session_trace :
  observe (a_session empty_world) =
  Some ([(8, {| fd := 7; kind := Multiple;
                subscribers := [ {| port := 77; event_mask := 1; token_count := 0 |} ];
                tracked_by_kqueue := false |})],
        [], false, 0%nat,
        [SysKeventWait None; SysRead 576;
         SysKevent [EV_SET 7 EVFILT_READ EV_ADD 0 0 (Some 7)];
         SysKeventWait None]
        ++ delete_filters 7 ++ [PostInt32 77 1]).
Proof. vm_compute. reflexivity. Qed.

(** Round robin: three connections go to the three ports in turn; the
    filters are deleted when the last token is spent, before the last post. *)
Example round_robin :
  for_each [1; 2; 3]%nat
    (fun _ => HandleDescriptorEvent (spec_header true) (a_kernel [] true)
                (EV_SET 7 EVFILT_READ 0 0 1 (Some 7)))
    a_shared_listening_di =
  Ok tt
     {| fd := 7; kind := Multiple;
        subscribers := [ {| port := 11; event_mask := 1; token_count := 0 |};
                         {| port := 12; event_mask := 1; token_count := 0 |};
                         {| port := 13; event_mask := 1; token_count := 0 |} ];
        tracked_by_kqueue := false |}
     ([PostInt32 11 1; PostInt32 12 1] ++ delete_filters 7 ++ [PostInt32 13 1]).
Proof. vm_compute. reflexivity. Qed.

(** The decoding of a listening socket's READ event, and of a WRITE event. *)
Example GetEvents_listening :
  GetEvents (EV_SET 7 EVFILT_READ 0 0 1 (Some 7)) a_listening_di
    = Ok (bit kInEvent) a_listening_di []
  /\ GetEvents an_eof_event a_listening_di = Ok (bit kCloseEvent) a_listening_di []
  /\ GetEvents (EV_SET 7 EVFILT_READ EV_EOF 54 0 (Some 7)) a_listening_di
    = Ok (bit kErrorEvent) a_listening_di []
  /\ GetEvents (EV_SET 5 EVFILT_WRITE EV_EOF 0 0 (Some 5)) a_single_di
    = Ok (bit kOutEvent) a_single_di []
  /\ GetEvents (EV_SET 7 EVFILT_WRITE 0 0 0 (Some 7)) a_listening_di
    = Aborted (Fatal "unreachable code").
Proof. repeat split; reflexivity. Qed.

(** A timer that is due is posted and removed; the other stays. *)
Example HandleTimeout_due :
  HandleTimeout (set_clock 2511 a_world_with_timers) =
  Ok tt (set_timeout_queue [(1, 5000)] (set_clock 2511 a_world_with_timers))
     [PostNull 2].
Proof. vm_compute. reflexivity. Qed.

(** ** Computations *)

Lemma bind_Ok {S A B} (c : M S A) (k : A -> M S B) s a s1 out1 :
  c s = Ok a s1 out1 ->
  bind c k s = match k a s1 with
               | Aborted x => Aborted x
               | Ok b s2 out2 => Ok b s2 (out1 ++ out2)
               end.
Proof. intros E. unfold bind. now rewrite E. Qed.

Lemma bind_Aborted {S A B} (c : M S A) (k : A -> M S B) s x :
  c s = Aborted x -> bind c k s = Aborted x.
Proof. intros E. unfold bind. now rewrite E. Qed.

Lemma bind_inv {S A B} (c : M S A) (k : A -> M S B) s b s2 out :
  bind c k s = Ok b s2 out ->
  exists a s1 out1 out2,
    c s = Ok a s1 out1 /\ k a s1 = Ok b s2 out2 /\ out = out1 ++ out2.
Proof.
  unfold bind. destruct (c s) as [a s1 out1|x]; [|discriminate].
  destruct (k a s1) as [b' s2' out2|x] eqn:E; [|discriminate].
  intros [= -> -> <-]. now exists a, s1, out1, out2.
Qed.

Lemma bind_assoc {S A B C} (c : M S A) (k : A -> M S B) (h : B -> M S C) s :
  bind (bind c k) h s = bind c (fun a => bind (k a) h) s.
Proof.
  unfold bind. destruct (c s) as [a s1 out1|x]; [|reflexivity].
  destruct (k a s1) as [b s2 out2|x]; [|reflexivity].
  destruct (h b s2) as [d s3 out3|x]; [|reflexivity].
  now rewrite app_assoc.
Qed.

Lemma bind_get_eq {S B} (k : S -> M S B) s : bind get k s = k s s.
Proof. unfold bind, get. destruct (k s s); reflexivity. Qed.

Lemma bind_ret_l {S A B} (a : A) (k : A -> M S B) s :
  bind (ret a) k s = k a s.
Proof. unfold bind, ret. destruct (k a s); reflexivity. Qed.

(** ** Messages in the pipe *)

Lemma le_bytes_length n x : length (le_bytes n x) = n.
Proof.
  revert x. induction n as [|n IH]; intros x; simpl; [reflexivity|].
  destruct (Byte.of_N (Z.to_N (x mod 256))); simpl; rewrite IH; reflexivity.
Qed.

Lemma msg_bytes_length m :
  Z.of_nat (length (msg_bytes m)) = kInterruptMessageSize.
Proof.
  unfold msg_bytes. rewrite !length_app, !le_bytes_length. reflexivity.
Qed.

Lemma le_unsigned_le_bytes n x :
  le_unsigned (le_bytes n x) = x mod 2 ^ (8 * Z.of_nat n).
Proof.
  revert x. induction n as [|n IH]; intros x.
  - simpl. rewrite Z.mod_1_r. reflexivity.
  - pose proof (Z.mod_pos_bound x 256 ltac:(lia)) as Hb.
    assert (Hpow : 2 ^ (8 * Z.of_nat (S n)) = 256 * 2 ^ (8 * Z.of_nat n)).
    { replace (8 * Z.of_nat (S n)) with (8 + 8 * Z.of_nat n) by lia.
      rewrite Z.pow_add_r by lia. reflexivity. }
    rewrite Hpow, Z.rem_mul_r by lia. simpl le_bytes.
    destruct (Byte.of_N (Z.to_N (x mod 256))) as [b|] eqn:E.
    + apply Byte.to_of_N in E. simpl le_unsigned. rewrite E, IH, Z2N.id by lia.
      reflexivity.
    + exfalso. pose proof (Byte.to_of_N_option_map (Z.to_N (x mod 256))) as Ho.
      rewrite E in Ho. simpl in Ho.
      destruct (Z.to_N (x mod 256) <=? 255)%N eqn:El; [discriminate|].
      apply N.leb_gt in El. lia.
Qed.

Lemma wrap64_mod x : wrap64 (x mod 2 ^ 64) = wrap64 x.
Proof.
  unfold wrap64, wrap. change (64 - 1) with 63.
  rewrite Zplus_mod_idemp_l. reflexivity.
Qed.

Lemma read_int64_le_bytes pre x post offset :
  offset = length pre ->
  in_int64 x ->
  read_int64 (pre ++ le_bytes 8 x ++ post) offset = x.
Proof.
  intros -> Hx. unfold read_int64.
  rewrite drop_app_length, take_app_length' by (rewrite le_bytes_length; reflexivity).
  rewrite le_unsigned_le_bytes. change (8 * Z.of_nat 8) with 64.
  rewrite wrap64_mod. unfold wrap64, wrap, in_int64 in *. change (64 - 1) with 63.
  rewrite Z.mod_small; lia.
Qed.

(** What a writer puts into the pipe is the message the worker reads. *)
Lemma msg_at_msg_bytes m rest :
  in_int64 (id m) -> in_int64 (dart_port m) -> in_int64 (msg_data m) ->
  msg_at (msg_bytes m ++ rest) 0 = m.
Proof.
  destruct m as [i p d]. cbn [id dart_port msg_data]. intros Hi Hp Hd.
  unfold msg_at, msg_bytes. cbn [id dart_port msg_data].
  f_equal.
  - rewrite <- app_assoc.
    apply (read_int64_le_bytes [] i (_ ++ rest)); [reflexivity|exact Hi].
  - rewrite <- !app_assoc.
    apply (read_int64_le_bytes (le_bytes 8 i) p (_ ++ rest));
      [rewrite le_bytes_length; reflexivity|exact Hp].
  - replace ((le_bytes 8 i ++ le_bytes 8 p ++ le_bytes 8 d) ++ rest)
      with ((le_bytes 8 i ++ le_bytes 8 p) ++ le_bytes 8 d ++ rest)
      by (rewrite <- !app_assoc; reflexivity).
    apply (read_int64_le_bytes (le_bytes 8 i ++ le_bytes 8 p) d rest);
      [rewrite length_app, !le_bytes_length; reflexivity|exact Hd].
Qed.

(** ** The effective mask *)

Lemma Mask_io_bits di : Z.land (Mask di) io_bits = Mask di.
Proof.
  unfold Mask. induction (subscribers di) as [|e l IH]; simpl.
  - reflexivity.
  - destruct (0 <? token_count e); [|exact IH].
    rewrite Z.land_lor_distr_l, IH, <- Z.land_assoc, Z.land_diag. reflexivity.
Qed.

Lemma Mask_read_or_write di :
  Mask di <> 0 -> HasReadEvent di || HasWriteEvent di = true.
Proof.
  intros Hm. unfold HasReadEvent, HasWriteEvent.
  destruct (Z.land (Mask di) (bit kInEvent) =? 0) eqn:Er; [|reflexivity].
  destruct (Z.land (Mask di) (bit kOutEvent) =? 0) eqn:Ew; [|reflexivity].
  exfalso. apply Hm. rewrite <- Mask_io_bits. unfold io_bits.
  rewrite Z.land_lor_distr_r.
  apply Z.eqb_eq in Er, Ew. rewrite Er, Ew. reflexivity.
Qed.

Lemma Mask_set_tracked b di : Mask (set_tracked_by_kqueue b di) = Mask di.
Proof. reflexivity. Qed.

Lemma Mask_cleared di :
  Mask (set_subscribers (map (with_mask 0) (subscribers di)) di) = 0.
Proof.
  unfold Mask. simpl. induction (subscribers di) as [|e l IH]; simpl.
  - reflexivity.
  - destruct (0 <? token_count e); [|exact IH]. rewrite IH. reflexivity.
Qed.

Lemma add_changes_length di :
  HasReadEvent di || HasWriteEvent di = true ->
  (0 <? Z.of_nat (length (add_changes di))) = true /\
  (Z.of_nat (length (add_changes di)) <=? 2) = true.
Proof.
  unfold add_changes.
  destruct (HasReadEvent di), (HasWriteEvent di); simpl; intros H;
    try discriminate; split; reflexivity.
Qed.

(** The change list asks for the READ filter exactly when the mask has IN,
    and for the WRITE filter exactly when it has OUT. *)
Lemma add_changes_filters di :
  map filter (add_changes di) =
  (if HasReadEvent di then [EVFILT_READ] else [])
  ++ (if HasWriteEvent di then [EVFILT_WRITE] else []).
Proof.
  unfold add_changes. destruct (HasReadEvent di), (HasWriteEvent di); reflexivity.
Qed.

Section KernelRegistration.

Variable hdr : Header.
Variable os : Collaborators.

Lemma ASSERT_true {S} what (s : S) : ASSERT hdr what true s = Ok tt s [].
Proof. unfold ASSERT. rewrite andb_false_r. reflexivity. Qed.

Lemma RemoveFromKqueue_tracked di :
  tracked_by_kqueue di = true ->
  RemoveFromKqueue di =
  Ok tt (set_tracked_by_kqueue false di)
     [SysKevent [EV_SET (fd di) EVFILT_READ EV_DELETE 0 0 None];
      SysKevent [EV_SET (fd di) EVFILT_WRITE EV_DELETE 0 0 None]].
Proof. intros H. unfold RemoveFromKqueue, bind, get. rewrite H. reflexivity. Qed.

Lemma RemoveFromKqueue_untracked di :
  tracked_by_kqueue di = false -> RemoveFromKqueue di = Ok tt di [].
Proof. intros H. unfold RemoveFromKqueue, bind, get. rewrite H. reflexivity. Qed.

Lemma AddToKqueue_untracked di :
  tracked_by_kqueue di = false ->
  Mask di <> 0 ->
  AddToKqueue hdr os di =
  if kevent_status os (add_changes di) =? -1
  then Ok tt (set_subscribers (map (with_mask 0) (subscribers di)) di)
          (SysKevent (add_changes di)
           :: map (fun e => PostInt32 (port e) (bit kCloseEvent)) (subscribers di))
  else Ok tt (set_tracked_by_kqueue true di) [SysKevent (add_changes di)].
Proof.
  intros Ht Hm. pose proof (Mask_read_or_write di Hm) as Hrw.
  destruct (add_changes_length di Hrw) as [H1 H2].
  unfold AddToKqueue, bind, get. rewrite Ht. simpl negb.
  rewrite ASSERT_true, Hrw, ASSERT_true, H1, ASSERT_true, H2, ASSERT_true.
  unfold emit, NotifyAllDartPorts, modify.
  destruct (kevent_status os (add_changes di) =? -1); reflexivity.
Qed.

(** C7: when the kernel rejects the registration of a descriptor info,
    [AddToKqueue] posts [1 << kCloseEvent] to the port of every subscriber
    of the descriptor info, leaves it untracked, and returns: it does not
    abort. *)
Theorem AddToKqueue_rejected di :
  tracked_by_kqueue di = false ->
  Mask di <> 0 ->
  kevent_status os (add_changes di) = -1 ->
  exists di',
    AddToKqueue hdr os di =
      Ok tt di' (SysKevent (add_changes di)
                 :: map (fun e => PostInt32 (port e) (bit kCloseEvent)) (subscribers di))
    /\ tracked_by_kqueue di' = false
    /\ map port (subscribers di') = map port (subscribers di).
Proof.
  intros Ht Hm Hs. rewrite (AddToKqueue_untracked di Ht Hm), Hs. simpl.
  eexists. split; [reflexivity|]. split; [exact Ht|].
  simpl. rewrite map_map. reflexivity.
Qed.

Lemma UpdateKQueueInstance_unfold old_mask di :
  UpdateKQueueInstance hdr os old_mask di =
  if (old_mask =? 0) && (Mask di =? 0) then Ok tt di []
  else if old_mask =? 0 then AddToKqueue hdr os di
  else if Mask di =? 0 then RemoveFromKqueue di
  else if old_mask =? Mask di then Ok tt di []
  else bind (ASSERT hdr "!di->IsListeningSocket()" (negb (IsListeningSocket di)))
            (fun _ => bind RemoveFromKqueue (fun _ => AddToKqueue hdr os)) di.
Proof.
  unfold UpdateKQueueInstance. rewrite bind_Ok with (a := di) (s1 := di) (out1 := [])
    by reflexivity.
  destruct (old_mask =? 0) eqn:Eo, (Mask di =? 0) eqn:En; simpl.
  - reflexivity.
  - destruct (AddToKqueue hdr os di); reflexivity.
  - destruct (RemoveFromKqueue di); reflexivity.
  - destruct (old_mask =? Mask di); simpl; [reflexivity|].
    match goal with |- match ?c with _ => _ end = _ => destruct c end; reflexivity.
Qed.

(** Every change of the list adds a filter of the descriptor, with the
    descriptor info as its [udata]. *)
Lemma add_changes_added di :
  Forall (fun c => ident c = fd di /\ udata c = Some (fd di)
                   /\ Z.land (flags c) EV_ADD = EV_ADD
                   /\ Z.land (flags c) EV_DELETE = 0)
         (add_changes di).
Proof.
  unfold add_changes. apply Forall_app; split.
  - destruct (HasReadEvent di); [|constructor].
    constructor; [|constructor]. cbn [ident udata flags].
    destruct (IsListeningSocket di); cbn [negb]; repeat split; reflexivity.
  - destruct (HasWriteEvent di); [|constructor].
    constructor; [|constructor]. cbn [ident udata flags].
    destruct (IsListeningSocket di); cbn [negb]; repeat split; reflexivity.
Qed.

Lemma set_tracked_again di :
  tracked_by_kqueue di = true ->
  set_tracked_by_kqueue true (set_tracked_by_kqueue false di) = di.
Proof. destruct di as [f k l t]. simpl. intros ->. reflexivity. Qed.

(** C2, corrected: on a descriptor info that is registered with the kernel
    exactly when the old mask is not 0, [UpdateKQueueInstance] makes no
    [kevent] call when the old and the new mask are both 0; makes the one
    call that adds the filters when only the old mask is 0; makes the two
    [EV_DELETE] calls, for the READ and for the WRITE filter, when only the
    new mask is 0; makes no call when the two masks are equal; and, when the
    masks are both non-zero and differ, makes the two [EV_DELETE] calls and
    then the call that adds the filters, unless the descriptor info is a
    listening socket, which a debug build asserts it is not.  The filters
    added are READ for the bit IN of the new mask and WRITE for its bit OUT.
    When the kernel rejects the call that adds the filters, every subscriber
    is posted [1 << kCloseEvent] and its mask is cleared, and the descriptor
    info is left unregistered; otherwise it is left registered. *)
Theorem UpdateKQueueInstance_cases old_mask di :
  (tracked_by_kqueue di = true <-> old_mask <> 0) ->
  UpdateKQueueInstance hdr os old_mask di =
  (if old_mask =? 0 then
     if Mask di =? 0 then Ok tt di []
     else if kevent_status os (add_changes di) =? -1 then
       Ok tt (set_subscribers (map (with_mask 0) (subscribers di)) di)
          (SysKevent (add_changes di)
           :: map (fun e => PostInt32 (port e) (bit kCloseEvent)) (subscribers di))
     else Ok tt (set_tracked_by_kqueue true di) [SysKevent (add_changes di)]
   else if Mask di =? 0 then
     Ok tt (set_tracked_by_kqueue false di) (delete_filters (fd di))
   else if old_mask =? Mask di then Ok tt di []
   else if assertions_enabled hdr && IsListeningSocket di then
     Aborted (AssertFailed "!di->IsListeningSocket()")
   else if kevent_status os (add_changes di) =? -1 then
     Ok tt (set_subscribers (map (with_mask 0) (subscribers di))
              (set_tracked_by_kqueue false di))
        (delete_filters (fd di)
         ++ SysKevent (add_changes di)
            :: map (fun e => PostInt32 (port e) (bit kCloseEvent)) (subscribers di))
   else Ok tt di (delete_filters (fd di) ++ [SysKevent (add_changes di)]))
  /\ map filter (add_changes di) =
     (if negb (Z.land (Mask di) (bit kInEvent) =? 0) then [EVFILT_READ] else [])
     ++ (if negb (Z.land (Mask di) (bit kOutEvent) =? 0) then [EVFILT_WRITE] else [])
  /\ Forall (fun c => ident c = fd di /\ udata c = Some (fd di)
                      /\ Z.land (flags c) EV_ADD = EV_ADD
                      /\ Z.land (flags c) EV_DELETE = 0)
            (add_changes di).
Proof.
  intros Ht. split; [|split; [apply add_changes_filters|apply add_changes_added]].
  rewrite UpdateKQueueInstance_unfold.
  destruct (old_mask =? 0) eqn:Eo.
  - apply Z.eqb_eq in Eo.
    assert (tracked_by_kqueue di = false) as Hf.
    { destruct (tracked_by_kqueue di); [|reflexivity].
      exfalso. apply (proj1 Ht); [reflexivity|exact Eo]. }
    simpl. destruct (Mask di =? 0) eqn:En; [reflexivity|].
    apply Z.eqb_neq in En. apply AddToKqueue_untracked; assumption.
  - apply Z.eqb_neq in Eo.
    assert (tracked_by_kqueue di = true) as Htt by (apply Ht; exact Eo).
    simpl. destruct (Mask di =? 0) eqn:En.
    + apply RemoveFromKqueue_tracked; exact Htt.
    + destruct (old_mask =? Mask di); [reflexivity|].
      apply Z.eqb_neq in En.
      unfold bind at 1. unfold ASSERT. rewrite negb_involutive.
      destruct (assertions_enabled hdr && IsListeningSocket di); [reflexivity|].
      unfold ret, bind. rewrite (RemoveFromKqueue_tracked di Htt).
      rewrite AddToKqueue_untracked by (try reflexivity; rewrite Mask_set_tracked; exact En).
      change (add_changes (set_tracked_by_kqueue false di)) with (add_changes di).
      destruct (kevent_status os (add_changes di) =? -1).
      * reflexivity.
      * rewrite (set_tracked_again di Htt). reflexivity.
Qed.

End KernelRegistration.

(** C2 on a run: the subscriber of descriptor 5 asked for IN and OUT
    before ([old = 3]) and asks for IN now; the two filters are deleted and
    the READ filter is added again. *)
Lemma UpdateKQueueInstance_cases_witness :
  UpdateKQueueInstance (spec_header true) (a_kernel [] true) 3 a_single_di =
    Ok tt a_single_di
       [SysKevent [EV_SET 5 EVFILT_READ EV_DELETE 0 0 None];
        SysKevent [EV_SET 5 EVFILT_WRITE EV_DELETE 0 0 None];
        SysKevent [EV_SET 5 EVFILT_READ 33 0 0 (Some 5)]].
Proof.
  etransitivity.
  - apply (UpdateKQueueInstance_cases (spec_header true) (a_kernel [] true) 3 a_single_di).
    split; [discriminate|reflexivity].
  - reflexivity.
Defined.

Lemma AddToKqueue_rejected_witness :
  exists di',
    AddToKqueue (spec_header true) (a_kernel [5] true)
                (set_tracked_by_kqueue false a_single_di) =
      Ok tt di' [SysKevent [EV_SET 5 EVFILT_READ 33 0 0 (Some 5)]; PostInt32 77 8]
    /\ tracked_by_kqueue di' = false
    /\ map port (subscribers di') = [77].
Proof.
  apply (AddToKqueue_rejected (spec_header true) (a_kernel [5] true)
           (set_tracked_by_kqueue false a_single_di)).
  - reflexivity.
  - vm_compute. discriminate.
  - reflexivity.
Defined.

(** C2 as specified does not hold: with equal non-zero masks the
    specification has the filters deleted and added again, and the code
    leaves the kernel alone. *)
Lemma UpdateKQueueInstance_equal_masks_untouched :
  UpdateKQueueInstance (spec_header true) (a_kernel [] true) 1 a_single_di
    = Ok tt a_single_di []
  /\ UpdateKQueueInstance_as_specified (spec_header true) (a_kernel [] true) 1 a_single_di
    = Ok tt a_single_di
         [SysKevent [EV_SET 5 EVFILT_READ EV_DELETE 0 0 None];
          SysKevent [EV_SET 5 EVFILT_WRITE EV_DELETE 0 0 None];
          SysKevent [EV_SET 5 EVFILT_READ 33 0 0 (Some 5)]]
  /\ UpdateKQueueInstance (spec_header true) (a_kernel [] true) 1 a_single_di
     <> UpdateKQueueInstance_as_specified (spec_header true) (a_kernel [] true) 1 a_single_di.
Proof.
  split; [reflexivity|]. split; [reflexivity|]. vm_compute. discriminate.
Qed.

(** ** Event decoding *)

(** C6: for a READ event on a descriptor info that is not a listening
    socket, the decoded mask is [1 << kInEvent] without EOF,
    [(1 << kInEvent) | (1 << kCloseEvent)] with EOF and [fflags == 0], and
    [1 << kErrorEvent] alone with EOF and [fflags != 0]. *)
Theorem GetEvents_non_listening_read event di :
  IsListeningSocket di = false ->
  filter event = EVFILT_READ ->
  GetEvents event di =
  Ok (if Z.land (flags event) EV_EOF =? 0 then bit kInEvent
      else if fflags event =? 0 then Z.lor (bit kInEvent) (bit kCloseEvent)
      else bit kErrorEvent) di [].
Proof.
  intros Hl Hf. unfold GetEvents, bind, get. rewrite Hl, Hf. simpl.
  unfold ret. destruct (Z.land (flags event) EV_EOF =? 0); simpl; [reflexivity|].
  destruct (fflags event =? 0); reflexivity.
Qed.

Lemma GetEvents_non_listening_read_witness :
  GetEvents (EV_SET 5 EVFILT_READ EV_EOF 0 0 (Some 5)) a_single_di =
  Ok 9 a_single_di [].
Proof.
  apply (GetEvents_non_listening_read (EV_SET 5 EVFILT_READ EV_EOF 0 0 (Some 5))
           a_single_di); reflexivity.
Defined.

(** ** The descriptor map *)

Lemma GetDescriptorInfo_existing hdr fd0 is_listening w existing :
  0 <= fd0 ->
  socket_map_ w !! GetHashmapKeyFromFd fd0 = Some existing ->
  fd existing = fd0 ->
  GetDescriptorInfo hdr fd0 is_listening w = Ok existing w [].
Proof.
  intros Hfd E Hf. unfold GetDescriptorInfo.
  assert (Hpos : (0 <=? fd0) = true) by (apply Z.leb_le; exact Hfd).
  rewrite Hpos. unfold bind at 1. rewrite ASSERT_true.
  unfold bind at 1. unfold get at 1.
  rewrite E. unfold bind, ret. rewrite Hf, Z.eqb_refl. rewrite ASSERT_true. reflexivity.
Qed.

Lemma GetDescriptorInfo_fresh hdr fd0 (is_listening : bool) w :
  0 <= fd0 ->
  socket_map_ w !! GetHashmapKeyFromFd fd0 = None ->
  let di := if is_listening then DescriptorInfoMultiple fd0
            else DescriptorInfoSingle fd0 in
  GetDescriptorInfo hdr fd0 is_listening w =
  Ok di (set_socket_map (<[GetHashmapKeyFromFd fd0 := di]> (socket_map_ w)) w) [].
Proof.
  intros Hfd E. unfold GetDescriptorInfo.
  assert (Hpos : (0 <=? fd0) = true) by (apply Z.leb_le; exact Hfd).
  rewrite Hpos. unfold bind at 1. rewrite ASSERT_true.
  unfold bind at 1. unfold get at 1.
  rewrite E. unfold bind, ret, put.
  destruct is_listening; simpl; rewrite Z.eqb_refl, ASSERT_true; reflexivity.
Qed.

(** C10: for [fd >= 0], [GetDescriptorInfo] returns a descriptor info whose
    [fd] is the argument; when the map has an entry for the descriptor, that
    entry is returned, the map is left as it is, and [is_listening] plays no
    part; otherwise a new descriptor info of the kind [is_listening] asks
    for is stored and returned. *)
Theorem GetDescriptorInfo_spec hdr fd0 is_listening w :
  0 <= fd0 ->
  map_keyed w ->
  exists di w',
    GetDescriptorInfo hdr fd0 is_listening w = Ok di w' []
    /\ fd di = fd0
    /\ match socket_map_ w !! GetHashmapKeyFromFd fd0 with
       | Some existing =>
           di = existing /\ w' = w
           /\ GetDescriptorInfo hdr fd0 (negb is_listening) w = Ok di w' []
       | None =>
           di = (if is_listening then DescriptorInfoMultiple fd0
                 else DescriptorInfoSingle fd0)
           /\ w' = set_socket_map (<[GetHashmapKeyFromFd fd0 := di]> (socket_map_ w)) w
       end.
Proof.
  intros Hfd Hk.
  destruct (socket_map_ w !! GetHashmapKeyFromFd fd0) as [existing|] eqn:E.
  - assert (Hf : fd existing = fd0).
    { apply Hk in E. unfold GetHashmapKeyFromFd in E. lia. }
    exists existing, w.
    rewrite !(GetDescriptorInfo_existing hdr fd0 _ w existing Hfd E Hf).
    repeat split; auto.
  - eexists _, _. rewrite (GetDescriptorInfo_fresh hdr fd0 is_listening w Hfd E).
    split; [reflexivity|]. split; [destruct is_listening; reflexivity|].
    split; reflexivity.
Qed.

Lemma GetDescriptorInfo_spec_witness :
  exists di w',
    GetDescriptorInfo (spec_header true) 5 true empty_world = Ok di w' []
    /\ fd di = 5
    /\ di = DescriptorInfoMultiple 5
    /\ w' = set_socket_map (<[6 := di]> ∅) empty_world.
Proof.
  destruct (GetDescriptorInfo_spec (spec_header true) 5 true empty_world)
    as (di & w' & H1 & H2 & H3).
  - lia.
  - intros k d H. simpl in H. rewrite lookup_empty in H. discriminate.
  - exists di, w'. split; [exact H1|]. split; [exact H2|].
    change (socket_map_ empty_world !! GetHashmapKeyFromFd 5)
      with (@None DescriptorInfo) in H3.
    exact H3.
Defined.

(** ** The timeout of the blocking query *)

Lemma wrap64_small x : - 2 ^ 63 <= x < 2 ^ 63 -> wrap64 x = x.
Proof.
  intros H. unfold wrap64, wrap.
  change (64 - 1) with 63. rewrite Z.mod_small; lia.
Qed.

Lemma wrap32_small x : - 2 ^ 31 <= x < 2 ^ 31 -> wrap32 x = x.
Proof.
  intros H. unfold wrap32, wrap.
  change (32 - 1) with 31. rewrite Z.mod_small; lia.
Qed.

Lemma earliest_None q : earliest q = None <-> q = [].
Proof.
  destruct q as [|e q]; simpl; [tauto|].
  split; [|discriminate].
  destruct (earliest q) as [m|]; [destruct (snd e <=? snd m)|]; discriminate.
Qed.

(** [earliest] is an entry of the queue, and no entry is due before it. *)
Lemma earliest_least q e :
  earliest q = Some e ->
  In e q /\ Forall (fun e' => snd e <= snd e') q.
Proof.
  revert e. induction q as [|a q IH]; simpl; intros e H; [discriminate|].
  destruct (earliest q) as [m|] eqn:Em.
  - destruct (IH m eq_refl) as [Hin Hle].
    destruct (snd a <=? snd m) eqn:Ec; injection H as <-.
    + apply Z.leb_le in Ec. split; [now left|].
      constructor; [lia|]. eapply List.Forall_impl; [|exact Hle].
      simpl. intros; lia.
    + apply Z.leb_gt in Ec. split; [now right|].
      constructor; [lia|exact Hle].
  - injection H as <-. apply earliest_None in Em. subst q.
    split; [now left|]. constructor; [lia|constructor].
Qed.

Lemma timespec_of_millis ms :
  0 <= ms <= kMaxInt32 ->
  let millis32 := wrap32 ms in
  let secs := wrap32 (millis32 ÷ 1000) in
  let ts := {| tv_sec := secs;
               tv_nsec := wrap32 (wrap32 (millis32 - wrap32 (secs * 1000)) * 1000000) |} in
  0 <= tv_nsec ts < 1000000000 /\ timespec_nanos ts = 1000000 * ms.
Proof.
  unfold kMaxInt32. intros H. cbv zeta.
  rewrite (wrap32_small ms) by lia.
  rewrite Z.quot_div_nonneg by lia.
  pose proof (Z.div_mod ms 1000 ltac:(lia)) as Hdm.
  pose proof (Z.mod_pos_bound ms 1000 ltac:(lia)) as Hmb.
  assert (0 <= ms / 1000 <= 2147483) by lia.
  rewrite (wrap32_small (ms / 1000)) by lia.
  rewrite (wrap32_small (ms / 1000 * 1000)) by lia.
  rewrite (wrap32_small (ms - ms / 1000 * 1000)) by lia.
  rewrite (wrap32_small ((ms - ms / 1000 * 1000) * 1000000)) by lia.
  unfold timespec_nanos. simpl. lia.
Qed.

(** C8: the timeout one turn of the worker loop passes to the blocking
    query is the null pointer (no limit) when the timer queue is empty, and
    otherwise a [timespec] of [max(0, min(earliest - now, kMaxInt32))]
    milliseconds, where [earliest] is the least deadline of the queue; and
    the turn begins by blocking with that timeout. *)
Theorem EventHandlerEntry_timeout_spec hdr os w :
  kInfinityTimeout hdr < 0 ->
  0 <= clock w < 2 ^ 63 ->
  timers_in_range w ->
  exists timeout,
    EventHandlerEntry_timeout hdr w = Ok timeout w []
    /\ match earliest (timeout_queue_ w) with
       | None => timeout = None
       | Some e =>
           Forall (fun e' => snd e <= snd e') (timeout_queue_ w)
           /\ exists ts,
               timeout = Some ts
               /\ 0 <= tv_nsec ts < 1000000000
               /\ timespec_nanos ts =
                  1000000 * Z.max 0 (Z.min (snd e - clock w) kMaxInt32)
       end
    /\ forall r,
        EventHandlerEntry_iteration hdr os r w =
        EventHandlerEntry_wait hdr os timeout r w.
Proof.
  intros Hinf Hclock Hq.
  assert (Hinf' : (kInfinityTimeout hdr <? 0) = true) by (apply Z.ltb_lt; lia).
  assert (Hstep : forall timeout,
             EventHandlerEntry_timeout hdr w = Ok timeout w [] ->
             forall r, EventHandlerEntry_iteration hdr os r w =
                       EventHandlerEntry_wait hdr os timeout r w).
  { intros timeout E r. unfold EventHandlerEntry_iteration.
    rewrite (bind_Ok _ _ _ _ _ _ E).
    destruct (EventHandlerEntry_wait hdr os timeout r w); reflexivity. }
  assert (HG : GetTimeout hdr w =
               Ok (if negb (HasTimeout (timeout_queue_ w)) then kInfinityTimeout hdr
                   else let millis := wrap64 (CurrentTimeout (timeout_queue_ w) - clock w) in
                        if millis <? 0 then 0 else millis) w []).
  { unfold GetTimeout, bind, get, ret.
    destruct (negb (HasTimeout (timeout_queue_ w))); reflexivity. }
  cut (exists timeout,
          EventHandlerEntry_timeout hdr w = Ok timeout w []
          /\ match earliest (timeout_queue_ w) with
             | None => timeout = None
             | Some e =>
                 Forall (fun e' => snd e <= snd e') (timeout_queue_ w)
                 /\ exists ts,
                     timeout = Some ts
                     /\ 0 <= tv_nsec ts < 1000000000
                     /\ timespec_nanos ts =
                        1000000 * Z.max 0 (Z.min (snd e - clock w) kMaxInt32)
             end).
  { intros (timeout & E & Ht). exists timeout. eauto. }
  unfold EventHandlerEntry_timeout. rewrite (bind_Ok _ _ _ _ _ _ HG). clear HG.
  destruct (earliest (timeout_queue_ w)) as [e|] eqn:Ee.
  - assert (Hne : HasTimeout (timeout_queue_ w) = true).
    { destruct (timeout_queue_ w); [discriminate|reflexivity]. }
    destruct (earliest_least _ _ Ee) as [Hin Hle].
    assert (He : 0 < snd e < 2 ^ 63).
    { unfold timers_in_range in Hq. rewrite Forall_forall in Hq. apply Hq.
      apply list_elem_of_In. exact Hin. }
    rewrite Hne. unfold CurrentTimeout. rewrite Ee. simpl negb. cbv iota zeta.
    rewrite (wrap64_small (snd e - clock w)) by lia.
    set (d := snd e - clock w).
    set (millis := if d <? 0 then 0 else d).
    assert (Hm : millis = Z.max 0 d).
    { unfold millis. destruct (d <? 0) eqn:Ed;
        [apply Z.ltb_lt in Ed|apply Z.ltb_ge in Ed]; lia. }
    set (clamped := if kMaxInt32 <? millis then kMaxInt32 else millis).
    assert (Hc : clamped = Z.max 0 (Z.min d kMaxInt32)).
    { unfold clamped, kMaxInt32 in *. destruct (2147483647 <? millis) eqn:Ek;
        [apply Z.ltb_lt in Ek|apply Z.ltb_ge in Ek]; lia. }
    assert (Hr : 0 <= clamped <= kMaxInt32) by (unfold kMaxInt32 in *; lia).
    assert (H0 : (0 <=? millis) = true) by (apply Z.leb_le; lia).
    assert (H1 : (0 <=? clamped) = true) by (apply Z.leb_le; lia).
    unfold bind. rewrite H0, orb_true_r, ASSERT_true, Hinf', ASSERT_true, H1.
    unfold ret. simpl app.
    eexists. split; [reflexivity|].
    split; [exact Hle|]. eexists. split; [reflexivity|].
    rewrite <- Hc. apply (timespec_of_millis clamped Hr).
  - apply earliest_None in Ee. rewrite Ee. simpl HasTimeout. simpl negb. cbv iota.
    assert (Hc : (kMaxInt32 <? kInfinityTimeout hdr) = false)
      by (apply Z.ltb_ge; unfold kMaxInt32; lia).
    assert (Hn : (0 <=? kInfinityTimeout hdr) = false) by (apply Z.leb_gt; lia).
    unfold bind. rewrite Z.eqb_refl. simpl orb.
    rewrite ASSERT_true, Hinf', ASSERT_true, Hc, Hn. unfold ret. simpl.
    exists None. split; reflexivity.
Qed.

Lemma EventHandlerEntry_timeout_spec_witness :
  exists timeout,
    EventHandlerEntry_timeout (spec_header true) a_world_with_timers
      = Ok timeout a_world_with_timers []
    /\ exists ts, timeout = Some ts /\ timespec_nanos ts = 2501000000.
Proof.
  destruct (EventHandlerEntry_timeout_spec (spec_header true) (a_kernel [] true)
              a_world_with_timers) as (timeout & E & Hm & _).
  - simpl. lia.
  - simpl. lia.
  - repeat constructor; simpl; lia.
  - exists timeout. split; [exact E|].
    simpl in Hm. destruct Hm as (_ & ts & H1 & _ & H2).
    exists ts. split; [exact H1|exact H2].
Defined.

(** ** Readiness events before interrupts *)

Lemma bind_ext {S A B} (c : M S A) (k k' : A -> M S B) s :
  (forall a s1, k a s1 = k' a s1) -> bind c k s = bind c k' s.
Proof.
  intros H. unfold bind. destruct (c s) as [a s1 out1|x]; [|reflexivity].
  now rewrite H.
Qed.

Lemma HandleEvents_loop_filter hdr os events seen w :
  HandleEvents_loop hdr os events seen w =
  bind (HandleEvents_loop hdr os (List.filter (fun e => negb (is_wakeup e)) events) false)
       (fun _ => ret (seen || existsb is_wakeup events)) w.
Proof.
  revert seen w. induction events as [|event rest IH]; intros seen w.
  - simpl. rewrite bind_ret_l, orb_false_r. reflexivity.
  - assert (Ew : is_wakeup event =
                 (Z.land (flags event) EV_ERROR =? 0)
                 && match udata event with None => true | Some _ => false end)
      by reflexivity.
    simpl. rewrite Ew.
    destruct (Z.land (flags event) EV_ERROR =? 0) eqn:Eerr; simpl.
    + destruct (udata event) as [di|] eqn:Eu; simpl.
      * rewrite Eerr, Eu. simpl. rewrite bind_assoc.
        apply bind_ext. intros _ s1. apply IH.
      * rewrite IH, orb_true_r. reflexivity.
    + rewrite Eerr. reflexivity.
Qed.

Lemma no_dangling_bind {S A B} (c : M S A) (k : A -> M S B) :
  no_dangling c -> (forall a, no_dangling (k a)) -> no_dangling (bind c k).
Proof.
  intros Hc Hk s. unfold bind. specialize (Hc s).
  destruct (c s) as [a s1 out1|x]; [|intros E; apply Hc; congruence].
  specialize (Hk a s1). destruct (k a s1); [discriminate|exact Hk].
Qed.

Lemma no_dangling_ASSERT {S} hdr what c : no_dangling (@ASSERT hdr S what c).
Proof.
  intros s. unfold ASSERT. destruct (assertions_enabled hdr && negb c); discriminate.
Qed.

Lemma no_dangling_if {S A} (b : bool) (c1 c2 : M S A) :
  no_dangling c1 -> no_dangling c2 -> no_dangling (if b then c1 else c2).
Proof. destruct b; auto. Qed.

Lemma no_dangling_total {S A} (c : M S A) :
  (forall s, exists a s' out, c s = Ok a s' out) -> no_dangling c.
Proof. intros H s. destruct (H s) as (a & s' & out & ->). discriminate. Qed.

Lemma no_dangling_UpdateKQueueInstance hdr os old_mask :
  no_dangling (UpdateKQueueInstance hdr os old_mask).
Proof.
  assert (Hr : no_dangling RemoveFromKqueue).
  { intros d. unfold RemoveFromKqueue, bind, get.
    destruct (negb (tracked_by_kqueue d)); discriminate. }
  assert (Ha : no_dangling (AddToKqueue hdr os)).
  { unfold AddToKqueue. apply no_dangling_bind; [intros d; discriminate|]. intros d.
    repeat (apply no_dangling_bind; [apply no_dangling_ASSERT|intros []]).
    apply no_dangling_bind; [intros d0; discriminate|]. intros [].
    apply no_dangling_if; intros d0; discriminate. }
  unfold UpdateKQueueInstance. apply no_dangling_bind; [intros d; discriminate|].
  intros d. repeat apply no_dangling_if; auto.
  - apply no_dangling_bind; [apply no_dangling_ASSERT|]. intros [].
    apply no_dangling_bind; auto.
  - intros d0. discriminate.
Qed.

Lemma no_dangling_HandleDescriptorEvent hdr os event :
  no_dangling (HandleDescriptorEvent hdr os event).
Proof.
  unfold HandleDescriptorEvent. apply no_dangling_bind; [intros d; discriminate|].
  intros d. apply no_dangling_bind.
  { intros d0. unfold GetEvents, bind, get, ret, UNREACHABLE, abort.
    destruct (IsListeningSocket d0), (filter event =? EVFILT_READ),
      (filter event =? EVFILT_WRITE); discriminate. }
  intros m. repeat apply no_dangling_if.
  - apply no_dangling_bind; [intros d0; discriminate|]. intros [].
    apply no_dangling_UpdateKQueueInstance.
  - apply no_dangling_bind.
    { intros d0. unfold NextNotifyDartPort. destruct (kind d0); [discriminate|].
      destruct (next_eligible m (subscribers d0)) as [[[pre e] post]|]; discriminate. }
    intros p. apply no_dangling_bind; [apply no_dangling_ASSERT|]. intros [].
    apply no_dangling_bind; [apply no_dangling_UpdateKQueueInstance|].
    intros []. intros d0. discriminate.
  - intros d0. discriminate.
Qed.

(** The readiness events of a batch find their descriptor infos: handling
    them deletes none, so the ones that were in the map when the kernel
    returned the batch are there when their event is handled. *)
Lemma HandleEvents_loop_no_dangling hdr os events seen w :
  batch_alive events w ->
  HandleEvents_loop hdr os events seen w <> Aborted Dangling.
Proof.
  revert seen w. induction events as [|event rest IH]; intros seen w Hal.
  - discriminate.
  - simpl. destruct (negb (Z.land (flags event) EV_ERROR =? 0)); [discriminate|].
    assert (Hrest : batch_alive rest w).
    { intros ev p Hin. apply Hal. now right. }
    destruct (udata event) as [p|] eqn:Eu; [|apply IH, Hrest].
    destruct (Hal event p (or_introl eq_refl) Eu) as [d Ed].
    unfold bind, on_di. rewrite Ed.
    pose proof (no_dangling_HandleDescriptorEvent hdr os event d) as Hd.
    destruct (HandleDescriptorEvent hdr os event d) as [a d' out|x];
      [|intros E; injection E as ->; congruence].
    match goal with
    | |- context [HandleEvents_loop hdr os rest seen ?w1] =>
        assert (Hal1 : batch_alive rest w1)
    end.
    { intros ev q Hin Hq. simpl.
      destruct (Hrest ev q Hin Hq) as [dq Edq].
      destruct (decide (GetHashmapKeyFromFd p = GetHashmapKeyFromFd q)) as [->|Hne].
      - rewrite lookup_insert_eq. eauto.
      - rewrite lookup_insert_ne by exact Hne. eauto. }
    specialize (IH seen _ Hal1).
    destruct (HandleEvents_loop hdr os rest seen _); [discriminate|exact IH].
Qed.

(** Were the close command applied first, the readiness event of the same
    batch would reach a deleted descriptor info. *)
Example close_before_readiness_dangles :
  batch_alive [EV_SET 5 EVFILT_READ 0 0 1 (Some 5); a_wakeup_event] a_world_closing
  /\ bind (HandleInterruptFd (spec_header true) (a_kernel [] true))
          (fun _ => HandleEvents_loop (spec_header true) (a_kernel [] true)
                      [EV_SET 5 EVFILT_READ 0 0 1 (Some 5)] true)
          a_world_closing
     = Aborted Dangling
  /\ exists w' out,
      HandleEvents (spec_header true) (a_kernel [] true)
        [a_wakeup_event; EV_SET 5 EVFILT_READ 0 0 1 (Some 5)] a_world_closing
      = Ok tt w' out
      /\ posted out = [(77, bit kInEvent); (77, bit kDestroyedEvent)].
Proof.
  split.
  { intros event p [<-|[<-|[]]]; simpl; intros [= <-]. vm_compute. eauto. }
  split; [vm_compute; reflexivity|].
  destruct (HandleEvents (spec_header true) (a_kernel [] true)
              [a_wakeup_event; EV_SET 5 EVFILT_READ 0 0 1 (Some 5)] a_world_closing)
    as [[] w' out|x] eqn:E.
  - exists w', out. split; [reflexivity|].
    vm_compute in E. injection E as _ <-. reflexivity.
  - vm_compute in E. discriminate.
Qed.

(** ** Draining the wake-up pipe *)

Lemma WakeupHandler_eq hdr os id0 dart_port0 data0 w :
  let m := {| id := id0; dart_port := dart_port0; msg_data := data0 |} in
  WakeupHandler hdr os id0 dart_port0 data0 w =
  if WriteToBlocking os (msg_bytes m) =? kInterruptMessageSize
  then Ok tt (set_interrupt_pipe (interrupt_pipe w ++ msg_bytes m) w) []
  else Aborted (Fatal "Interrupt message failure.").
Proof.
  cbv zeta. unfold WakeupHandler.
  change (kInterruptMessageSize <? PIPE_BUF) with true.
  unfold bind at 1. rewrite ASSERT_true. unfold bind, modify.
  destruct (WriteToBlocking os _ =? kInterruptMessageSize) eqn:E; cbn [negb].
  - apply Z.eqb_eq in E. rewrite E. unfold ret.
    rewrite take_ge; [reflexivity|].
    pose proof (msg_bytes_length {| id := id0; dart_port := dart_port0; msg_data := data0 |}).
    unfold kInterruptMessageSize in *. lia.
  - reflexivity.
Qed.

(** C5: a drain of the wake-up pipe makes one [read], which asks for
    [K * sizeof(InterruptMessage)] bytes with [K = MAX_MESSAGES >= 1] and gets
    at most that many.  The pipe holds whole messages, so the bytes read are
    a multiple of the message size (none, when the pipe is empty and [read]
    gives -1); every byte read belongs to a message that the drain applies,
    and what stays in the pipe is whole messages again.  Bytes that are not
    a multiple of the message size are never read, so no drain has the case
    to handle: a writer that could not put its whole message into the pipe
    aborts the process, and otherwise leaves whole messages in the pipe. *)
Theorem HandleInterruptFd_drain hdr os w :
  whole_messages (interrupt_pipe w) ->
  let K := kInterruptMessageSize in
  let count := K * kInterruptMessageSize in
  exists bytes msg w1,
    read_interrupt_pipe count w = Ok (bytes, msg) w1 [SysRead count]
    /\ 1 <= K
    /\ bytes <= count
    /\ (bytes = -1 /\ msg = [] \/ bytes = Z.of_nat (length msg))
    /\ (kInterruptMessageSize | Z.of_nat (length msg))
    /\ Z.of_nat (length msg) = (bytes ÷ kInterruptMessageSize) * kInterruptMessageSize
    /\ interrupt_pipe w = msg ++ interrupt_pipe w1
    /\ whole_messages (interrupt_pipe w1)
    /\ HandleInterruptFd hdr os w =
       bind (emit (SysRead count))
            (fun _ => for_each (seq 0 (Z.to_nat (bytes ÷ kInterruptMessageSize)))
                               (fun i => HandleInterruptMessage hdr os (msg_at msg i)))
            w1
    /\ (forall id0 dart_port0 data0,
          WakeupHandler hdr os id0 dart_port0 data0 w
            = Aborted (Fatal "Interrupt message failure.")
          \/ exists w',
               WakeupHandler hdr os id0 dart_port0 data0 w = Ok tt w' []
               /\ whole_messages (interrupt_pipe w')).
Proof.
  intros Hwhole. cbv zeta.
  assert (Hwr : forall id0 dart_port0 data0,
             WakeupHandler hdr os id0 dart_port0 data0 w
               = Aborted (Fatal "Interrupt message failure.")
             \/ exists w',
                  WakeupHandler hdr os id0 dart_port0 data0 w = Ok tt w' []
                  /\ whole_messages (interrupt_pipe w')).
  { intros id0 dart_port0 data0. rewrite WakeupHandler_eq.
    destruct (WriteToBlocking os _ =? kInterruptMessageSize); [right|left; reflexivity].
    eexists. split; [reflexivity|].
    unfold whole_messages in *. cbn [interrupt_pipe set_interrupt_pipe].
    rewrite length_app, Nat2Z.inj_add.
    apply Z.divide_add_r; [exact Hwhole|]. exists 1.
    rewrite msg_bytes_length. reflexivity. }
  unfold HandleInterruptFd, read_interrupt_pipe.
  change (kInterruptMessageSize * kInterruptMessageSize) with 576.
  destruct (interrupt_pipe w) as [|b pipe] eqn:Ep.
  - exists (-1), [], w. rewrite Ep.
    split; [reflexivity|]. split; [unfold kInterruptMessageSize; lia|].
    split; [lia|]. split; [left; auto|]. split; [exists 0; reflexivity|].
    split; [reflexivity|]. split; [reflexivity|]. split; [exact Hwhole|].
    split; [|exact Hwr].
    unfold bind. rewrite Ep. reflexivity.
  - destruct Hwhole as [k Hk]. unfold kInterruptMessageSize in Hk.
    exists (Z.of_nat (length (take (Z.to_nat 576) (b :: pipe)))),
           (take (Z.to_nat 576) (b :: pipe)),
           (set_interrupt_pipe (drop (Z.to_nat 576) (b :: pipe)) w).
    cbn [interrupt_pipe set_interrupt_pipe].
    assert (Hcases :
              (length (take (Z.to_nat 576) (b :: pipe)) = 576%nat
               /\ Z.of_nat (length (drop (Z.to_nat 576) (b :: pipe))) = 24 * (k - 24))
              \/ (Z.of_nat (length (take (Z.to_nat 576) (b :: pipe))) = k * 24
                  /\ length (drop (Z.to_nat 576) (b :: pipe)) = 0%nat)).
    { rewrite length_take, length_drop.
      destruct (Nat.le_gt_cases (Z.to_nat 576) (length (b :: pipe))) as [Hle|Hgt].
      - left. rewrite Nat.min_l by exact Hle. split; lia.
      - right. rewrite Nat.min_r by lia. split; lia. }
    split; [reflexivity|]. split; [unfold kInterruptMessageSize; lia|].
    split; [rewrite length_take; lia|]. split; [right; reflexivity|].
    split; [|split; [|split; [|split; [|split; [|exact Hwr]]]]].
    + unfold kInterruptMessageSize.
      destruct Hcases as [[-> _]|[-> _]]; [exists 24; reflexivity|exists k; reflexivity].
    + unfold kInterruptMessageSize.
      destruct Hcases as [[-> _]|[-> _]]; [reflexivity|].
      rewrite Z.quot_mul by lia. reflexivity.
    + symmetry. apply take_drop.
    + unfold whole_messages, kInterruptMessageSize.
      destruct Hcases as [[_ ->]|[_ ->]]; [exists (k - 24); lia|exists 0; reflexivity].
    + unfold bind. rewrite Ep. simpl fst. simpl snd. unfold emit. reflexivity.
Qed.

Lemma HandleInterruptFd_drain_witness :
  exists bytes msg w1,
    read_interrupt_pipe 576 a_world_with_a_whole_message
      = Ok (bytes, msg) w1 [SysRead 576]
    /\ bytes <= 576
    /\ (kInterruptMessageSize | Z.of_nat (length msg))
    /\ whole_messages (interrupt_pipe w1).
Proof.
  destruct (HandleInterruptFd_drain (spec_header true) (a_kernel [] true)
              a_world_with_a_whole_message)
    as (bytes & msg & w1 & E & _ & Hle & _ & Hdiv & _ & _ & Hw & _).
  - exists 1. reflexivity.
  - exists bytes, msg, w1. auto.
Defined.

Lemma read_interrupt_pipe_nonempty count w :
  interrupt_pipe w <> [] ->
  read_interrupt_pipe count w =
  Ok (Z.of_nat (length (take (Z.to_nat count) (interrupt_pipe w))),
      take (Z.to_nat count) (interrupt_pipe w))
     (set_interrupt_pipe (drop (Z.to_nat count) (interrupt_pipe w)) w)
     [SysRead count].
Proof.
  intros H. unfold read_interrupt_pipe.
  destruct (interrupt_pipe w); [congruence|reflexivity].
Qed.

Lemma set_interrupt_pipe_id w : set_interrupt_pipe (interrupt_pipe w) w = w.
Proof. destruct w; reflexivity. Qed.

(** A message sent while the pipe is empty is the one message the next
    drain applies. *)
Lemma SendData_delivered hdr os m w :
  interrupt_pipe w = [] ->
  WriteToBlocking os (msg_bytes m) = kInterruptMessageSize ->
  in_int64 (id m) -> in_int64 (dart_port m) -> in_int64 (msg_data m) ->
  bind (SendData hdr os (id m) (dart_port m) (msg_data m))
       (fun _ => HandleInterruptFd hdr os) w
  = bind (emit (SysRead (kInterruptMessageSize * kInterruptMessageSize)))
         (fun _ => HandleInterruptMessage hdr os m) w.
Proof.
  intros Hp Hw Hi Hpo Hd.
  assert (Hm : {| id := id m; dart_port := dart_port m; msg_data := msg_data m |} = m)
    by (destruct m; reflexivity).
  pose proof (msg_bytes_length m) as Hlen.
  assert (Hne : msg_bytes m <> []).
  { intros E. rewrite E in Hlen. discriminate Hlen. }
  unfold SendData, WakeupHandler. rewrite Hm, Hw.
  change (kInterruptMessageSize <? PIPE_BUF) with true.
  change (negb (kInterruptMessageSize =? kInterruptMessageSize)) with false.
  cbv iota.
  set (w1 := set_interrupt_pipe (msg_bytes m) w).
  assert (E1 : bind (ASSERT hdr "kInterruptMessageSize < PIPE_BUF" true)
                 (fun _ => bind (modify (fun w0 : World =>
                      set_interrupt_pipe
                        (interrupt_pipe w0 ++
                         take (Z.to_nat kInterruptMessageSize) (msg_bytes m)) w0))
                   (fun _ => ret tt)) w = Ok tt w1 []).
  { unfold bind. rewrite ASSERT_true. unfold modify, ret. simpl app.
    rewrite Hp, take_ge by lia. reflexivity. }
  rewrite (bind_Ok _ _ _ _ _ _ E1). simpl app.
  unfold HandleInterruptFd.
  assert (Er : read_interrupt_pipe (kInterruptMessageSize * kInterruptMessageSize) w1
               = Ok (kInterruptMessageSize, msg_bytes m) w
                    [SysRead (kInterruptMessageSize * kInterruptMessageSize)]).
  { rewrite read_interrupt_pipe_nonempty by exact Hne. unfold w1. simpl interrupt_pipe.
    rewrite take_ge, drop_ge by (unfold kInterruptMessageSize in *; lia).
    rewrite Hlen.
    change (set_interrupt_pipe [] (set_interrupt_pipe (msg_bytes m) w))
      with (set_interrupt_pipe [] w).
    rewrite <- Hp, set_interrupt_pipe_id. reflexivity. }
  rewrite (bind_Ok _ _ _ _ _ _ Er). simpl fst. simpl snd.
  change (Z.to_nat (kInterruptMessageSize ÷ kInterruptMessageSize)) with 1%nat.
  simpl seq. simpl for_each.
  rewrite <- (app_nil_r (msg_bytes m)) at 1.
  rewrite msg_at_msg_bytes by assumption.
  unfold bind, emit, ret.
  destruct (HandleInterruptMessage hdr os m w) as [a w' out|x]; [|reflexivity].
  rewrite app_nil_r. destruct a. reflexivity.
Qed.

(** The drain has no check of its own: were the pipe to hold the 24 bytes
    of a message and a stray byte, which no writer leaves there, the drain
    would read 25 bytes, apply the one whole message and return. *)
Example HandleInterruptFd_torn_message_no_abort :
  (exists msg w1,
      read_interrupt_pipe (kInterruptMessageSize * kInterruptMessageSize)
                          a_world_with_a_torn_message
      = Ok (25, msg) w1 [SysRead 576])
  /\ 25 mod kInterruptMessageSize <> 0
  /\ HandleInterruptFd (spec_header true) (a_kernel [] true) a_world_with_a_torn_message
     = Ok tt (set_timeout_queue [(55, 1000)] empty_world) [SysRead 576].
Proof.
  split; [eexists _, _; reflexivity|]. split; [vm_compute; discriminate|].
  vm_compute. reflexivity.
Qed.

(** ** The close command *)

Lemma set_socket_map_id w : set_socket_map (socket_map_ w) w = w.
Proof. destruct w; reflexivity. Qed.

Lemma set_tracked_id d b :
  tracked_by_kqueue d = b -> set_tracked_by_kqueue b d = d.
Proof. intros <-. destruct d; reflexivity. Qed.

Lemma on_di_Ok {A} p (c : M DescriptorInfo A) w d a d' out :
  socket_map_ w !! GetHashmapKeyFromFd p = Some d ->
  c d = Ok a d' out ->
  on_di p c w =
  Ok a (set_socket_map (<[GetHashmapKeyFromFd p := d']> (socket_map_ w)) w) out.
Proof. intros E H. unfold on_di. rewrite E, H. reflexivity. Qed.

Lemma on_di_get p w d :
  socket_map_ w !! GetHashmapKeyFromFd p = Some d ->
  on_di p get w = Ok d w [].
Proof.
  intros E. rewrite (on_di_Ok p get w d d d []) by (exact E || reflexivity).
  rewrite insert_id by exact E. rewrite set_socket_map_id. reflexivity.
Qed.

Section CloseCommand.

Variable hdr : Header.
Variable os : Collaborators.

Lemma CloseCommand_on_di_last port0 d :
  (tracked_by_kqueue d = true -> Mask d <> 0) ->
  Mask (without_port port0 d) = 0 ->
  CloseCommand_on_di hdr os port0 d =
  Ok 0 (set_tracked_by_kqueue false (without_port port0 d))
     (if tracked_by_kqueue d then delete_filters (fd d) else []).
Proof.
  intros Ht Hm.
  assert (E1 : (if negb (port0 =? ILLEGAL_PORT) then RemovePort port0 else ret tt) d
               = Ok tt (without_port port0 d) []).
  { unfold without_port. destruct (negb (port0 =? ILLEGAL_PORT)); reflexivity. }
  assert (Hfd : fd (without_port port0 d) = fd d).
  { unfold without_port. destruct (negb (port0 =? ILLEGAL_PORT)); reflexivity. }
  assert (Htr : tracked_by_kqueue (without_port port0 d) = tracked_by_kqueue d).
  { unfold without_port. destruct (negb (port0 =? ILLEGAL_PORT)); reflexivity. }
  unfold CloseCommand_on_di.
  rewrite bind_Ok with (a := d) (s1 := d) (out1 := []) by reflexivity.
  rewrite (bind_Ok _ _ _ _ _ _ E1).
  rewrite bind_Ok with (a := without_port port0 d) (s1 := without_port port0 d)
                       (out1 := []) by reflexivity.
  unfold bind. rewrite UpdateKQueueInstance_unfold, Hm. simpl (0 =? 0).
  rewrite andb_true_r.
  destruct (tracked_by_kqueue d) eqn:Etr.
  - assert (Ho : (Mask d =? 0) = false) by (apply Z.eqb_neq; auto).
    rewrite Ho, RemoveFromKqueue_tracked by congruence. rewrite Hfd. reflexivity.
  - destruct (Mask d =? 0).
    + rewrite set_tracked_id by congruence. reflexivity.
    + rewrite RemoveFromKqueue_untracked by congruence.
      rewrite set_tracked_id by congruence. reflexivity.
Qed.

Lemma without_port_fd port0 d : fd (without_port port0 d) = fd d.
Proof. unfold without_port. destruct (negb (port0 =? ILLEGAL_PORT)); reflexivity. Qed.

Lemma without_port_listening port0 d :
  IsListeningSocket (without_port port0 d) = IsListeningSocket d.
Proof. unfold without_port. destruct (negb (port0 =? ILLEGAL_PORT)); reflexivity. Qed.

Lemma HandleCloseCommand_last msg socket w so d :
  sockets w !! socket = Some so ->
  socket_map_ w !! GetHashmapKeyFromFd (fd d) = Some d ->
  (tracked_by_kqueue d = true -> Mask d <> 0) ->
  Mask (without_port (dart_port msg) d) = 0 ->
  let d' := set_tracked_by_kqueue false (without_port (dart_port msg) d) in
  let destroyed := negb (IsListeningSocket d) || CloseSafe os socket in
  HandleCloseCommand hdr os msg socket (fd d) w =
  Ok tt
     (set_sockets
        (<[socket := {| socket_fd := -1; isolate_port := isolate_port so;
                        ref_count := ref_count so |}]> (sockets w))
        (set_socket_map
           (if destroyed then delete (GetHashmapKeyFromFd (fd d)) (socket_map_ w)
            else <[GetHashmapKeyFromFd (fd d) := d']> (socket_map_ w)) w))
     ((if IS_SIGNAL_SOCKET hdr (msg_data msg)
       then [ClearSignalHandlerByFd (fd d) (isolate_port so)] else [])
      ++ (if tracked_by_kqueue d then delete_filters (fd d) else [])
      ++ (if destroyed then [DescriptorClose (fd d)] else [])
      ++ [SocketCloseFd socket; PostInt32 (dart_port msg) (bit kDestroyedEvent)]).
Proof.
  intros Es Ed Ht Hm d' destroyed.
  unfold HandleCloseCommand.
  rewrite bind_Ok with (a := so) (s1 := w) (out1 := [])
    by (unfold socket_deref; rewrite Es; reflexivity).
  rewrite (bind_Ok _ _ _ _ _ _ (on_di_get _ _ _ Ed)).
  assert (E1 : (if IS_SIGNAL_SOCKET hdr (msg_data msg)
                then emit (ClearSignalHandlerByFd (fd d) (isolate_port so))
                else ret tt) w
               = Ok tt w (if IS_SIGNAL_SOCKET hdr (msg_data msg)
                          then [ClearSignalHandlerByFd (fd d) (isolate_port so)] else [])).
  { destruct (IS_SIGNAL_SOCKET hdr (msg_data msg)); reflexivity. }
  rewrite (bind_Ok _ _ _ _ _ _ E1).
  rewrite (bind_Ok _ _ _ _ _ _
             (on_di_Ok _ _ _ _ _ _ _ Ed (CloseCommand_on_di_last _ _ Ht Hm))).
  fold d'.
  set (w1 := set_socket_map (<[GetHashmapKeyFromFd (fd d) := d']> (socket_map_ w)) w).
  assert (Ed1 : socket_map_ w1 !! GetHashmapKeyFromFd (fd d) = Some d')
    by (unfold w1; simpl; apply lookup_insert_eq).
  rewrite (bind_Ok _ _ _ _ _ _ (on_di_get _ _ _ Ed1)).
  assert (Hl : IsListeningSocket d' = IsListeningSocket d)
    by (apply without_port_listening).
  assert (Hf : fd d' = fd d) by (apply without_port_fd).
  assert (Esw : sockets w1 = sockets w) by reflexivity.
  rewrite Hl, Hf. simpl (0 =? 0). unfold destroyed.
  unfold bind, destroy_descriptor_info, Socket_CloseFd, bind, socket_deref, modify, emit.
  destruct (IsListeningSocket d); simpl negb; simpl orb.
  - destruct (CloseSafe os socket); rewrite ?ASSERT_true; simpl;
      rewrite Es; simpl; rewrite ?delete_insert_eq, ?app_nil_r; reflexivity.
  - rewrite ASSERT_true. simpl. rewrite Es. simpl.
    rewrite ?delete_insert_eq, ?app_nil_r. reflexivity.
Qed.

(** C1: a [kCloseCommand] that leaves the effective mask of its descriptor
    info at 0 deletes the kernel filters of the descriptor, and, unless the
    descriptor info is a listening socket that the registry does not report
    as safe to close, removes the descriptor info from the map and closes it;
    it closes the descriptor through the socket object and posts
    [1 << kDestroyedEvent] to the port of the message, once, and nothing
    else. *)
Theorem HandleInterruptMessage_close_last msg w so d :
  id msg <> kTimerId hdr ->
  id msg <> kShutdownId hdr ->
  Z.land (msg_data msg) (COMMAND_MASK hdr) <> 0 ->
  IS_COMMAND hdr (msg_data msg) kShutdownReadCommand = false ->
  IS_COMMAND hdr (msg_data msg) kShutdownWriteCommand = false ->
  IS_COMMAND hdr (msg_data msg) kCloseCommand = true ->
  sockets w !! id msg = Some so ->
  0 <= socket_fd so ->
  socket_map_ w !! GetHashmapKeyFromFd (socket_fd so) = Some d ->
  fd d = socket_fd so ->
  (tracked_by_kqueue d = true -> Mask d <> 0) ->
  Mask (without_port (dart_port msg) d) = 0 ->
  let fd0 := socket_fd so in
  let destroyed := negb (IsListeningSocket d) || CloseSafe os (id msg) in
  exists w' out,
    HandleInterruptMessage hdr os msg w = Ok tt w' out
    /\ out =
       (if IS_SIGNAL_SOCKET hdr (msg_data msg)
        then [ClearSignalHandlerByFd fd0 (isolate_port so)] else [])
       ++ (if tracked_by_kqueue d then delete_filters fd0 else [])
       ++ (if destroyed then [DescriptorClose fd0] else [])
       ++ [SocketCloseFd (id msg); PostInt32 (dart_port msg) (bit kDestroyedEvent)]
    /\ posted out = [(dart_port msg, bit kDestroyedEvent)]
    /\ socket_map_ w' =
       (if destroyed then delete (GetHashmapKeyFromFd fd0) (socket_map_ w)
        else <[GetHashmapKeyFromFd fd0 :=
                 set_tracked_by_kqueue false (without_port (dart_port msg) d)]>
               (socket_map_ w))
    /\ sockets w' !! id msg = closed_and_released so.
Proof.
  intros Ht Hs Hc Hr Hw Hcl Es Hfd Ed Hf Hi Hm fd0 destroyed.
  unfold HandleInterruptMessage.
  apply Z.eqb_neq in Ht, Hs. rewrite Ht, Hs.
  apply Z.eqb_neq in Hc. rewrite Hc. simpl negb.
  unfold bind at 1. rewrite ASSERT_true.
  rewrite bind_Ok with (a := so) (s1 := w) (out1 := [])
    by (unfold socket_deref; rewrite Es; reflexivity).
  assert (Hm1 : (socket_fd so =? -1) = false) by (apply Z.eqb_neq; lia).
  rewrite Hm1.
  assert (Ebody :
    bind (GetDescriptorInfo hdr (socket_fd so) (IS_LISTENING_SOCKET hdr (msg_data msg)))
         (fun d1 => HandleSocketCommand hdr os msg (id msg) d1 (socket_fd so)) w
    = HandleCloseCommand hdr os msg (id msg) (fd d) w).
  { rewrite (bind_Ok _ _ _ _ _ _
               (GetDescriptorInfo_existing hdr _ _ w d Hfd Ed Hf)).
    unfold HandleSocketCommand. rewrite Hr, Hw, Hcl, Hf.
    destruct (HandleCloseCommand hdr os msg (id msg) (socket_fd so) w); reflexivity. }
  rewrite <- Hf in Ed.
  rewrite (HandleCloseCommand_last msg (id msg) w so d Es Ed Hi Hm) in Ebody.
  rewrite (bind_Ok _ _ _ _ _ _ Ebody).
  unfold Socket_Release, bind, socket_deref, modify. simpl sockets.
  rewrite lookup_insert_eq. simpl.
  eexists _, _. split; [reflexivity|].
  fold destroyed. unfold fd0. rewrite <- Hf.
  split; [rewrite !app_nil_r; reflexivity|].
  split.
  { rewrite !app_nil_r. unfold posted, delete_filters.
    destruct (IS_SIGNAL_SOCKET hdr (msg_data msg)), (tracked_by_kqueue d), destroyed;
      reflexivity. }
  split.
  { destruct (ref_count so - 1 =? 0); reflexivity. }
  unfold closed_and_released.
  destruct (ref_count so - 1 =? 0); simpl.
  - apply lookup_delete_eq.
  - apply lookup_insert_eq.
Qed.

End CloseCommand.

Lemma HandleInterruptMessage_close_last_witness :
  exists w' out,
    HandleInterruptMessage (spec_header true) (a_kernel [] true)
                           a_close_message a_world_with_a_connection
      = Ok tt w' out
    /\ out = delete_filters 5
             ++ [DescriptorClose 5; SocketCloseFd 100; PostInt32 77 16]
    /\ posted out = [(77, 16)]
    /\ socket_map_ w' = delete 6 (<[6 := a_single_di]> ∅)
    /\ sockets w' !! 100 =
       Some {| socket_fd := -1; isolate_port := 9; ref_count := 1 |}.
Proof.
  apply (HandleInterruptMessage_close_last (spec_header true) (a_kernel [] true)
           a_close_message a_world_with_a_connection
           {| socket_fd := 5; isolate_port := 9; ref_count := 2 |} a_single_di).
  - vm_compute. discriminate.
  - vm_compute. discriminate.
  - vm_compute. discriminate.
  - reflexivity.
  - reflexivity.
  - reflexivity.
  - reflexivity.
  - simpl. lia.
  - reflexivity.
  - reflexivity.
  - intros _. vm_compute. discriminate.
  - reflexivity.
Defined.

(** ** Invariant I1 *)

Lemma hoare_ret {S A} (P : S -> Prop) (a : A) (Q : A -> S -> Prop) :
  (forall s, P s -> Q a s) -> hoare P (ret a) Q.
Proof. intros H s a' s' out Hp E. injection E as Ea Es _. subst. auto. Qed.

Lemma hoare_bind {S A B} (P : S -> Prop) (c : M S A) (Q : A -> S -> Prop)
      (k : A -> M S B) (R : B -> S -> Prop) :
  hoare P c Q -> (forall a, hoare (Q a) (k a) R) -> hoare P (bind c k) R.
Proof.
  intros Hc Hk s b s2 out Hp E.
  apply bind_inv in E. destruct E as (a & s1 & out1 & out2 & E1 & E2 & _).
  eapply Hk; [|exact E2]. eapply Hc; eauto.
Qed.

Lemma hoare_weaken {S A} (P P' : S -> Prop) (c : M S A) (Q Q' : A -> S -> Prop) :
  hoare P' c Q' -> (forall s, P s -> P' s) -> (forall a s, Q' a s -> Q a s) ->
  hoare P c Q.
Proof. intros H Hp Hq s a s' out Hs E. apply Hq. eapply H; eauto. Qed.

Lemma hoare_get {S} (P : S -> Prop) : hoare P get (fun a s => a = s /\ P s).
Proof. intros s a s' out Hp E. injection E as Ea Es _. subst. auto. Qed.

Lemma hoare_modify {S} (P Q : S -> Prop) (f : S -> S) :
  (forall s, P s -> Q (f s)) -> hoare P (modify f) (fun _ => Q).
Proof. intros H s a s' out Hp E. injection E as _ Es _. subst. auto. Qed.

Lemma hoare_put {S} (P Q : S -> Prop) (s0 : S) :
  Q s0 -> hoare P (put s0) (fun _ => Q).
Proof. intros H s a s' out Hp E. injection E as _ Es _. subst. auto. Qed.

Lemma hoare_emit {S} (P : S -> Prop) e : hoare P (emit e) (fun _ => P).
Proof. intros s a s' out Hp E. injection E as _ Es _. subst. auto. Qed.

Lemma hoare_abort {S A} (P : S -> Prop) x (Q : A -> S -> Prop) :
  hoare P (abort x) Q.
Proof. intros s a s' out _ E. discriminate. Qed.

Lemma hoare_ASSERT {S} hdr (P : S -> Prop) what c :
  hoare P (ASSERT hdr what c) (fun _ => P).
Proof.
  unfold ASSERT. destruct (assertions_enabled hdr && negb c).
  - apply hoare_abort.
  - apply hoare_ret. auto.
Qed.

Lemma hoare_if {S A} (b : bool) (P : S -> Prop) (c1 c2 : M S A) Q :
  hoare P c1 Q -> hoare P c2 Q -> hoare P (if b then c1 else c2) Q.
Proof. destruct b; auto. Qed.

Lemma hoare_for_each {S A} (P : S -> Prop) (l : list A) (body : A -> M S unit) :
  (forall x, hoare P (body x) (fun _ => P)) ->
  hoare P (for_each l body) (fun _ => P).
Proof.
  intros H. induction l as [|x l IH]; simpl.
  - apply hoare_ret. auto.
  - eapply hoare_bind; [apply H|]. intros []. exact IH.
Qed.

Lemma ASSERT_inv {S} hdr what c (s : S) a s' out :
  ASSERT hdr what c s = Ok a s' out -> s' = s.
Proof.
  unfold ASSERT. destruct (assertions_enabled hdr && negb c); [discriminate|].
  intros E. injection E as _ <- _. reflexivity.
Qed.

Lemma socket_deref_state s w a w' out : socket_deref s w = Ok a w' out -> w' = w.
Proof.
  unfold socket_deref. destruct (sockets w !! s); [|discriminate].
  intros E. injection E as _ <- _. reflexivity.
Qed.

Lemma GetEvents_state event d a d' out :
  GetEvents event d = Ok a d' out -> d' = d.
Proof.
  unfold GetEvents. rewrite bind_get_eq. unfold ret, UNREACHABLE, abort.
  destruct (IsListeningSocket d), (filter event =? EVFILT_READ),
    (filter event =? EVFILT_WRITE); intros E; try discriminate;
    injection E as _ <- _; reflexivity.
Qed.

Lemma EventHandlerEntry_exit_state hdr w a w' out :
  EventHandlerEntry_exit hdr w = Ok a w' out -> w' = w /\ out = [NotifyShutdownDone].
Proof.
  unfold EventHandlerEntry_exit. rewrite bind_get_eq. intros E.
  apply bind_inv in E. destruct E as (? & w1 & o1 & o2 & E1 & E2 & ->).
  assert (o1 = []) as ->.
  { unfold ASSERT in E1.
    destruct (assertions_enabled hdr && negb (Z.of_nat (size (sockets w)) =? 0));
      inversion E1; reflexivity. }
  apply ASSERT_inv in E1. subst w1. inversion E2; subst. split; reflexivity.
Qed.

Lemma EventHandlerEntry_timeout_state hdr w a w' out :
  EventHandlerEntry_timeout hdr w = Ok a w' out -> w' = w.
Proof.
  unfold EventHandlerEntry_timeout, GetTimeout. intros E.
  apply bind_inv in E. destruct E as (millis & w0 & ? & ? & E0 & E & _).
  rewrite bind_get_eq in E0.
  assert (w0 = w) as ->.
  { destruct (negb (HasTimeout (timeout_queue_ w))); injection E0 as _ <- _; reflexivity. }
  apply bind_inv in E. destruct E as (? & w1 & ? & ? & E1 & E & _).
  apply ASSERT_inv in E1. subst w1.
  apply bind_inv in E. destruct E as (? & w2 & ? & ? & E2 & E & _).
  apply ASSERT_inv in E2. subst w2.
  destruct (0 <=? (if kMaxInt32 <? millis then kMaxInt32 else millis));
    injection E as _ <- _; reflexivity.
Qed.

Section InvariantI1.

Variable hdr : Header.
Variable os : Collaborators.

Lemma AddToKqueue_I1 :
  hoare (fun d => tracked_by_kqueue d = false /\ Mask d <> 0)
        (AddToKqueue hdr os) (fun _ => I1_di).
Proof.
  intros d a d' out [Ht Hm] E.
  rewrite (AddToKqueue_untracked hdr os d Ht Hm) in E.
  destruct (kevent_status os (add_changes d) =? -1);
    injection E as _ <- _; unfold I1_di.
  - rewrite Mask_cleared. simpl. rewrite Ht. split; [discriminate|congruence].
  - rewrite Mask_set_tracked. simpl. tauto.
Qed.

Lemma RemoveFromKqueue_untracks :
  hoare (fun _ => True) RemoveFromKqueue
        (fun _ d' => tracked_by_kqueue d' = false).
Proof.
  intros d a d' out _ E. destruct (tracked_by_kqueue d) eqn:Ht.
  - rewrite RemoveFromKqueue_tracked in E by exact Ht. injection E as _ <- _.
    reflexivity.
  - rewrite RemoveFromKqueue_untracked in E by exact Ht. injection E as _ <- _.
    exact Ht.
Qed.

Lemma RemoveFromKqueue_Mask :
  forall d a d' out, RemoveFromKqueue d = Ok a d' out -> Mask d' = Mask d.
Proof.
  intros d a d' out E. destruct (tracked_by_kqueue d) eqn:Ht.
  - rewrite RemoveFromKqueue_tracked in E by exact Ht. injection E as _ <- _.
    reflexivity.
  - rewrite RemoveFromKqueue_untracked in E by exact Ht. injection E as _ <- _.
    reflexivity.
Qed.

(** The update re-establishes I1 whenever the registration agreed with the
    old mask; this covers the registration the kernel rejects. *)
Lemma UpdateKQueueInstance_I1 old_mask :
  hoare (fun d => tracked_by_kqueue d = true <-> old_mask <> 0)
        (UpdateKQueueInstance hdr os old_mask) (fun _ => I1_di).
Proof.
  intros d a d' out Hpre E. rewrite UpdateKQueueInstance_unfold in E.
  destruct (old_mask =? 0) eqn:Eo; [apply Z.eqb_eq in Eo|apply Z.eqb_neq in Eo];
    (destruct (Mask d =? 0) eqn:En; [apply Z.eqb_eq in En|apply Z.eqb_neq in En]);
    simpl in E.
  - injection E as _ <- _. unfold I1_di. tauto.
  - eapply AddToKqueue_I1; [|exact E]. split; [|exact En].
    destruct (tracked_by_kqueue d); [|reflexivity]. exfalso. tauto.
  - pose proof (RemoveFromKqueue_untracks d a d' out I E) as Hu.
    pose proof (RemoveFromKqueue_Mask d a d' out E) as Hk.
    unfold I1_di. rewrite Hu, Hk, En. split; [discriminate|congruence].
  - destruct (old_mask =? Mask d) eqn:Eq.
    + injection E as _ <- _. unfold I1_di. tauto.
    + apply bind_inv in E. destruct E as (? & d0 & ? & ? & E0 & E & _).
      assert (d0 = d) as ->.
      { unfold ASSERT in E0.
        destruct (assertions_enabled hdr && negb (negb (IsListeningSocket d)));
          [discriminate|]. injection E0 as _ <- _. reflexivity. }
      apply bind_inv in E. destruct E as (? & d1 & ? & ? & E1 & E2 & _).
      eapply AddToKqueue_I1; [|exact E2]. split.
      * eapply RemoveFromKqueue_untracks; [exact I|exact E1].
      * rewrite (RemoveFromKqueue_Mask _ _ _ _ E1). exact En.
Qed.

(** An operation of the descriptor info that leaves the registration flag
    alone, followed by the update against the mask from before it. *)
Lemma update_after_I1 {A} (c : M DescriptorInfo A) d :
  I1_di d ->
  hoare (eq d) c (fun _ d' => tracked_by_kqueue d' = tracked_by_kqueue d) ->
  hoare (eq d) (bind c (fun _ => UpdateKQueueInstance hdr os (Mask d)))
        (fun _ => I1_di).
Proof.
  intros Hi Hc. eapply hoare_bind; [exact Hc|]. intros ?.
  eapply hoare_weaken; [apply UpdateKQueueInstance_I1| |auto].
  intros d' Ht. cbv beta in Ht |- *. rewrite Ht. exact Hi.
Qed.

Lemma NextNotifyDartPort_tracked events_ready d :
  hoare (eq d) (NextNotifyDartPort events_ready)
        (fun _ d' => tracked_by_kqueue d' = tracked_by_kqueue d).
Proof.
  intros d0 a d' out -> E. unfold NextNotifyDartPort in E.
  destruct (kind d0).
  - injection E as _ <- _. reflexivity.
  - destruct (next_eligible events_ready (subscribers d0)) as [[[pre e] post]|];
      injection E as _ <- _; reflexivity.
Qed.

Lemma ReturnTokenCommand_I1 msg :
  hoare I1_di (ReturnTokenCommand_on_di hdr os msg) (fun _ => I1_di).
Proof.
  intros d a d' out Hi E. unfold ReturnTokenCommand_on_di in E.
  rewrite bind_get_eq in E.
  eapply (update_after_I1 _ d Hi); [|reflexivity|exact E].
  intros s0 a0 s0' out0 <- E0. injection E0 as _ <- _. reflexivity.
Qed.

Lemma SetEventMaskCommand_I1 msg :
  hoare I1_di (SetEventMaskCommand_on_di hdr os msg) (fun _ => I1_di).
Proof.
  unfold SetEventMaskCommand_on_di.
  eapply hoare_bind; [apply hoare_ASSERT|]. intros [].
  intros d a d' out Hi E. rewrite bind_get_eq in E.
  eapply (update_after_I1 _ d Hi); [|reflexivity|exact E].
  intros s0 a0 s0' out0 <- E0. injection E0 as _ <- _. reflexivity.
Qed.

Lemma CloseCommand_I1 port0 :
  hoare I1_di (CloseCommand_on_di hdr os port0) (fun _ => I1_di).
Proof.
  intros d a d' out Hi E. unfold CloseCommand_on_di in E.
  rewrite bind_get_eq in E.
  apply bind_inv in E. destruct E as (? & d1 & ? & ? & E1 & E & _).
  assert (Ht : tracked_by_kqueue d1 = tracked_by_kqueue d).
  { destruct (negb (port0 =? ILLEGAL_PORT)); injection E1 as _ <- _; reflexivity. }
  rewrite bind_get_eq in E.
  apply bind_inv in E. destruct E as (? & d2 & ? & ? & E2 & E3 & _).
  injection E3 as _ <- _.
  eapply UpdateKQueueInstance_I1; [|exact E2]. simpl. rewrite Ht. exact Hi.
Qed.

Lemma HandleDescriptorEvent_I1 event :
  hoare I1_di (HandleDescriptorEvent hdr os event) (fun _ => I1_di).
Proof.
  intros d a d' out Hi E. unfold HandleDescriptorEvent in E.
  rewrite bind_get_eq in E.
  apply bind_inv in E. destruct E as (m & d0 & ? & ? & E0 & E & _).
  apply GetEvents_state in E0. subst d0.
  destruct (negb (Z.land m (bit kErrorEvent) =? 0)).
  - eapply (update_after_I1 _ d Hi); [|reflexivity|exact E].
    intros s0 a0 s0' out0 <- E0. injection E0 as _ <- _. reflexivity.
  - destruct (negb (m =? 0)).
    + apply bind_inv in E. destruct E as (p & d1 & ? & ? & E1 & E & _).
      pose proof (NextNotifyDartPort_tracked m d d p d1 _ eq_refl E1) as Ht.
      apply bind_inv in E. destruct E as (? & d2 & ? & ? & E2 & E & _).
      assert (d2 = d1) as ->.
      { unfold ASSERT in E2.
        destruct (assertions_enabled hdr && negb (negb (p =? 0)));
          [discriminate|]. injection E2 as _ <- _. reflexivity. }
      apply bind_inv in E. destruct E as (? & d3 & ? & ? & E3 & E4 & _).
      injection E4 as _ <- _.
      eapply UpdateKQueueInstance_I1; [|exact E3]. simpl. rewrite Ht. exact Hi.
    + injection E as _ <- _. exact Hi.
Qed.

Lemma I1_new_descriptor_info fd0 (is_listening : bool) :
  I1_di (if is_listening then DescriptorInfoMultiple fd0 else DescriptorInfoSingle fd0).
Proof.
  destruct is_listening; split; simpl; intros H; try discriminate;
    exfalso; apply H; reflexivity.
Qed.

End InvariantI1.

(** *** Properties that only depend on the descriptor and the kind *)

Section DescriptorFrame.

Variable hdr : Header.
Variable os : Collaborators.
Variable F : DescriptorInfo -> Prop.
Hypothesis F_subscribers : forall l d, F d -> F (set_subscribers l d).
Hypothesis F_tracked : forall b d, F d -> F (set_tracked_by_kqueue b d).

Lemma NotifyAllDartPorts_frame events :
  hoare F (NotifyAllDartPorts events) (fun _ => F).
Proof. intros d a d' out Hd E. injection E as _ <- _. apply F_subscribers, Hd. Qed.

Lemma NextNotifyDartPort_frame events_ready :
  hoare F (NextNotifyDartPort events_ready) (fun _ => F).
Proof.
  intros d a d' out Hd E. unfold NextNotifyDartPort in E. destruct (kind d).
  - injection E as _ <- _. exact Hd.
  - destruct (next_eligible events_ready (subscribers d)) as [[[pre e] post]|];
      injection E as _ <- _; [apply F_subscribers|]; exact Hd.
Qed.

Lemma RemoveFromKqueue_frame : hoare F RemoveFromKqueue (fun _ => F).
Proof.
  intros d a d' out Hd E. destruct (tracked_by_kqueue d) eqn:Ht.
  - rewrite RemoveFromKqueue_tracked in E by exact Ht. injection E as _ <- _.
    apply F_tracked, Hd.
  - rewrite RemoveFromKqueue_untracked in E by exact Ht. injection E as _ <- _.
    exact Hd.
Qed.

Lemma AddToKqueue_frame : hoare F (AddToKqueue hdr os) (fun _ => F).
Proof.
  unfold AddToKqueue. intros d a d' out Hd E. rewrite bind_get_eq in E.
  revert E. generalize (kevent_status os (add_changes d) =? -1). intros rejected E.
  repeat (apply bind_inv in E; destruct E as (? & ? & ? & ? & E0 & E & _);
          apply ASSERT_inv in E0; subst).
  apply bind_inv in E. destruct E as (? & ? & ? & ? & E0 & E & _).
  injection E0 as _ <- _.
  destruct rejected; injection E as _ <- _; [apply F_subscribers|apply F_tracked];
    exact Hd.
Qed.

Lemma UpdateKQueueInstance_frame old_mask :
  hoare F (UpdateKQueueInstance hdr os old_mask) (fun _ => F).
Proof.
  intros d a d' out Hd E. rewrite UpdateKQueueInstance_unfold in E.
  destruct ((old_mask =? 0) && (Mask d =? 0)); [injection E as _ <- _; exact Hd|].
  destruct (old_mask =? 0); [eapply AddToKqueue_frame; eauto|].
  destruct (Mask d =? 0); [eapply RemoveFromKqueue_frame; eauto|].
  destruct (old_mask =? Mask d); [injection E as _ <- _; exact Hd|].
  apply bind_inv in E. destruct E as (? & ? & ? & ? & E0 & E & _).
  apply ASSERT_inv in E0. subst.
  apply bind_inv in E. destruct E as (? & d1 & ? & ? & E1 & E2 & _).
  eapply AddToKqueue_frame; [|exact E2]. eapply RemoveFromKqueue_frame; eauto.
Qed.

Lemma CloseCommand_frame port0 :
  hoare F (CloseCommand_on_di hdr os port0) (fun _ => F).
Proof.
  unfold CloseCommand_on_di.
  eapply hoare_bind with (Q := fun _ => F).
  { intros d a d' out Hd E. injection E as _ <- _. exact Hd. }
  intros d. eapply hoare_bind with (Q := fun _ => F).
  { apply hoare_if; [|apply hoare_ret; auto].
    apply hoare_modify. intros d0 Hd. apply F_subscribers, Hd. }
  intros []. eapply hoare_bind with (Q := fun _ => F).
  { intros d0 a d' out Hd E. injection E as _ <- _. exact Hd. }
  intros d1. eapply hoare_bind with (Q := fun _ => F);
    [apply UpdateKQueueInstance_frame|]. intros []. apply hoare_ret. auto.
Qed.

Lemma ReturnTokenCommand_frame msg :
  hoare F (ReturnTokenCommand_on_di hdr os msg) (fun _ => F).
Proof.
  unfold ReturnTokenCommand_on_di.
  eapply hoare_bind with (Q := fun _ => F).
  { intros d a d' out Hd E. injection E as _ <- _. exact Hd. }
  intros d. eapply hoare_bind with (Q := fun _ => F).
  { apply hoare_modify. intros d0 Hd. apply F_subscribers, Hd. }
  intros []. apply UpdateKQueueInstance_frame.
Qed.

Lemma SetEventMaskCommand_frame msg :
  hoare F (SetEventMaskCommand_on_di hdr os msg) (fun _ => F).
Proof.
  unfold SetEventMaskCommand_on_di.
  eapply hoare_bind with (Q := fun _ => F); [apply hoare_ASSERT|]. intros [].
  eapply hoare_bind with (Q := fun _ => F).
  { intros d a d' out Hd E. injection E as _ <- _. exact Hd. }
  intros d. eapply hoare_bind with (Q := fun _ => F).
  { apply hoare_modify. intros d0 Hd. apply F_subscribers, Hd. }
  intros []. apply UpdateKQueueInstance_frame.
Qed.

Lemma HandleDescriptorEvent_frame event :
  hoare F (HandleDescriptorEvent hdr os event) (fun _ => F).
Proof.
  unfold HandleDescriptorEvent.
  eapply hoare_bind with (Q := fun _ => F).
  { intros d a d' out Hd E. injection E as _ <- _. exact Hd. }
  intros d. eapply hoare_bind with (Q := fun _ => F).
  { intros d0 a d' out Hd E. apply GetEvents_state in E. subst. exact Hd. }
  intros m. repeat apply hoare_if.
  - eapply hoare_bind with (Q := fun _ => F); [apply NotifyAllDartPorts_frame|].
    intros []. apply UpdateKQueueInstance_frame.
  - eapply hoare_bind with (Q := fun _ => F); [apply NextNotifyDartPort_frame|].
    intros p. eapply hoare_bind with (Q := fun _ => F); [apply hoare_ASSERT|].
    intros []. eapply hoare_bind with (Q := fun _ => F);
      [apply UpdateKQueueInstance_frame|]. intros []. apply hoare_emit.
  - apply hoare_ret. auto.
Qed.

End DescriptorFrame.

(** *** Invariants of the worker loop

    A property [P] of the entries of the map that the four operations on a
    descriptor info keep, a property [T] of the timer queue that timer
    messages with [Msg] keep, and a property [R] of the pipe that a read
    keeps, hold after every operation of the worker. *)

Section WorkerInvariant.

Variable hdr : Header.
Variable os : Collaborators.
Variable P : Z -> DescriptorInfo -> Prop.
Variable T : list (Z * Z) -> Prop.
Variable R : list byte -> Prop.
Variable Msg : InterruptMessage -> Prop.

Hypothesis P_new : forall fd0 (is_listening : bool),
  P (GetHashmapKeyFromFd fd0)
    (if is_listening then DescriptorInfoMultiple fd0 else DescriptorInfoSingle fd0).
Hypothesis P_close : forall k port0,
  hoare (P k) (CloseCommand_on_di hdr os port0) (fun _ => P k).
Hypothesis P_return : forall k msg,
  hoare (P k) (ReturnTokenCommand_on_di hdr os msg) (fun _ => P k).
Hypothesis P_set : forall k msg,
  hoare (P k) (SetEventMaskCommand_on_di hdr os msg) (fun _ => P k).
Hypothesis P_event : forall k event,
  hoare (P k) (HandleDescriptorEvent hdr os event) (fun _ => P k).
Hypothesis T_update : forall msg q,
  Msg msg -> T q -> T (UpdateTimeout (dart_port msg) (msg_data msg) q).
Hypothesis T_remove : forall q, T q -> T (RemoveCurrent q).
Hypothesis Msg_decoded : forall buf i, Msg (msg_at buf i).
Hypothesis R_read : forall pipe,
  R pipe ->
  R (drop (Z.to_nat (kInterruptMessageSize * kInterruptMessageSize)) pipe).

Local Notation "'Inv'" := (world_inv P T R).

Lemma inv_same w w' :
  socket_map_ w' = socket_map_ w -> timeout_queue_ w' = timeout_queue_ w ->
  interrupt_pipe w' = interrupt_pipe w ->
  Inv w -> Inv w'.
Proof.
  intros Em Eq Ep (Hm & Ht & Hr). split; [|rewrite Eq, Ep; auto].
  intros k d. rewrite Em. apply Hm.
Qed.

Lemma inv_insert k d w :
  P k d -> Inv w -> Inv (set_socket_map (<[k := d]> (socket_map_ w)) w).
Proof.
  intros Hd [Hm Ht]. split; [|exact Ht].
  intros k' d'. simpl. rewrite lookup_insert_Some.
  intros [[<- <-]|[_ E]]; [exact Hd|]. eapply Hm. exact E.
Qed.

Lemma inv_delete k w :
  Inv w -> Inv (set_socket_map (delete k (socket_map_ w)) w).
Proof.
  intros [Hm Ht]. split; [|exact Ht].
  intros k' d'. simpl. rewrite lookup_delete_Some.
  intros [_ E]. eapply Hm. exact E.
Qed.

Lemma on_di_inv {A} p (c : M DescriptorInfo A) :
  hoare (P (GetHashmapKeyFromFd p)) c (fun _ => P (GetHashmapKeyFromFd p)) ->
  hoare Inv (on_di p c) (fun _ => Inv).
Proof.
  intros Hc w a w' out Hw E. unfold on_di in E.
  destruct (socket_map_ w !! GetHashmapKeyFromFd p) as [d|] eqn:Ed; [|discriminate].
  destruct (c d) as [a0 d' out0|x] eqn:Ec; [|discriminate].
  injection E as _ <- _. apply inv_insert; [|exact Hw].
  eapply Hc; [|exact Ec]. eapply (proj1 Hw). exact Ed.
Qed.

Lemma on_di_get_inv p : hoare Inv (on_di p get) (fun _ => Inv).
Proof.
  apply on_di_inv. intros d a d' out Hd E. injection E as _ <- _. exact Hd.
Qed.

Lemma GetDescriptorInfo_inv fd0 is_listening :
  hoare Inv (GetDescriptorInfo hdr fd0 is_listening) (fun _ => Inv).
Proof.
  intros w a w' out Hw E. unfold GetDescriptorInfo in E.
  apply bind_inv in E. destruct E as (? & w0 & ? & ? & E0 & E & _).
  apply ASSERT_inv in E0. subst w0. rewrite bind_get_eq in E.
  apply bind_inv in E. destruct E as (d & w1 & ? & ? & E1 & E & _).
  apply bind_inv in E. destruct E as (? & w2 & ? & ? & E2 & E3 & _).
  apply ASSERT_inv in E2. subst w2. injection E3 as _ <- _.
  destruct (socket_map_ w !! GetHashmapKeyFromFd fd0).
  - injection E1 as _ <- _. exact Hw.
  - apply bind_inv in E1. destruct E1 as (? & w3 & ? & ? & E4 & E5 & _).
    unfold put in E4. injection E4 as _ Hw3 _. subst w3.
    injection E5 as _ <- _.
    apply inv_insert; [apply P_new|exact Hw].
Qed.

Lemma socket_deref_inv s : hoare Inv (socket_deref s) (fun _ => Inv).
Proof. intros w a w' out Hw E. apply socket_deref_state in E. subst. exact Hw. Qed.

Lemma Socket_CloseFd_inv s : hoare Inv (Socket_CloseFd s) (fun _ => Inv).
Proof.
  unfold Socket_CloseFd.
  eapply hoare_bind with (Q := fun _ => Inv); [apply socket_deref_inv|]. intros so.
  eapply hoare_bind with (Q := fun _ => Inv); [|intros []; apply hoare_emit].
  apply hoare_modify. intros w Hw. eapply inv_same; [| | |exact Hw]; reflexivity.
Qed.

Lemma Socket_Release_inv s : hoare Inv (Socket_Release s) (fun _ => Inv).
Proof.
  unfold Socket_Release.
  eapply hoare_bind with (Q := fun _ => Inv); [apply socket_deref_inv|]. intros so.
  apply hoare_modify. intros w Hw. eapply inv_same; [| | |exact Hw];
    destruct (ref_count so - 1 =? 0); reflexivity.
Qed.

Lemma destroy_descriptor_info_inv fd0 :
  hoare Inv (destroy_descriptor_info fd0) (fun _ => Inv).
Proof.
  unfold destroy_descriptor_info.
  eapply hoare_bind with (Q := fun _ => Inv); [|intros []; apply hoare_emit].
  apply hoare_modify. intros w Hw. apply inv_delete. exact Hw.
Qed.

Lemma HandleCloseCommand_inv msg socket di :
  hoare Inv (HandleCloseCommand hdr os msg socket di) (fun _ => Inv).
Proof.
  unfold HandleCloseCommand.
  eapply hoare_bind with (Q := fun _ => Inv); [apply socket_deref_inv|]. intros so.
  eapply hoare_bind with (Q := fun _ => Inv); [apply on_di_get_inv|]. intros d0.
  eapply hoare_bind with (Q := fun _ => Inv);
    [apply hoare_if; [apply hoare_emit|apply hoare_ret; auto]|].
  intros [].
  eapply hoare_bind with (Q := fun _ => Inv); [apply on_di_inv, P_close|].
  intros new_mask.
  eapply hoare_bind with (Q := fun _ => Inv); [apply on_di_get_inv|]. intros d.
  eapply hoare_bind with (Q := fun _ => Inv); [|intros []; apply hoare_emit].
  apply hoare_if.
  - eapply hoare_bind with (Q := fun _ => Inv); [|intros []; apply Socket_CloseFd_inv].
    apply hoare_if; [|apply hoare_ret; auto].
    eapply hoare_bind with (Q := fun _ => Inv); [apply hoare_ASSERT|]. intros [].
    apply destroy_descriptor_info_inv.
  - eapply hoare_bind with (Q := fun _ => Inv); [apply hoare_ASSERT|]. intros [].
    eapply hoare_bind with (Q := fun _ => Inv); [apply destroy_descriptor_info_inv|].
    intros []. apply Socket_CloseFd_inv.
Qed.

Lemma HandleSocketCommand_inv msg socket d di :
  hoare Inv (HandleSocketCommand hdr os msg socket d di) (fun _ => Inv).
Proof.
  unfold HandleSocketCommand.
  repeat apply hoare_if.
  - eapply hoare_bind with (Q := fun _ => Inv); [apply hoare_ASSERT|]. intros [].
    apply hoare_emit.
  - eapply hoare_bind with (Q := fun _ => Inv); [apply hoare_ASSERT|]. intros [].
    apply hoare_emit.
  - apply HandleCloseCommand_inv.
  - apply on_di_inv, P_return.
  - apply on_di_inv, P_set.
  - apply hoare_abort.
Qed.

Lemma HandleInterruptMessage_inv msg :
  Msg msg -> hoare Inv (HandleInterruptMessage hdr os msg) (fun _ => Inv).
Proof.
  intros Hmsg. unfold HandleInterruptMessage.
  repeat apply hoare_if.
  - apply hoare_modify. intros w (Hm & Ht & Hr). split; [exact Hm|].
    split; [|exact Hr]. simpl. apply T_update; assumption.
  - apply hoare_modify. intros w Hw. eapply inv_same; [| | |exact Hw]; reflexivity.
  - eapply hoare_bind with (Q := fun _ => Inv); [apply hoare_ASSERT|]. intros [].
    eapply hoare_bind with (Q := fun _ => Inv); [apply socket_deref_inv|]. intros so.
    eapply hoare_bind with (Q := fun _ => Inv); [|intros []; apply Socket_Release_inv].
    apply hoare_if; [apply hoare_ret; auto|].
    eapply hoare_bind with (Q := fun _ => Inv); [apply GetDescriptorInfo_inv|].
    intros d. apply HandleSocketCommand_inv.
Qed.

Lemma HandleInterruptFd_inv : hoare Inv (HandleInterruptFd hdr os) (fun _ => Inv).
Proof.
  unfold HandleInterruptFd.
  eapply hoare_bind with (Q := fun _ => Inv).
  - intros w a w' out Hw E. unfold read_interrupt_pipe in E.
    destruct Hw as (Hm & Ht & Hr).
    destruct (interrupt_pipe w) as [|b pipe] eqn:Ep; injection E as _ <- _;
      (split; [exact Hm|]; split; [exact Ht|]).
    + rewrite Ep. exact Hr.
    + apply (R_read (b :: pipe)). exact Hr.
  - intros r. apply hoare_for_each. intros i.
    apply HandleInterruptMessage_inv, Msg_decoded.
Qed.

Lemma HandleEvents_loop_inv events seen :
  hoare Inv (HandleEvents_loop hdr os events seen) (fun _ => Inv).
Proof.
  revert seen. induction events as [|event rest IH]; intros seen; simpl.
  - apply hoare_ret. auto.
  - apply hoare_if; [apply hoare_abort|].
    destruct (udata event) as [di|]; [|apply IH].
    eapply hoare_bind with (Q := fun _ => Inv); [apply on_di_inv, P_event|].
    intros []. apply IH.
Qed.

Lemma HandleEvents_inv events : hoare Inv (HandleEvents hdr os events) (fun _ => Inv).
Proof.
  unfold HandleEvents.
  eapply hoare_bind with (Q := fun _ => Inv); [apply HandleEvents_loop_inv|].
  intros seen. apply hoare_if; [apply HandleInterruptFd_inv|apply hoare_ret; auto].
Qed.

Lemma HandleTimeout_inv : hoare Inv HandleTimeout (fun _ => Inv).
Proof.
  unfold HandleTimeout. intros w a w' out Hw E. rewrite bind_get_eq in E.
  destruct (HasTimeout (timeout_queue_ w));
    [destruct (wrap64 (CurrentTimeout (timeout_queue_ w) - clock w) <=? 0)|].
  - apply bind_inv in E. destruct E as (? & w1 & ? & ? & E1 & E2 & _).
    injection E1 as _ <- _. injection E2 as _ <- _.
    destruct Hw as (Hm & Ht & Hr). split; [exact Hm|].
    split; [|exact Hr]. simpl. apply T_remove, Ht.
  - injection E as _ <- _. exact Hw.
  - injection E as _ <- _. exact Hw.
Qed.

Lemma EventHandlerEntry_iteration_inv r :
  hoare Inv (EventHandlerEntry_iteration hdr os r) (fun _ => Inv).
Proof.
  unfold EventHandlerEntry_iteration, EventHandlerEntry_wait.
  eapply hoare_bind with (Q := fun _ => Inv).
  { intros w a w' out Hw E. apply EventHandlerEntry_timeout_state in E.
    subst. exact Hw. }
  intros timeout.
  eapply hoare_bind with (Q := fun _ => Inv); [apply hoare_emit|]. intros [].
  eapply hoare_bind with (Q := fun _ => Inv).
  { apply hoare_modify. intros w Hw. eapply inv_same; [| | |exact Hw]; reflexivity. }
  intros [].
  destruct (returned_events r) as [events|]; [|apply hoare_abort].
  eapply hoare_bind with (Q := fun _ => Inv); [apply HandleTimeout_inv|]. intros [].
  apply HandleEvents_inv.
Qed.

Lemma EventHandlerEntry_inv script :
  hoare Inv (EventHandlerEntry hdr os script) (fun _ => Inv).
Proof.
  induction script as [|r script IH]; simpl;
    intros w a w' out Hw E; rewrite bind_get_eq in E;
    destruct (shutdown_ w).
  - apply EventHandlerEntry_exit_state in E. destruct E as [-> _]. exact Hw.
  - injection E as _ <- _. exact Hw.
  - apply EventHandlerEntry_exit_state in E. destruct E as [-> _]. exact Hw.
  - apply bind_inv in E. destruct E as (? & w1 & ? & ? & E1 & E2 & _).
    eapply IH; [|exact E2].
    eapply EventHandlerEntry_iteration_inv; [exact Hw|exact E1].
Qed.

End WorkerInvariant.

(** *** The standing assumptions are invariants

    The descriptor infos sit under the key of their descriptor, the timers
    are positive [int64_t] deadlines, and the pipe holds whole messages:
    this is so in the state the constructor leaves, and stays so. *)

Lemma wrap64_range x : - 2 ^ 63 <= wrap64 x < 2 ^ 63.
Proof.
  unfold wrap64, wrap. change (64 - 1) with 63.
  pose proof (Z.mod_pos_bound (x + 2 ^ 63) (2 ^ 64) ltac:(lia)). lia.
Qed.

Lemma Forall_filter_keep {A} (Q : A -> Prop) f (l : list A) :
  Forall Q l -> Forall Q (List.filter f l).
Proof.
  induction 1 as [|x l Hx Hl IH]; simpl; [constructor|].
  destruct (f x); [constructor|]; assumption.
Qed.

Lemma UpdateTimeout_in_range p deadline q :
  deadline < 2 ^ 63 ->
  Forall (fun e => 0 < snd e < 2 ^ 63) q ->
  Forall (fun e => 0 < snd e < 2 ^ 63) (UpdateTimeout p deadline q).
Proof.
  intros Hd Hq. unfold UpdateTimeout.
  destruct (0 <? deadline) eqn:E.
  - apply Forall_app. split; [apply Forall_filter_keep, Hq|].
    constructor; [|constructor]. apply Z.ltb_lt in E. simpl. lia.
  - apply Forall_filter_keep, Hq.
Qed.

Lemma whole_messages_drop pipe :
  whole_messages pipe ->
  whole_messages (drop (Z.to_nat (kInterruptMessageSize * kInterruptMessageSize)) pipe).
Proof.
  unfold whole_messages, kInterruptMessageSize. intros [k Hk].
  rewrite length_drop.
  destruct (Nat.le_gt_cases (Z.to_nat (24 * 24)) (length pipe)) as [Hle|Hgt].
  - exists (k - 24). lia.
  - exists 0. lia.
Qed.

Section StandingInvariants.

Variable hdr : Header.
Variable os : Collaborators.

Lemma standing_empty : standing empty_world.
Proof.
  split; [intros k d H; simpl in H; rewrite lookup_empty in H; discriminate|].
  split; [constructor|]. exists 0. reflexivity.
Qed.

Lemma EventHandlerEntry_standing script :
  hoare standing (EventHandlerEntry hdr os script) (fun _ => standing).
Proof.
  apply (EventHandlerEntry_inv hdr os
           (fun k d => k = GetHashmapKeyFromFd (fd d))
           (Forall (fun e => 0 < snd e < 2 ^ 63))
           whole_messages
           (fun m => msg_data m < 2 ^ 63)).
  - intros fd0 []; reflexivity.
  - intros k port0. apply CloseCommand_frame; auto.
  - intros k m. apply ReturnTokenCommand_frame; auto.
  - intros k m. apply SetEventMaskCommand_frame; auto.
  - intros k event. apply HandleDescriptorEvent_frame; auto.
  - intros m q Hm Hq. apply UpdateTimeout_in_range; assumption.
  - intros q Hq. apply Forall_filter_keep, Hq.
  - intros buf i. simpl. unfold read_int64. apply wrap64_range.
  - exact whole_messages_drop.
Qed.

(** A message that reaches the pipe reaches it whole. *)
Lemma WakeupHandler_standing id0 dart_port0 data0 :
  hoare standing (WakeupHandler hdr os id0 dart_port0 data0) (fun _ => standing).
Proof.
  intros w a w' out (Hk & Ht & Hp) E. unfold WakeupHandler in E.
  apply bind_inv in E. destruct E as (? & w0 & ? & ? & E0 & E & _).
  apply ASSERT_inv in E0. subst w0.
  apply bind_inv in E. destruct E as (? & w1 & ? & ? & E1 & E2 & _).
  injection E1 as _ <- _.
  destruct (WriteToBlocking os _ =? kInterruptMessageSize) eqn:Er;
    [|discriminate]. injection E2 as _ <- _.
  apply Z.eqb_eq in Er. rewrite Er.
  split; [exact Hk|]. split; [exact Ht|]. simpl.
  unfold whole_messages in *. rewrite length_app, take_ge.
  - rewrite Nat2Z.inj_add, msg_bytes_length. destruct Hp as [k Hk'].
    exists (k + 1). lia.
  - pose proof (msg_bytes_length
                  {| id := id0; dart_port := dart_port0; msg_data := data0 |}). lia.
Qed.

End StandingInvariants.

(** *** I1 between the operations of the worker *)

Section QuiescentPoints.

Variable hdr : Header.
Variable os : Collaborators.

Lemma I1_world_inv w : I1 w <-> world_inv (fun _ => I1_di) (fun _ => True) (fun _ => True) w.
Proof. unfold world_inv, map_all, I1. tauto. Qed.

Lemma hoare_I1 {A} (c : M World A) :
  hoare (world_inv (fun _ => I1_di) (fun _ => True) (fun _ => True)) c
        (fun _ => world_inv (fun _ => I1_di) (fun _ => True) (fun _ => True)) ->
  hoare I1 c (fun _ => I1).
Proof.
  intros H w a w' out Hw E. apply I1_world_inv.
  eapply H; [|exact E]. apply I1_world_inv, Hw.
Qed.

Lemma HandleInterruptMessage_I1 msg :
  hoare I1 (HandleInterruptMessage hdr os msg) (fun _ => I1).
Proof.
  apply hoare_I1.
  apply (HandleInterruptMessage_inv hdr os (fun _ => I1_di) (fun _ => True)
           (fun _ => True) (fun _ => True)); auto using I1_new_descriptor_info.
  - intros _ port0. apply CloseCommand_I1.
  - intros _ m. apply ReturnTokenCommand_I1.
  - intros _ m. apply SetEventMaskCommand_I1.
Qed.

Lemma on_di_I1 {A} p (c : M DescriptorInfo A) :
  hoare I1_di c (fun _ => I1_di) -> hoare I1 (on_di p c) (fun _ => I1).
Proof.
  intros Hc. apply hoare_I1.
  apply (on_di_inv (fun _ => I1_di) (fun _ => True) (fun _ => True)). exact Hc.
Qed.

Lemma EventHandlerEntry_I1 script :
  hoare I1 (EventHandlerEntry hdr os script) (fun _ => I1).
Proof.
  apply hoare_I1.
  apply (EventHandlerEntry_inv hdr os (fun _ => I1_di) (fun _ => True)
           (fun _ => True) (fun _ => True)); auto using I1_new_descriptor_info.
  - intros _ port0. apply CloseCommand_I1.
  - intros _ m. apply ReturnTokenCommand_I1.
  - intros _ m. apply SetEventMaskCommand_I1.
  - intros _ event. apply HandleDescriptorEvent_I1.
Qed.

(** C3: I1 holds between the operations of the worker.  It holds of the
    empty map the worker starts with, and when it holds before, it holds
    after each interrupt message (timer, shutdown, SET_MASK, RETURN_TOKEN,
    CLOSE, and the two half-closes), after each readiness event, after a
    registration that the kernel rejects, and after every run of the worker
    loop. *)
Theorem I1_quiescent :
  (forall w, socket_map_ w = ∅ -> I1 w)
  /\ (forall msg, hoare I1 (HandleInterruptMessage hdr os msg) (fun _ => I1))
  /\ (forall event di,
        hoare I1 (on_di di (HandleDescriptorEvent hdr os event)) (fun _ => I1))
  /\ (forall old_mask d a d' out,
        (tracked_by_kqueue d = true <-> old_mask <> 0) ->
        kevent_status os (add_changes d) = -1 ->
        UpdateKQueueInstance hdr os old_mask d = Ok a d' out ->
        I1_di d')
  /\ (forall script, hoare I1 (EventHandlerEntry hdr os script) (fun _ => I1)).
Proof.
  split.
  { intros w E k d. rewrite E, lookup_empty. discriminate. }
  split; [exact HandleInterruptMessage_I1|].
  split; [intros event di; apply on_di_I1, HandleDescriptorEvent_I1|].
  split; [|exact EventHandlerEntry_I1].
  intros old_mask d a d' out Hpre _ E.
  eapply UpdateKQueueInstance_I1; [exact Hpre|exact E].
Qed.

End QuiescentPoints.

Lemma I1_quiescent_witness :
  exists w' out, a_session empty_world = Ok tt w' out /\ I1 w'.
Proof.
  destruct (I1_quiescent (spec_header true) (a_kernel [] true))
    as (Hinit & _ & _ & _ & Hloop).
  destruct (a_session empty_world) as [[] w' out|x] eqn:E.
  - exists w', out. split; [reflexivity|].
    unfold a_session in E.
    apply bind_inv in E. destruct E as (? & w1 & ? & ? & E1 & E & _).
    apply bind_inv in E. destruct E as (? & w2 & ? & ? & E2 & E3 & _).
    eapply Hloop; [|exact E3].
    unfold put in E1. injection E1 as _ <- _.
    unfold SendData, WakeupHandler in E2.
    apply bind_inv in E2. destruct E2 as (? & w3 & ? & ? & E4 & E5 & _).
    unfold modify in E4. injection E4 as _ <- _.
    assert (w2 = set_interrupt_pipe
                   (msg_bytes {| id := 100; dart_port := 77;
                                 msg_data := pack kSetEventMaskCommand true false 0 1 |})
                   (set_sockets (<[100 := {| socket_fd := 7; isolate_port := 9;
                                             ref_count := 5 |}]> ∅) empty_world)) as ->.
    { vm_compute in E5. injection E5 as _ <- _. reflexivity. }
    apply Hinit. reflexivity.
  - vm_compute in E. discriminate.
Defined.

(** ** The subscriber a readiness event goes to *)

Lemma land_io_bits_nonzero x m :
  Z.land (Z.land x io_bits) m <> 0 -> Z.land x m <> 0.
Proof.
  intros H E. apply H.
  rewrite <- Z.land_assoc, (Z.land_comm io_bits m), Z.land_assoc, E.
  reflexivity.
Qed.

(** A bit of the effective mask comes from a subscriber that holds a token
    and asked for it. *)
Lemma Mask_land_subscriber d m :
  Z.land (Mask d) m <> 0 ->
  exists e, In e (subscribers d) /\ 0 < token_count e /\ Z.land (event_mask e) m <> 0.
Proof.
  unfold Mask. induction (subscribers d) as [|e l IH]; simpl; intros H.
  - exfalso. apply H. reflexivity.
  - destruct (0 <? token_count e) eqn:Et.
    + rewrite Z.land_lor_distr_l in H.
      destruct (Z.eq_dec (Z.land (Z.land (event_mask e) io_bits) m) 0) as [E0|E0].
      * rewrite E0, Z.lor_0_l in H. destruct (IH H) as (e' & Hin & Ht & Hm).
        exists e'. auto.
      * exists e. split; [now left|]. split; [apply Z.ltb_lt; exact Et|].
        apply land_io_bits_nonzero. exact E0.
    + destruct (IH H) as (e' & Hin & Ht & Hm). exists e'. auto.
Qed.

Lemma next_eligible_found m l :
  (exists e, In e l /\ 0 < token_count e /\ Z.land (event_mask e) m <> 0) ->
  exists pre e post,
    next_eligible m l = Some (pre, e, post)
    /\ l = pre ++ e :: post
    /\ 0 < token_count e /\ Z.land (event_mask e) m <> 0.
Proof.
  induction l as [|a l IH]; intros (e & Hin & Ht & Hm); [destruct Hin|].
  simpl.
  destruct (negb (Z.land (event_mask a) m =? 0) && (0 <? token_count a)) eqn:Ea.
  - apply andb_true_iff in Ea. destruct Ea as [E1 E2].
    exists [], a, l. split; [reflexivity|]. split; [reflexivity|].
    split; [apply Z.ltb_lt; exact E2|].
    apply negb_true_iff, Z.eqb_neq in E1. exact E1.
  - destruct Hin as [->|Hin].
    + exfalso. apply andb_false_iff in Ea. destruct Ea as [E1|E2].
      * apply negb_false_iff, Z.eqb_eq in E1. contradiction.
      * apply Z.ltb_ge in E2. lia.
    + destruct IH as (pre & c & post & E & El & Hc).
      { exists e. auto. }
      rewrite E. exists (a :: pre), c, post.
      split; [reflexivity|]. split; [rewrite El; reflexivity|exact Hc].
Qed.

(** When the event mask has a bit of the effective mask of a listening
    socket, or the descriptor info is a registered single one,
    [NextNotifyDartPort] returns the port of a subscriber that holds a
    token. *)
Lemma NextNotifyDartPort_eligible hdr events_ready d :
  ports_nonzero d ->
  single_has_one d ->
  I1_di d ->
  tracked_by_kqueue d = true ->
  (kind d = Multiple -> Z.land (Mask d) events_ready <> 0) ->
  exists e d',
    NextNotifyDartPort events_ready d = Ok (port e) d' []
    /\ In e (subscribers d)
    /\ port e <> 0
    /\ 0 < token_count e
    /\ forall s : World, ASSERT hdr "port != 0" (negb (port e =? 0)) s = Ok tt s [].
Proof.
  intros Hp Hs Hi Ht Hm.
  assert (Hnz : forall e', In e' (subscribers d) -> port e' <> 0).
  { intros e' Hin'. unfold ports_nonzero in Hp. rewrite Forall_forall in Hp.
    apply Hp, list_elem_of_In. exact Hin'. }
  assert (Hassert : forall e', port e' <> 0 -> forall s : World,
               ASSERT hdr "port != 0" (negb (port e' =? 0)) s = Ok tt s []).
  { intros e' Hne s. apply Z.eqb_neq in Hne. rewrite Hne. apply ASSERT_true. }
  unfold NextNotifyDartPort. destruct (kind d) eqn:Ek.
  - assert (Hmask : Z.land (Mask d) (Mask d) <> 0).
    { rewrite Z.land_diag. apply Hi, Ht. }
    destruct (Mask_land_subscriber d (Mask d) Hmask) as (e & Hin & Hte & _).
    specialize (Hs Ek).
    destruct (subscribers d) as [|e0 [|e1 l]] eqn:El; simpl in Hs; [destruct Hin| |lia].
    destruct Hin as [->|[]].
    exists e, d. split; [reflexivity|]. split; [now left|].
    split; [apply Hnz; now left|]. split; [exact Hte|].
    apply Hassert, Hnz. now left.
  - destruct (Mask_land_subscriber d events_ready (Hm eq_refl)) as (e & Hin & Hte & He).
    destruct (next_eligible_found events_ready (subscribers d))
      as (pre & c & post & E & El & Hc & _).
    { exists e. auto. }
    rewrite E. assert (Hc_in : In c (subscribers d)).
    { rewrite El. apply in_or_app. right. now left. }
    exists c. eexists. split; [reflexivity|]. split; [exact Hc_in|].
    split; [apply Hnz; exact Hc_in|]. split; [exact Hc|].
    apply Hassert, Hnz. exact Hc_in.
Qed.


(** * Further properties of the worker *)

(** ** Kernel registration, continued *)

(** [RemoveFromKqueue] in closed form. *)
Lemma RemoveFromKqueue_eq di :
  RemoveFromKqueue di =
    Ok tt (set_tracked_by_kqueue false di)
       (if tracked_by_kqueue di then delete_filters (fd di) else []).
Proof.
  destruct (tracked_by_kqueue di) eqn:E.
  - apply RemoveFromKqueue_tracked; exact E.
  - rewrite RemoveFromKqueue_untracked by exact E.
    rewrite set_tracked_id by exact E. reflexivity.
Qed.

(** A registration that the kernel accepts. *)
Lemma AddToKqueue_accepted_eq hdr os di :
  tracked_by_kqueue di = false ->
  Mask di <> 0 ->
  kevent_status os (add_changes di) <> -1 ->
  AddToKqueue hdr os di =
    Ok tt (set_tracked_by_kqueue true di) [SysKevent (add_changes di)].
Proof.
  intros Ht Hm Hs.
  rewrite AddToKqueue_untracked by assumption.
  destruct (kevent_status os (add_changes di) =? -1) eqn:E; [|reflexivity].
  apply Z.eqb_eq in E. contradiction.
Qed.

(** X1: [RemoveFromKqueue] always returns; it leaves the descriptor info
    untracked, makes the two [EV_DELETE] calls exactly when the descriptor
    info was tracked, and a second call right after it changes nothing and
    calls nothing. *)
Theorem RemoveFromKqueue_idempotent di :
  RemoveFromKqueue di =
    Ok tt (set_tracked_by_kqueue false di)
       (if tracked_by_kqueue di then delete_filters (fd di) else [])
  /\ bind RemoveFromKqueue (fun _ => RemoveFromKqueue) di = RemoveFromKqueue di.
Proof.
  split; [apply RemoveFromKqueue_eq|].
  rewrite (bind_Ok _ _ _ _ _ _ (RemoveFromKqueue_eq di)).
  rewrite RemoveFromKqueue_untracked by reflexivity.
  rewrite app_nil_r. symmetry. apply RemoveFromKqueue_eq.
Qed.

(** X2: every change that [AddToKqueue] hands to the kernel is for the
    descriptor of the descriptor info and carries the descriptor info as
    [udata], so its events are never taken for the wake-up pipe; it has
    [EV_ADD] and neither [EV_DELETE] nor [EV_ERROR]; it has [EV_CLEAR] exactly
    when the descriptor info is not a listening socket; and no filter is
    registered twice. *)
Theorem add_changes_shape di :
  Forall (fun c =>
            ident c = fd di
            /\ udata c = Some (fd di)
            /\ is_wakeup c = false
            /\ Z.land (flags c) EV_ADD = EV_ADD
            /\ Z.land (flags c) EV_DELETE = 0
            /\ (Z.land (flags c) EV_CLEAR =? 0) = IsListeningSocket di
            /\ Z.land (flags c) EV_ERROR = 0)
         (add_changes di)
  /\ NoDup (map filter (add_changes di)).
Proof.
  split.
  - unfold add_changes.
    apply Forall_app; split.
    + destruct (HasReadEvent di); [|constructor].
      constructor; [|constructor].
      unfold is_wakeup; cbn [ident udata flags].
      destruct (IsListeningSocket di); cbn [negb]; repeat split; reflexivity.
    + destruct (HasWriteEvent di); [|constructor].
      constructor; [|constructor].
      unfold is_wakeup; cbn [ident udata flags].
      destruct (IsListeningSocket di); cbn [negb]; repeat split; reflexivity.
  - rewrite add_changes_filters.
    destruct (HasReadEvent di), (HasWriteEvent di); cbn [app];
      repeat constructor; try apply not_elem_of_nil.
    intros H. apply list_elem_of_singleton in H. discriminate.
Qed.

(** X3: a registration that the kernel accepts, followed by
    [RemoveFromKqueue], leaves the descriptor info as it was: one [kevent]
    call with the changes, then the two [EV_DELETE] calls. *)
Theorem AddToKqueue_RemoveFromKqueue_round_trip hdr os di :
  tracked_by_kqueue di = false ->
  Mask di <> 0 ->
  kevent_status os (add_changes di) <> -1 ->
  bind (AddToKqueue hdr os) (fun _ => RemoveFromKqueue) di =
  Ok tt di (SysKevent (add_changes di) :: delete_filters (fd di)).
Proof.
  intros Ht Hm Hs.
  rewrite (bind_Ok _ _ _ _ _ _ (AddToKqueue_accepted_eq hdr os di Ht Hm Hs)).
  rewrite RemoveFromKqueue_tracked by reflexivity.
  cbn [app fd set_tracked_by_kqueue]. f_equal.
  destruct di; cbn in *. subst. reflexivity.
Qed.

Lemma AddToKqueue_RemoveFromKqueue_round_trip_witness :
  bind (AddToKqueue (spec_header true) (a_kernel [] true)) (fun _ => RemoveFromKqueue)
       (set_tracked_by_kqueue false a_single_di)
  = Ok tt (set_tracked_by_kqueue false a_single_di)
       (SysKevent [EV_SET 5 EVFILT_READ 33 0 0 (Some 5)] :: delete_filters 5).
Proof.
  apply (AddToKqueue_RemoveFromKqueue_round_trip (spec_header true) (a_kernel [] true)
           (set_tracked_by_kqueue false a_single_di)).
  - reflexivity.
  - vm_compute. discriminate.
  - vm_compute. discriminate.
Defined.

(** X4: when the tracked flag agrees with the old mask, and the descriptor
    info is not a listening socket whose mask changes between two non-zero
    values, no assertion of [UpdateKQueueInstance], [RemoveFromKqueue] and
    [AddToKqueue] fails: the update returns, in a debug build too, and the
    descriptor info keeps its descriptor and its kind. *)
Theorem UpdateKQueueInstance_returns hdr os old_mask di :
  (tracked_by_kqueue di = true <-> old_mask <> 0) ->
  (IsListeningSocket di = true -> old_mask = 0 \/ Mask di = 0 \/ old_mask = Mask di) ->
  exists di' out,
    UpdateKQueueInstance hdr os old_mask di = Ok tt di' out
    /\ fd di' = fd di /\ kind di' = kind di.
Proof.
  intros Ht Hl.
  assert (Hadd : forall d, tracked_by_kqueue d = false -> Mask d <> 0 ->
                 fd d = fd di -> kind d = kind di ->
                 exists di' out, AddToKqueue hdr os d = Ok tt di' out
                                 /\ fd di' = fd di /\ kind di' = kind di).
  { intros d H1 H2 H3 H4. rewrite AddToKqueue_untracked by assumption.
    destruct (kevent_status os (add_changes d) =? -1); eauto 10. }
  rewrite UpdateKQueueInstance_unfold.
  destruct (old_mask =? 0) eqn:Eo; destruct (Mask di =? 0) eqn:Em; cbn [andb].
  - eauto 10.
  - apply Z.eqb_eq in Eo. apply Z.eqb_neq in Em.
    apply Hadd; auto.
    destruct (tracked_by_kqueue di) eqn:E; [|reflexivity].
    exfalso. apply Ht; auto.
  - rewrite RemoveFromKqueue_eq. eauto 10.
  - destruct (old_mask =? Mask di) eqn:Ee; [eauto 10|].
    apply Z.eqb_neq in Eo, Em, Ee.
    assert (Hn : IsListeningSocket di = false).
    { destruct (IsListeningSocket di) eqn:E; [|reflexivity].
      destruct (Hl eq_refl) as [?|[?|?]]; contradiction. }
    rewrite Hn. cbn [negb]. unfold bind at 1. rewrite ASSERT_true.
    rewrite (bind_Ok _ _ _ _ _ _ (RemoveFromKqueue_eq di)).
    destruct (Hadd (set_tracked_by_kqueue false di)) as (d' & out & E & H1 & H2);
      try reflexivity.
    { rewrite Mask_set_tracked. exact Em. }
    rewrite E. cbn [app]. eauto 10.
Qed.

Lemma UpdateKQueueInstance_returns_witness :
  exists di' out,
    UpdateKQueueInstance (spec_header true) (a_kernel [] true) 3 a_single_di
      = Ok tt di' out
    /\ fd di' = 5 /\ kind di' = Single.
Proof.
  apply (UpdateKQueueInstance_returns (spec_header true) (a_kernel [] true) 3 a_single_di).
  - split; [discriminate|reflexivity].
  - discriminate.
Defined.

(** The masks [GetEvents] returns, and when it aborts. *)
Lemma GetEvents_decoded event di :
  match GetEvents event di with
  | Ok m di' out =>
      filter_known event di = true /\ In m decoded_masks /\ di' = di /\ out = []
  | Aborted x =>
      filter_known event di = false /\ x = Fatal "unreachable code"
  end.
Proof.
  unfold GetEvents, filter_known. rewrite bind_get_eq.
  destruct (IsListeningSocket di); cbn [negb andb].
  - destruct (filter event =? EVFILT_READ); cbn [orb].
    + destruct (Z.land (flags event) EV_EOF =? 0); cbn [negb].
      * cbn. auto 10.
      * destruct (fflags event =? 0); cbn; auto 10.
    + split; reflexivity.
  - destruct (filter event =? EVFILT_READ); cbn [orb].
    + destruct (Z.land (flags event) EV_EOF =? 0); cbn [negb].
      * cbn. auto 10.
      * destruct (fflags event =? 0); cbn; auto 10.
    + destruct (filter event =? EVFILT_WRITE).
      * destruct (Z.land (flags event) EV_EOF =? 0); cbn [negb].
        -- cbn. auto 10.
        -- destruct (fflags event =? 0); cbn; auto 10.
      * split; reflexivity.
Qed.

(** X5: [GetEvents] aborts exactly on a filter it does not know (anything
    but READ for a listening socket, anything but READ and WRITE otherwise).
    When it returns it has changed nothing, its mask is one of IN, OUT,
    ERROR, CLOSE and IN|CLOSE, so never 0; ERROR is reported exactly for
    [EV_EOF] with [fflags != 0], and then alone; CLOSE exactly for a READ
    event with [EV_EOF] and [fflags == 0]; IN exactly for a READ event
    without [EV_EOF], or with it and without [fflags] on a socket that does
    not listen; OUT exactly for a WRITE event that is not an error. *)
Theorem GetEvents_shape event di :
  match GetEvents event di with
  | Ok m di' out =>
      filter_known event di = true /\ di' = di /\ out = []
      /\ In m decoded_masks
      /\ (m = bit kErrorEvent <-> Z.land (flags event) EV_EOF <> 0 /\ fflags event <> 0)
      /\ (Z.land m (bit kErrorEvent) <> 0 -> m = bit kErrorEvent)
      /\ (Z.land m (bit kCloseEvent) <> 0 <->
          filter event = EVFILT_READ /\ Z.land (flags event) EV_EOF <> 0
          /\ fflags event = 0)
      /\ (Z.land m (bit kInEvent) <> 0 <->
          filter event = EVFILT_READ
          /\ (Z.land (flags event) EV_EOF = 0
              \/ IsListeningSocket di = false /\ fflags event = 0))
      /\ (Z.land m (bit kOutEvent) <> 0 <->
          filter event = EVFILT_WRITE
          /\ (Z.land (flags event) EV_EOF = 0 \/ fflags event = 0))
  | Aborted x =>
      filter_known event di = false /\ x = Fatal "unreachable code"
  end.
Proof.
  unfold GetEvents, filter_known. rewrite bind_get_eq.
  assert (Hrw : EVFILT_READ <> EVFILT_WRITE) by discriminate.
  destruct (IsListeningSocket di);
    destruct (filter event =? EVFILT_READ) eqn:Er;
    try (destruct (filter event =? EVFILT_WRITE) eqn:Ew);
    cbn [negb andb orb]; try (split; reflexivity);
    destruct (Z.land (flags event) EV_EOF =? 0) eqn:Ee;
    try (destruct (fflags event =? 0) eqn:Ef);
    cbn [negb]; unfold ret;
    rewrite ?Z.eqb_eq, ?Z.eqb_neq in *;
    (split; [reflexivity|]); (split; [reflexivity|]); (split; [reflexivity|]);
    (split; [cbn; tauto|]);
    repeat match goal with
           | |- _ /\ _ => split
           | |- _ <-> _ => split
           end;
    intros;
    repeat match goal with
           | H : _ /\ _ |- _ => destruct H
           | H : _ \/ _ |- _ => destruct H
           end;
    first
      [ assumption
      | contradiction
      | reflexivity
      | (exfalso; match goal with H : true = false |- _ => discriminate H end)
      | (exfalso;
         match goal with
         | H : ?x = EVFILT_READ, H' : ?x = EVFILT_WRITE |- _ =>
             rewrite H in H'; discriminate H'
         end)
      | (apply Z.eqb_neq; reflexivity)
      | (exfalso; match goal with H : _ <> 0 |- _ => apply H; reflexivity end)
      | (exfalso;
         match goal with H : _ = _ |- _ => revert H; apply Z.eqb_neq; reflexivity end)
      | (split; [assumption|]; first [ left; assumption
                                     | right; split; [reflexivity|assumption]
                                     | right; assumption
                                     | split; assumption ])
      | (split; assumption) ].
Qed.

(** ** The readiness events of a batch *)

Lemma emits_ret {S A} E (a : A) : emits E (@ret S A a).
Proof. intros s a' s' out H. inversion H; subst. constructor. Qed.

Lemma emits_bind {S A B} E (c : M S A) (k : A -> M S B) :
  emits E c -> (forall a, emits E (k a)) -> emits E (bind c k).
Proof.
  intros Hc Hk s b s2 out H.
  apply bind_inv in H. destruct H as (a & s1 & o1 & o2 & H1 & H2 & ->).
  apply Forall_app; split; [eapply Hc | eapply Hk]; eassumption.
Qed.

Lemma emits_get {S} E : emits E (@get S).
Proof. intros s a s' out H. inversion H; subst. constructor. Qed.

Lemma emits_modify {S} E (f : S -> S) : emits E (modify f).
Proof. intros s a s' out H. inversion H; subst. constructor. Qed.

Lemma emits_emit {S} (E : Effect -> Prop) e : E e -> emits E (@emit S e).
Proof. intros He s a s' out H. inversion H; subst. repeat constructor. exact He. Qed.

Lemma emits_abort {S A} E x : emits E (@abort S A x).
Proof. intros s a s' out H. discriminate. Qed.

Lemma emits_ASSERT {S} hdr E what c : emits E (@ASSERT hdr S what c).
Proof.
  unfold ASSERT. destruct (assertions_enabled hdr && negb c).
  - apply emits_abort.
  - apply emits_ret.
Qed.

Lemma emits_if {S A} E (b : bool) (c1 c2 : M S A) :
  emits E c1 -> emits E c2 -> emits E (if b then c1 else c2).
Proof. destruct b; auto. Qed.

Lemma emits_on_di {A} E p (c : M DescriptorInfo A) : emits E c -> emits E (on_di p c).
Proof.
  intros Hc w a w' out H. unfold on_di in H.
  destruct (socket_map_ w !! GetHashmapKeyFromFd p) as [d|]; [|discriminate].
  destruct (c d) as [a' d' out'|] eqn:Ec; [|discriminate].
  inversion H; subst. eapply Hc; eassumption.
Qed.

Lemma emits_for_each {S A} E (l : list A) (body : A -> M S unit) :
  (forall x, emits E (body x)) -> emits E (for_each l body).
Proof.
  intros Hb. induction l as [|x l IH]; cbn [for_each].
  - apply emits_ret.
  - apply emits_bind; [apply Hb|]. intros _. exact IH.
Qed.

Lemma emits_RemoveFromKqueue : emits readiness_effect RemoveFromKqueue.
Proof.
  intros d a d' out H. rewrite RemoveFromKqueue_eq in H. inversion H; subst.
  destruct (tracked_by_kqueue d); repeat constructor.
Qed.

Lemma emits_NotifyAllDartPorts m :
  In m decoded_masks -> emits readiness_effect (NotifyAllDartPorts m).
Proof.
  intros Hm d a d' out H. unfold NotifyAllDartPorts in H. inversion H; subst.
  apply List.Forall_forall. intros e He. apply in_map_iff in He.
  destruct He as (x & <- & _). exact Hm.
Qed.

Lemma emits_AddToKqueue hdr os : emits readiness_effect (AddToKqueue hdr os).
Proof.
  unfold AddToKqueue.
  apply emits_bind; [apply emits_get|]. intros d.
  repeat (apply emits_bind; [apply emits_ASSERT|]; intros ?).
  apply emits_bind; [apply emits_emit; exact I|]. intros ?.
  apply emits_if; [|apply emits_modify].
  apply emits_NotifyAllDartPorts. cbn. auto 10.
Qed.

Lemma emits_UpdateKQueueInstance hdr os old_mask :
  emits readiness_effect (UpdateKQueueInstance hdr os old_mask).
Proof.
  unfold UpdateKQueueInstance.
  apply emits_bind; [apply emits_get|]. intros d.
  repeat apply emits_if;
    repeat first [apply emits_RemoveFromKqueue | apply emits_AddToKqueue
                 | apply emits_ret | apply emits_ASSERT
                 | (apply emits_bind; [|intros ?]) ].
Qed.

Lemma emits_NextNotifyDartPort E m : emits E (NextNotifyDartPort m).
Proof.
  intros d a d' out H. unfold NextNotifyDartPort in H.
  destruct (kind d).
  - inversion H; subst. constructor.
  - destruct (next_eligible m (subscribers d)) as [[[pre e] post]|];
      inversion H; subst; constructor.
Qed.

Lemma emits_HandleDescriptorEvent hdr os event :
  emits readiness_effect (HandleDescriptorEvent hdr os event).
Proof.
  intros d a d' out H. unfold HandleDescriptorEvent in H.
  rewrite bind_get_eq in H.
  apply bind_inv in H. destruct H as (m & d1 & o1 & o2 & H1 & H2 & ->).
  pose proof (GetEvents_decoded event d) as Hg. rewrite H1 in Hg.
  destruct Hg as (_ & Hm & -> & ->). cbn [app].
  revert H2.
  destruct (negb (Z.land m (bit kErrorEvent) =? 0)).
  - apply (emits_bind readiness_effect (NotifyAllDartPorts m)
             (fun _ => UpdateKQueueInstance hdr os (Mask d))).
    + apply emits_NotifyAllDartPorts; exact Hm.
    + intros ?. apply emits_UpdateKQueueInstance.
  - destruct (negb (m =? 0)).
    + apply (emits_bind readiness_effect (NextNotifyDartPort m)
               (fun port0 => bind (ASSERT hdr "port != 0" (negb (port0 =? 0)))
                  (fun _ => bind (UpdateKQueueInstance hdr os (Mask d))
                     (fun _ => emit (PostInt32 port0 m))))).
      * apply emits_NextNotifyDartPort.
      * intros port0.
        apply emits_bind; [apply emits_ASSERT|]. intros ?.
        apply emits_bind; [apply emits_UpdateKQueueInstance|]. intros ?.
        apply emits_emit. exact Hm.
    + apply (emits_ret readiness_effect).
Qed.

(** One turn of the loop of [HandleEvents] that returns. *)
Lemma HandleEvents_loop_Ok hdr os event rest seen w a w' out :
  HandleEvents_loop hdr os (event :: rest) seen w = Ok a w' out ->
  has_EV_ERROR event = false
  /\ match udata event with
     | None => HandleEvents_loop hdr os rest true w = Ok a w' out
     | Some di =>
         exists d d1 o1 o2,
           socket_map_ w !! GetHashmapKeyFromFd di = Some d
           /\ HandleDescriptorEvent hdr os event d = Ok tt d1 o1
           /\ HandleEvents_loop hdr os rest seen
                (set_socket_map (<[GetHashmapKeyFromFd di := d1]> (socket_map_ w)) w)
              = Ok a w' o2
           /\ out = o1 ++ o2
     end.
Proof.
  cbn [HandleEvents_loop]. unfold has_EV_ERROR.
  destruct (negb (Z.land (flags event) EV_ERROR =? 0)); [discriminate|].
  intros H. split; [reflexivity|].
  destruct (udata event) as [di|]; [|exact H].
  apply bind_inv in H. destruct H as ([] & w1 & o1 & o2 & H1 & H2 & ->).
  unfold on_di in H1.
  destruct (socket_map_ w !! GetHashmapKeyFromFd di) as [d|]; [|discriminate].
  destruct (HandleDescriptorEvent hdr os event d) as [[] d1 o|] eqn:E; [|discriminate].
  inversion H1; subst. eauto 10.
Qed.

(** X6: the loop of [HandleEvents] over the readiness events only makes
    [kevent] registration calls and posts masks that [GetEvents] can decode:
    it never posts [1 << kDestroyedEvent], never closes a descriptor or a
    socket object, and never reads the pipe. *)
Theorem HandleEvents_loop_effects hdr os events seen w a w' out :
  HandleEvents_loop hdr os events seen w = Ok a w' out ->
  Forall readiness_effect out.
Proof.
  revert seen w out. induction events as [|event rest IH]; intros seen w out H.
  - inversion H; subst. constructor.
  - apply HandleEvents_loop_Ok in H. destruct H as [_ H].
    destruct (udata event) as [di|]; [|eapply IH; exact H].
    destruct H as (d & d1 & o1 & o2 & _ & H1 & H2 & ->).
    apply Forall_app; split.
    + eapply emits_HandleDescriptorEvent; exact H1.
    + eapply IH; exact H2.
Qed.

Lemma HandleEvents_loop_effects_witness :
  exists w',
    HandleEvents_loop (spec_header true) (a_kernel [] true) [a_read_event] false
                      a_world_with_a_connection
      = Ok false w' [PostInt32 77 1]
    /\ Forall readiness_effect [PostInt32 77 1].
Proof.
  eexists. split; [vm_compute; reflexivity|].
  eapply (HandleEvents_loop_effects (spec_header true) (a_kernel [] true) [a_read_event]
            false a_world_with_a_connection).
  vm_compute. reflexivity.
Defined.

Lemma same_descriptors_refl m : same_descriptors m m.
Proof. intros k. destruct (m !! k); auto. Qed.

Lemma same_descriptors_trans m1 m2 m3 :
  same_descriptors m1 m2 -> same_descriptors m2 m3 -> same_descriptors m1 m3.
Proof.
  intros H1 H2 k. specialize (H1 k). specialize (H2 k).
  destruct (m1 !! k), (m2 !! k), (m3 !! k); try tauto.
  destruct H1, H2. split; congruence.
Qed.

Lemma same_descriptors_insert m k d d' :
  m !! k = Some d -> fd d' = fd d -> kind d' = kind d ->
  same_descriptors m (<[k := d']> m).
Proof.
  intros Hk Hf Hkind j. destruct (decide (j = k)) as [->|Hne].
  - rewrite Hk, lookup_insert_eq. auto.
  - rewrite lookup_insert_ne by congruence. destruct (m !! j); auto.
Qed.

Lemma HandleEvents_loop_same hdr os events seen w a w' out :
  HandleEvents_loop hdr os events seen w = Ok a w' out ->
  w' = set_socket_map (socket_map_ w') w
  /\ same_descriptors (socket_map_ w) (socket_map_ w')
  /\ a = seen || existsb (fun e => match udata e with None => true | Some _ => false end) events.
Proof.
  revert seen w out. induction events as [|event rest IH]; intros seen w out H.
  - inversion H; subst. rewrite set_socket_map_id, orb_false_r.
    auto using same_descriptors_refl.
  - apply HandleEvents_loop_Ok in H. destruct H as [_ H]. cbn [existsb].
    destruct (udata event) as [di|].
    + destruct H as (d & d1 & o1 & o2 & Hd & H1 & H2 & ->).
      apply IH in H2. destruct H2 as (Hw & Hs & Ha). cbn [orb].
      split; [|split; [|exact Ha]].
      * rewrite Hw at 1. reflexivity.
      * eapply same_descriptors_trans; [|exact Hs].
        cbn [socket_map_ set_socket_map].
        assert (Hf : fd d1 = fd d /\ kind d1 = kind d).
        { eapply (HandleDescriptorEvent_frame hdr os
                    (fun x => fd x = fd d /\ kind x = kind d));
            [auto | auto | | exact H1]; auto. }
        destruct Hf. eapply same_descriptors_insert; eassumption.
    + apply IH in H. destruct H as (Hw & Hs & Ha).
      rewrite orb_true_r. rewrite orb_true_l in Ha. auto.
Qed.

(** X7: the loop of [HandleEvents] changes nothing but descriptor infos
    that are in the map: the timers, the shutdown flag, the pipe, the socket
    objects and the clock are as before; the map has the same keys, with
    descriptor infos of the same descriptors and kinds; and [interrupt_seen]
    is set exactly when an event without [udata] was in the batch. *)
Theorem HandleEvents_loop_frame hdr os events seen w a w' out :
  HandleEvents_loop hdr os events seen w = Ok a w' out ->
  w' = set_socket_map (socket_map_ w') w
  /\ same_descriptors (socket_map_ w) (socket_map_ w')
  /\ a = seen || existsb (fun e => match udata e with None => true | Some _ => false end) events.
Proof. apply HandleEvents_loop_same. Qed.

Lemma HandleEvents_loop_frame_witness :
  exists w',
    HandleEvents_loop (spec_header true) (a_kernel [] true) [a_read_event; a_wakeup_event]
                      false a_world_with_a_connection
      = Ok true w' [PostInt32 77 1]
    /\ w' = set_socket_map (socket_map_ w') a_world_with_a_connection
    /\ same_descriptors (socket_map_ a_world_with_a_connection) (socket_map_ w').
Proof.
  eexists. split; [vm_compute; reflexivity|].
  destruct (HandleEvents_loop_frame (spec_header true) (a_kernel [] true)
              [a_read_event; a_wakeup_event] false a_world_with_a_connection
              true _ [PostInt32 77 1] ltac:(vm_compute; reflexivity))
    as (H1 & H2 & _).
  split; [exact H1|exact H2].
Defined.

Lemma readiness_events_cons event rest :
  readiness_events (event :: rest) =
  if is_wakeup event then readiness_events rest else event :: readiness_events rest.
Proof. unfold readiness_events. cbn [List.filter]. destruct (is_wakeup event); reflexivity. Qed.

Lemma is_wakeup_eq event :
  is_wakeup event =
  negb (has_EV_ERROR event) && match udata event with None => true | Some _ => false end.
Proof. unfold is_wakeup, has_EV_ERROR. rewrite negb_involutive. reflexivity. Qed.

(** The loop of [HandleEvents] is the handling of the readiness events of
    the batch, one after the other; [interrupt_seen] is set when the batch
    has an event of the pipe. *)
Lemma HandleEvents_loop_readiness hdr os events seen w :
  HandleEvents_loop hdr os events seen w =
  bind (for_each (readiness_events events) (handle_readiness_event hdr os))
       (fun _ => ret (seen || existsb is_wakeup events)) w.
Proof.
  revert seen w. induction events as [|event rest IH]; intros seen w.
  - cbn. rewrite orb_false_r. reflexivity.
  - rewrite readiness_events_cons. cbn [HandleEvents_loop existsb].
    change (negb (Z.land (flags event) EV_ERROR =? 0)) with (has_EV_ERROR event).
    rewrite (is_wakeup_eq event).
    destruct (has_EV_ERROR event) eqn:Eerr; cbn [negb andb orb].
    + cbn [for_each]. unfold handle_readiness_event at 1. rewrite Eerr. reflexivity.
    + destruct (udata event) as [di|] eqn:Eu; cbn [orb for_each].
      * unfold handle_readiness_event at 1. rewrite Eerr, Eu.
        rewrite bind_assoc. apply bind_ext. intros _ s1. apply IH.
      * rewrite IH, orb_true_r. reflexivity.
Qed.


Lemma emits_handle_readiness_event hdr os event :
  emits readiness_effect (handle_readiness_event hdr os event).
Proof.
  unfold handle_readiness_event.
  apply emits_if; [apply emits_abort|].
  destruct (udata event) as [di|].
  - apply emits_on_di, emits_HandleDescriptorEvent.
  - apply emits_ret.
Qed.

(** The handling of the readiness events of a batch makes kernel
    registrations and posts decoded masks, and changes nothing but
    descriptor infos that are in the map. *)
Lemma readiness_events_frame hdr os events w a w1 out1 :
  for_each (readiness_events events) (handle_readiness_event hdr os) w = Ok a w1 out1 ->
  Forall readiness_effect out1
  /\ w1 = set_socket_map (socket_map_ w1) w
  /\ same_descriptors (socket_map_ w) (socket_map_ w1).
Proof.
  intros H. split.
  - eapply emits_for_each; [|exact H]. intros x. apply emits_handle_readiness_event.
  - assert (HandleEvents_loop hdr os events false w
            = Ok (false || existsb is_wakeup events) w1 (out1 ++ [])) as Hl.
    { rewrite HandleEvents_loop_readiness. unfold bind. rewrite H. reflexivity. }
    apply HandleEvents_loop_same in Hl. destruct Hl as (Hw & Hs & _). auto.
Qed.

(** C9: within one return of the blocking query, [HandleEvents] first
    handles every readiness event of the batch, in the order of the batch,
    and only then, when the batch has the event of the wake-up pipe, drains
    the pipe and applies the interrupt commands, wherever the event of the
    pipe stands in the batch.  While the readiness events are handled no
    command is applied: nothing is read from the pipe, the timers, the
    shutdown flag and the socket objects are as before, no descriptor info is
    deleted from the map or added to it, and the only effects are kernel
    registrations and posts of decoded masks. *)
Theorem HandleEvents_readiness_first hdr os events w :
  HandleEvents hdr os events w = HandleEvents_as_specified hdr os events w
  /\ (forall a w1 out1,
        for_each (readiness_events events) (handle_readiness_event hdr os) w
          = Ok a w1 out1 ->
        Forall readiness_effect out1
        /\ w1 = set_socket_map (socket_map_ w1) w
        /\ same_descriptors (socket_map_ w) (socket_map_ w1)).
Proof.
  split; [|intros a w1 out1; apply readiness_events_frame].
  unfold HandleEvents, HandleEvents_as_specified. unfold bind at 1.
  rewrite HandleEvents_loop_readiness. unfold bind, ret.
  destruct (for_each (readiness_events events) (handle_readiness_event hdr os) w)
    as [[] s1 out1|x]; [|reflexivity].
  cbn [orb]. rewrite app_nil_r.
  destruct (existsb is_wakeup events); reflexivity.
Qed.



(** X9: when the descriptor infos that the events of a batch point to are
    in the map, the loop of [HandleEvents] never uses a descriptor info that
    was deleted, and they are all still in the map when the loop is done:
    the commands that delete one are handled after the loop. *)
Theorem HandleEvents_loop_alive hdr os events seen w :
  batch_alive events w ->
  HandleEvents_loop hdr os events seen w <> Aborted Dangling
  /\ forall a w' out,
      HandleEvents_loop hdr os events seen w = Ok a w' out -> batch_alive events w'.
Proof.
  intros Hb. split; [apply HandleEvents_loop_no_dangling; exact Hb|].
  intros a w' out H event p Hin Hu.
  apply HandleEvents_loop_same in H. destruct H as (_ & Hs & _).
  specialize (Hs (GetHashmapKeyFromFd p)).
  destruct (Hb event p Hin Hu) as [d Hd]. rewrite Hd in Hs.
  destruct (socket_map_ w' !! GetHashmapKeyFromFd p) as [d'|]; [eauto|contradiction].
Qed.

Lemma HandleEvents_loop_alive_witness :
  HandleEvents_loop (spec_header true) (a_kernel [] true) [a_read_event] false
                    a_world_with_a_connection <> Aborted Dangling
  /\ forall a w' out,
      HandleEvents_loop (spec_header true) (a_kernel [] true) [a_read_event] false
                        a_world_with_a_connection = Ok a w' out ->
      batch_alive [a_read_event] w'.
Proof.
  apply (HandleEvents_loop_alive (spec_header true) (a_kernel [] true) [a_read_event]
           false a_world_with_a_connection).
  intros event p [<-|[]] E. injection E as <-.
  exists a_single_di. reflexivity.
Defined.

(** ** The messages in the pipe *)

(** [WakeupHandler] in closed form. *)
(** X10: [WakeupHandler] returns exactly when [WriteToBlocking] reports the
    24 bytes of the message, and then the pipe holds the whole message after
    what it held before and nothing else has changed; any other result is
    fatal. *)
Theorem WakeupHandler_whole_message hdr os id0 dart_port0 data0 w :
  let m := {| id := id0; dart_port := dart_port0; msg_data := data0 |} in
  match WakeupHandler hdr os id0 dart_port0 data0 w with
  | Ok _ w' out =>
      WriteToBlocking os (msg_bytes m) = kInterruptMessageSize
      /\ w' = set_interrupt_pipe (interrupt_pipe w ++ msg_bytes m) w
      /\ out = []
  | Aborted x =>
      WriteToBlocking os (msg_bytes m) <> kInterruptMessageSize
      /\ x = Fatal "Interrupt message failure."
  end.
Proof.
  cbv zeta. rewrite WakeupHandler_eq.
  destruct (WriteToBlocking os _ =? kInterruptMessageSize) eqn:E.
  - apply Z.eqb_eq in E. auto.
  - apply Z.eqb_neq in E. auto.
Qed.

(** What a sequence of [SendData] leaves in the pipe. *)
Lemma for_each_SendData hdr os ms w :
  Forall (fun m => WriteToBlocking os (msg_bytes m) = kInterruptMessageSize) ms ->
  for_each ms (SendData_message hdr os) w =
  Ok tt (set_interrupt_pipe (interrupt_pipe w ++ flat_map msg_bytes ms) w) [].
Proof.
  intros H. revert w. induction H as [|m ms Hm _ IH]; intros w.
  - cbn. rewrite app_nil_r, set_interrupt_pipe_id. reflexivity.
  - cbn [for_each flat_map]. unfold bind, SendData_message, SendData.
    rewrite WakeupHandler_eq.
    replace {| id := id m; dart_port := dart_port m; msg_data := msg_data m |} with m
      by (destruct m; reflexivity).
    rewrite Hm, Z.eqb_refl, IH. cbn [interrupt_pipe set_interrupt_pipe app].
    rewrite <- app_assoc. reflexivity.
Qed.

(** The [k]-th message of a buffer. *)
Lemma msg_at_in_buffer pre m post k :
  length pre = (24 * k)%nat ->
  message_in_range m ->
  msg_at (pre ++ msg_bytes m ++ post) k = m.
Proof.
  destruct m as [i p d]. unfold message_in_range. cbn [id dart_port msg_data].
  intros Hl (Hi & Hp & Hd).
  unfold msg_at, msg_bytes. cbn [id dart_port msg_data].
  f_equal.
  - rewrite <- !app_assoc.
    apply (read_int64_le_bytes pre i (_ ++ _ ++ post)); [lia|exact Hi].
  - replace (pre ++ (le_bytes 8 i ++ le_bytes 8 p ++ le_bytes 8 d) ++ post)
      with ((pre ++ le_bytes 8 i) ++ le_bytes 8 p ++ (le_bytes 8 d ++ post))
      by (rewrite <- !app_assoc; reflexivity).
    apply read_int64_le_bytes; [|exact Hp].
    rewrite length_app, le_bytes_length. lia.
  - replace (pre ++ (le_bytes 8 i ++ le_bytes 8 p ++ le_bytes 8 d) ++ post)
      with ((pre ++ le_bytes 8 i ++ le_bytes 8 p) ++ le_bytes 8 d ++ post)
      by (rewrite <- !app_assoc; reflexivity).
    apply read_int64_le_bytes; [|exact Hd].
    rewrite !length_app, !le_bytes_length. lia.
Qed.

Lemma flat_map_msg_bytes_length ms :
  length (flat_map msg_bytes ms) = (24 * length ms)%nat.
Proof.
  induction ms as [|m ms IH]; [reflexivity|].
  cbn [flat_map]. rewrite length_app, IH.
  pose proof (msg_bytes_length m). unfold kInterruptMessageSize in *.
  cbn [length]. lia.
Qed.

(** Decoding the messages of a buffer one after the other. *)
Lemma for_each_decode {S} (f : InterruptMessage -> M S unit) ms :
  forall pre post k buf s,
    length pre = (24 * k)%nat ->
    Forall message_in_range ms ->
    buf = pre ++ flat_map msg_bytes ms ++ post ->
    for_each (seq k (length ms)) (fun i => f (msg_at buf i)) s = for_each ms f s.
Proof.
  induction ms as [|m ms IH]; intros pre post k buf s Hl Hr Hb; [reflexivity|].
  apply Forall_cons in Hr. destruct Hr as [Hm Hr].
  cbn [length seq for_each flat_map] in *.
  assert (E : msg_at buf k = m).
  { rewrite Hb, <- app_assoc. apply msg_at_in_buffer; assumption. }
  unfold bind. rewrite E.
  destruct (f m s) as [[] s1 o1|x]; [|reflexivity].
  rewrite (IH (pre ++ msg_bytes m) post (Datatypes.S k) buf s1); try assumption.
  - reflexivity.
  - rewrite length_app. pose proof (msg_bytes_length m).
    unfold kInterruptMessageSize in *. lia.
  - rewrite Hb, <- !app_assoc. reflexivity.
Qed.

Lemma take_flat_map_msg_bytes n ms :
  take (24 * n) (flat_map msg_bytes ms) = flat_map msg_bytes (take n ms).
Proof.
  revert n. induction ms as [|m ms IH]; intros n.
  - cbn [flat_map]. rewrite !take_nil. reflexivity.
  - destruct n as [|n]; [reflexivity|].
    cbn [flat_map take]. rewrite <- IH.
    replace (24 * Datatypes.S n)%nat with (24 + 24 * n)%nat by lia.
    apply take_app_add'.
    pose proof (msg_bytes_length m). unfold kInterruptMessageSize in *. lia.
Qed.

Lemma drop_flat_map_msg_bytes n ms :
  drop (24 * n) (flat_map msg_bytes ms) = flat_map msg_bytes (drop n ms).
Proof.
  revert n. induction ms as [|m ms IH]; intros n.
  - cbn [flat_map]. rewrite !drop_nil. reflexivity.
  - destruct n as [|n]; [reflexivity|].
    cbn [flat_map drop]. rewrite <- IH.
    replace (24 * Datatypes.S n)%nat with (24 + 24 * n)%nat by lia.
    apply drop_app_add'.
    pose proof (msg_bytes_length m). unfold kInterruptMessageSize in *. lia.
Qed.

(** A drain of a pipe that holds the messages [ms]. *)
Lemma HandleInterruptFd_messages hdr os ms w :
  interrupt_pipe w = flat_map msg_bytes ms ->
  ms <> [] ->
  Forall message_in_range ms ->
  HandleInterruptFd hdr os w
  = bind (emit (SysRead (kInterruptMessageSize * kInterruptMessageSize)))
         (fun _ => for_each (take MAX_MESSAGES ms) (HandleInterruptMessage hdr os))
         (set_interrupt_pipe (flat_map msg_bytes (drop MAX_MESSAGES ms)) w).
Proof.
  intros Hp Hne Hr.
  assert (Hn : interrupt_pipe w <> []).
  { intros E. rewrite E in Hp. destruct ms as [|m ms]; [congruence|].
    pose proof (flat_map_msg_bytes_length (m :: ms)) as Hl. rewrite <- Hp in Hl.
    discriminate. }
  unfold HandleInterruptFd.
  assert (Er : read_interrupt_pipe (kInterruptMessageSize * kInterruptMessageSize) w
               = Ok (Z.of_nat (length (flat_map msg_bytes (take MAX_MESSAGES ms))),
                     flat_map msg_bytes (take MAX_MESSAGES ms))
                    (set_interrupt_pipe (flat_map msg_bytes (drop MAX_MESSAGES ms)) w)
                    [SysRead (kInterruptMessageSize * kInterruptMessageSize)]).
  { rewrite read_interrupt_pipe_nonempty by exact Hn. rewrite Hp.
    change (Z.to_nat (kInterruptMessageSize * kInterruptMessageSize))
      with (24 * MAX_MESSAGES)%nat.
    rewrite take_flat_map_msg_bytes, drop_flat_map_msg_bytes. reflexivity. }
  rewrite (bind_Ok _ _ _ _ _ _ Er). cbn [fst snd].
  assert (Hq : Z.to_nat (Z.of_nat (length (flat_map msg_bytes (take MAX_MESSAGES ms)))
                         ÷ kInterruptMessageSize)
               = length (take MAX_MESSAGES ms)).
  { rewrite flat_map_msg_bytes_length. unfold kInterruptMessageSize.
    rewrite Nat2Z.inj_mul, Z.mul_comm, Z.quot_mul by lia. lia. }
  rewrite Hq.
  rewrite (for_each_decode (HandleInterruptMessage hdr os) (take MAX_MESSAGES ms) [] []
             0%nat (flat_map msg_bytes (take MAX_MESSAGES ms)));
    [| reflexivity | apply Forall_take; exact Hr | rewrite app_nil_r; reflexivity].
  unfold bind, emit.
  match goal with
  | |- context [for_each ?l ?f ?s] => destruct (for_each l f s) as [[] w' out|x]
  end; reflexivity.
Qed.

(** X11: messages sent with [SendData] while the pipe is empty are applied
    by the next [HandleInterruptFd] in the order in which they were sent;
    one call applies the first [MAX_MESSAGES], and the others stay in the
    pipe, in order. *)
Theorem SendData_applied_in_order hdr os ms w :
  interrupt_pipe w = [] ->
  ms <> [] ->
  Forall (fun m => WriteToBlocking os (msg_bytes m) = kInterruptMessageSize) ms ->
  Forall message_in_range ms ->
  bind (for_each ms (SendData_message hdr os)) (fun _ => HandleInterruptFd hdr os) w
  = bind (emit (SysRead (kInterruptMessageSize * kInterruptMessageSize)))
         (fun _ => for_each (take MAX_MESSAGES ms) (HandleInterruptMessage hdr os))
         (set_interrupt_pipe (flat_map msg_bytes (drop MAX_MESSAGES ms)) w).
Proof.
  intros Hp Hne Hw Hr.
  rewrite (bind_Ok _ _ _ _ _ _ (for_each_SendData hdr os ms w Hw)).
  rewrite Hp. cbn [app].
  rewrite (HandleInterruptFd_messages hdr os ms) by (assumption || reflexivity).
  change (set_interrupt_pipe (flat_map msg_bytes (drop MAX_MESSAGES ms))
            (set_interrupt_pipe (flat_map msg_bytes ms) w))
    with (set_interrupt_pipe (flat_map msg_bytes (drop MAX_MESSAGES ms)) w).
  match goal with
  | |- context [bind ?c ?k ?s] => destruct (bind c k s) as [[] w' out|x]
  end; reflexivity.
Qed.

Lemma SendData_applied_in_order_witness :
  bind (for_each two_timer_messages
          (SendData_message (spec_header true) (a_kernel [] true)))
       (fun _ => HandleInterruptFd (spec_header true) (a_kernel [] true)) empty_world
  = bind (emit (SysRead (kInterruptMessageSize * kInterruptMessageSize)))
         (fun _ => for_each (take MAX_MESSAGES two_timer_messages)
                     (HandleInterruptMessage (spec_header true) (a_kernel [] true)))
         (set_interrupt_pipe (flat_map msg_bytes (drop MAX_MESSAGES two_timer_messages))
                             empty_world).
Proof.
  apply (SendData_applied_in_order (spec_header true) (a_kernel [] true)
           two_timer_messages empty_world).
  - reflexivity.
  - discriminate.
  - repeat constructor.
  - repeat constructor; vm_compute; discriminate.
Defined.

(** A message does not touch the pipe. *)
Lemma HandleInterruptMessage_pipe hdr os msg p :
  hoare (fun w => interrupt_pipe w = p) (HandleInterruptMessage hdr os msg)
        (fun _ w => interrupt_pipe w = p).
Proof.
  eapply hoare_weaken.
  - apply (HandleInterruptMessage_inv hdr os (fun _ _ => True) (fun _ => True)
             (fun pipe => pipe = p) (fun _ => True)); try exact I.
    + intros ? ?. exact I.
    + intros k port0 d a d' out _ _. exact I.
    + intros k m d a d' out _ _. exact I.
    + intros k m d a d' out _ _. exact I.
    + intros ? ? _ _. exact I.
  - intros w Hw. split; [|split]; [intros ? ? _; exact I | exact I | exact Hw].
  - intros a w (_ & _ & Hw). exact Hw.
Qed.

(** X12: whatever the messages do, [HandleInterruptFd] takes the first
    [MAX_MESSAGES * kInterruptMessageSize] bytes out of the pipe, with one
    [read], and leaves the bytes after them as they are. *)
Theorem HandleInterruptFd_rest_stays hdr os w a w' out :
  HandleInterruptFd hdr os w = Ok a w' out ->
  interrupt_pipe w' =
    drop (Z.to_nat (kInterruptMessageSize * kInterruptMessageSize)) (interrupt_pipe w)
  /\ exists handled,
      out = SysRead (kInterruptMessageSize * kInterruptMessageSize) :: handled.
Proof.
  intros H. unfold HandleInterruptFd in H.
  apply bind_inv in H. destruct H as (r & w1 & o1 & o2 & H1 & H2 & ->).
  assert (Hr : interrupt_pipe w1 =
               drop (Z.to_nat (kInterruptMessageSize * kInterruptMessageSize))
                    (interrupt_pipe w)
               /\ o1 = [SysRead (kInterruptMessageSize * kInterruptMessageSize)]).
  { unfold read_interrupt_pipe in H1.
    destruct (interrupt_pipe w) as [|b pipe] eqn:Ep; inversion H1; subst.
    - rewrite Ep. split; [rewrite drop_nil|]; reflexivity.
    - split; reflexivity. }
  destruct Hr as [Hp ->]. split; [|eexists; reflexivity].
  eapply (hoare_for_each (fun w => interrupt_pipe w = _)); [| exact Hp | exact H2].
  intros i. apply HandleInterruptMessage_pipe.
Qed.

Lemma HandleInterruptFd_rest_stays_witness :
  exists w' handled,
    HandleInterruptFd (spec_header true) (a_kernel [] true) a_world_with_a_torn_message
      = Ok tt w' (SysRead 576 :: handled)
    /\ interrupt_pipe w' = [].
Proof.
  destruct (HandleInterruptFd (spec_header true) (a_kernel [] true)
              a_world_with_a_torn_message) as [[] w' out|x] eqn:E.
  - destruct (HandleInterruptFd_rest_stays (spec_header true) (a_kernel [] true)
                a_world_with_a_torn_message tt w' out E) as (Hp & handled & ->).
    exists w', handled. split; [reflexivity|]. rewrite Hp. reflexivity.
  - vm_compute in E. discriminate.
Defined.

(** X13: with less than one whole message in the pipe (an empty pipe, for
    which [read] returns -1, or a torn message) [HandleInterruptFd] applies
    nothing; the bytes it read are dropped. *)
Theorem HandleInterruptFd_nothing_whole hdr os w :
  Z.of_nat (length (interrupt_pipe w)) < kInterruptMessageSize ->
  HandleInterruptFd hdr os w =
  Ok tt (set_interrupt_pipe [] w) [SysRead (kInterruptMessageSize * kInterruptMessageSize)].
Proof.
  intros Hl. unfold HandleInterruptFd, bind, read_interrupt_pipe.
  unfold kInterruptMessageSize in *.
  destruct (interrupt_pipe w) as [|b pipe] eqn:Ep.
  - cbn. rewrite <- Ep, set_interrupt_pipe_id. reflexivity.
  - cbn [fst snd]. rewrite take_ge, drop_ge by lia.
    replace (Z.to_nat (Z.of_nat (length (b :: pipe)) ÷ 24)) with 0%nat.
    + reflexivity.
    + rewrite Z.quot_small by lia. reflexivity.
Qed.

Lemma HandleInterruptFd_nothing_whole_witness :
  HandleInterruptFd (spec_header true) (a_kernel [] true) a_world_with_a_stray_byte
  = Ok tt empty_world [SysRead 576].
Proof.
  apply (HandleInterruptFd_nothing_whole (spec_header true) (a_kernel [] true)
           a_world_with_a_stray_byte).
  vm_compute. reflexivity.
Defined.

(** ** Commands for socket objects *)

Lemma ASSERT_holds {S} hdr what c (s : S) :
  (assertions_enabled hdr = true -> c = true) -> ASSERT hdr what c s = Ok tt s [].
Proof.
  intros H. unfold ASSERT. destruct (assertions_enabled hdr); [|reflexivity].
  rewrite H by reflexivity. reflexivity.
Qed.

Lemma Socket_Release_eq s so w :
  sockets w !! s = Some so ->
  Socket_Release s w = Ok tt (set_sockets (released s so (sockets w)) w) [].
Proof.
  intros E. unfold Socket_Release, bind, socket_deref, modify, released. rewrite E.
  destruct (ref_count so - 1 =? 0); reflexivity.
Qed.

(** The branch of a message for a socket object. *)
Lemma HandleInterruptMessage_socket hdr os msg w so :
  socket_message hdr msg ->
  sockets w !! id msg = Some so ->
  HandleInterruptMessage hdr os msg w =
  bind (if socket_fd so =? -1 then ret tt
        else bind (GetDescriptorInfo hdr (socket_fd so)
                     (IS_LISTENING_SOCKET hdr (msg_data msg)))
               (fun d => HandleSocketCommand hdr os msg (id msg) d (socket_fd so)))
       (fun _ => Socket_Release (id msg)) w.
Proof.
  intros (Ht & Hs & Hc) Es. unfold HandleInterruptMessage.
  apply Z.eqb_neq in Ht, Hs. rewrite Ht, Hs.
  unfold bind at 1. rewrite ASSERT_holds.
  - rewrite bind_Ok with (a := so) (s1 := w) (out1 := [])
      by (unfold socket_deref; rewrite Es; reflexivity).
    cbn [app].
    destruct (bind _ _ w) as [[] w1 o1|x]; reflexivity.
  - intros Ha. apply negb_true_iff, Z.eqb_neq. auto.
Qed.

(** X14: a command for a socket object whose descriptor is already -1 is
    skipped, a close command too: no descriptor info is looked up or created,
    nothing is posted; only the reference of the message is released. *)
Theorem HandleInterruptMessage_closed_socket hdr os msg w so :
  socket_message hdr msg ->
  sockets w !! id msg = Some so ->
  socket_fd so = -1 ->
  HandleInterruptMessage hdr os msg w =
  Ok tt (set_sockets (released (id msg) so (sockets w)) w) [].
Proof.
  intros Hm Es Hfd.
  rewrite (HandleInterruptMessage_socket hdr os msg w so Hm Es), Hfd.
  cbn [Z.eqb Pos.eqb]. rewrite bind_ret_l. apply Socket_Release_eq; exact Es.
Qed.

Lemma HandleInterruptMessage_closed_socket_witness :
  HandleInterruptMessage (spec_header true) (a_kernel [] true) a_close_message
                         a_world_with_a_closed_socket
  = Ok tt empty_world [].
Proof.
  apply (HandleInterruptMessage_closed_socket (spec_header true) (a_kernel [] true)
           a_close_message a_world_with_a_closed_socket
           {| socket_fd := -1; isolate_port := 9; ref_count := 1 |}).
  - repeat split; vm_compute; discriminate.
  - reflexivity.
  - reflexivity.
Defined.

(** X15: [kShutdownReadCommand] and [kShutdownWriteCommand] on a socket that
    does not listen make one [shutdown] call, [SHUT_RD] or [SHUT_WR], and
    release the reference of the message; the descriptor info and its kernel
    registration are untouched and nothing is posted.  The read command is
    tested first. *)
Theorem HandleInterruptMessage_half_close hdr os msg w so d :
  socket_message hdr msg ->
  sockets w !! id msg = Some so ->
  0 <= socket_fd so ->
  socket_map_ w !! GetHashmapKeyFromFd (socket_fd so) = Some d ->
  fd d = socket_fd so ->
  IsListeningSocket d = false ->
  IS_COMMAND hdr (msg_data msg) kShutdownReadCommand
  || IS_COMMAND hdr (msg_data msg) kShutdownWriteCommand = true ->
  HandleInterruptMessage hdr os msg w =
  Ok tt (set_sockets (released (id msg) so (sockets w)) w)
     [SysShutdown (socket_fd so)
        (if IS_COMMAND hdr (msg_data msg) kShutdownReadCommand then SHUT_RD else SHUT_WR)].
Proof.
  intros Hm Es Hfd Ed Hf Hl Hc.
  rewrite (HandleInterruptMessage_socket hdr os msg w so Hm Es).
  assert (Hm1 : (socket_fd so =? -1) = false) by (apply Z.eqb_neq; lia).
  rewrite Hm1.
  assert (E : bind (GetDescriptorInfo hdr (socket_fd so)
                      (IS_LISTENING_SOCKET hdr (msg_data msg)))
                (fun d0 => HandleSocketCommand hdr os msg (id msg) d0 (socket_fd so)) w
              = Ok tt w [SysShutdown (socket_fd so)
                           (if IS_COMMAND hdr (msg_data msg) kShutdownReadCommand
                            then SHUT_RD else SHUT_WR)]).
  { rewrite (bind_Ok _ _ _ _ _ _ (GetDescriptorInfo_existing hdr _ _ w d Hfd Ed Hf)).
    unfold HandleSocketCommand. rewrite Hl, Hf. cbn [negb app].
    destruct (IS_COMMAND hdr (msg_data msg) kShutdownReadCommand).
    - unfold bind. rewrite ASSERT_true. reflexivity.
    - cbn [orb] in Hc. rewrite Hc. unfold bind. rewrite ASSERT_true. reflexivity. }
  rewrite (bind_Ok _ _ _ _ _ _ E).
  rewrite (Socket_Release_eq _ _ _ Es), app_nil_r. reflexivity.
Qed.

Lemma HandleInterruptMessage_half_close_witness :
  HandleInterruptMessage (spec_header true) (a_kernel [] true) a_shutdown_write_message
                         a_world_with_a_connection
  = Ok tt
       (set_sockets (<[100 := {| socket_fd := 5; isolate_port := 9; ref_count := 1 |}]>
                       (sockets a_world_with_a_connection))
                    a_world_with_a_connection)
       [SysShutdown 5 SHUT_WR].
Proof.
  apply (HandleInterruptMessage_half_close (spec_header true) (a_kernel [] true)
           a_shutdown_write_message a_world_with_a_connection
           {| socket_fd := 5; isolate_port := 9; ref_count := 2 |} a_single_di).
  - repeat split; vm_compute; discriminate.
  - reflexivity.
  - simpl. lia.
  - reflexivity.
  - reflexivity.
  - reflexivity.
  - reflexivity.
Defined.

(** X16: a close command on a listening socket that the registry does not
    report as safe to close keeps the descriptor info in the map, with the
    port removed and the registration updated, and closes no descriptor; the
    socket object is closed and [1 << kDestroyedEvent] is posted all the
    same. *)
Theorem HandleCloseCommand_listening_shared hdr os msg socket w so d new_mask d' out :
  sockets w !! socket = Some so ->
  socket_map_ w !! GetHashmapKeyFromFd (fd d) = Some d ->
  IsListeningSocket d = true ->
  CloseSafe os socket = false ->
  CloseCommand_on_di hdr os (dart_port msg) d = Ok new_mask d' out ->
  HandleCloseCommand hdr os msg socket (fd d) w =
  Ok tt
     (set_sockets (<[socket := closed so]> (sockets w))
        (set_socket_map (<[GetHashmapKeyFromFd (fd d) := d']> (socket_map_ w)) w))
     ((if IS_SIGNAL_SOCKET hdr (msg_data msg)
       then [ClearSignalHandlerByFd (fd d) (isolate_port so)] else [])
      ++ out
      ++ [SocketCloseFd socket; PostInt32 (dart_port msg) (bit kDestroyedEvent)]).
Proof.
  intros Es Ed Hl Hsafe Hc.
  assert (Hf : fd d' = fd d /\ kind d' = kind d).
  { eapply (CloseCommand_frame hdr os (fun x => fd x = fd d /\ kind x = kind d));
      [auto | auto | | exact Hc]; auto. }
  destruct Hf as [Hf Hk].
  assert (Hl' : IsListeningSocket d' = true).
  { unfold IsListeningSocket in *. rewrite Hk. exact Hl. }
  unfold HandleCloseCommand.
  rewrite bind_Ok with (a := so) (s1 := w) (out1 := [])
    by (unfold socket_deref; rewrite Es; reflexivity).
  rewrite (bind_Ok _ _ _ _ _ _ (on_di_get _ _ _ Ed)).
  assert (E1 : (if IS_SIGNAL_SOCKET hdr (msg_data msg)
                then emit (ClearSignalHandlerByFd (fd d) (isolate_port so))
                else ret tt) w
               = Ok tt w (if IS_SIGNAL_SOCKET hdr (msg_data msg)
                          then [ClearSignalHandlerByFd (fd d) (isolate_port so)] else [])).
  { destruct (IS_SIGNAL_SOCKET hdr (msg_data msg)); reflexivity. }
  rewrite (bind_Ok _ _ _ _ _ _ E1).
  rewrite (bind_Ok _ _ _ _ _ _ (on_di_Ok _ _ _ _ _ _ _ Ed Hc)).
  set (w1 := set_socket_map (<[GetHashmapKeyFromFd (fd d) := d']> (socket_map_ w)) w).
  assert (Ed1 : socket_map_ w1 !! GetHashmapKeyFromFd (fd d) = Some d')
    by (unfold w1; simpl; apply lookup_insert_eq).
  rewrite (bind_Ok _ _ _ _ _ _ (on_di_get _ _ _ Ed1)).
  rewrite Hl', Hsafe.
  unfold bind, Socket_CloseFd, bind, socket_deref, modify, emit, ret.
  change (sockets w1) with (sockets w). rewrite Es. cbn [app].
  rewrite ?app_nil_r. reflexivity.
Qed.

Lemma HandleCloseCommand_listening_shared_witness :
  exists w' out,
    HandleCloseCommand (spec_header true) (a_kernel [] false) a_listener_close_message
                       100 7 a_world_with_a_shared_listener = Ok tt w' out
    /\ posted out = [(11, bit kDestroyedEvent)]
    /\ (exists d', socket_map_ w' !! 8 = Some d' /\ map port (subscribers d') = [12; 13]).
Proof.
  eexists _, _. split.
  - eapply (HandleCloseCommand_listening_shared (spec_header true) (a_kernel [] false)
              a_listener_close_message 100 a_world_with_a_shared_listener
              {| socket_fd := 7; isolate_port := 9; ref_count := 2 |}
              a_shared_listening_di).
    + reflexivity.
    + reflexivity.
    + reflexivity.
    + reflexivity.
    + vm_compute. reflexivity.
  - split; [reflexivity|]. eexists. split; [vm_compute; reflexivity|reflexivity].
Defined.

(** X18: what [GetDescriptorInfo] returns is what the map holds for the
    descriptor afterwards; the entries of the other descriptors and the rest
    of the state are untouched; and a second call for the same descriptor,
    whatever [is_listening], returns the same descriptor info and changes
    nothing. *)
Theorem GetDescriptorInfo_lookup hdr fd0 is_listening w di w' out :
  GetDescriptorInfo hdr fd0 is_listening w = Ok di w' out ->
  socket_map_ w' !! GetHashmapKeyFromFd fd0 = Some di
  /\ (forall fd1, fd1 <> fd0 ->
        socket_map_ w' !! GetHashmapKeyFromFd fd1 = socket_map_ w !! GetHashmapKeyFromFd fd1)
  /\ w' = set_socket_map (socket_map_ w') w
  /\ out = []
  /\ forall is_listening', GetDescriptorInfo hdr fd0 is_listening' w' = Ok di w' [].
Proof.
  intros H.
  assert (Hsteps : socket_map_ w' !! GetHashmapKeyFromFd fd0 = Some di
                   /\ (forall fd1, fd1 <> fd0 ->
                         socket_map_ w' !! GetHashmapKeyFromFd fd1
                         = socket_map_ w !! GetHashmapKeyFromFd fd1)
                   /\ w' = set_socket_map (socket_map_ w') w /\ out = []
                   /\ ASSERT hdr "fd >= 0" (0 <=? fd0) w' = Ok tt w' []
                   /\ ASSERT hdr "fd == di->fd()" (fd0 =? fd di) w' = Ok tt w' []).
  { unfold GetDescriptorInfo in H.
    apply bind_inv in H. destruct H as ([] & w1 & o1 & o2 & H1 & H2 & ->).
    pose proof (ASSERT_inv _ _ _ _ _ _ _ H1) as ->.
    assert (o1 = []) as ->.
    { unfold ASSERT in H1. destruct (_ && _); inversion H1; reflexivity. }
    rewrite bind_get_eq in H2.
    apply bind_inv in H2. destruct H2 as (d1 & w2 & o3 & o4 & H3 & H4 & ->).
    apply bind_inv in H4. destruct H4 as ([] & w3 & o5 & o6 & H5 & H6 & ->).
    pose proof (ASSERT_inv _ _ _ _ _ _ _ H5) as ->.
    assert (o5 = []) as ->.
    { unfold ASSERT in H5. destruct (_ && _); inversion H5; reflexivity. }
    inversion H6; subst.
    assert (Ha1 : ASSERT hdr "fd >= 0" (0 <=? fd0) w' = Ok tt w' []).
    { unfold ASSERT in *.
      destruct (assertions_enabled hdr && negb (0 <=? fd0)); [discriminate|reflexivity]. }
    assert (Ha2 : ASSERT hdr "fd == di->fd()" (fd0 =? fd di) w' = Ok tt w' []).
    { unfold ASSERT in *.
      destruct (assertions_enabled hdr && negb (fd0 =? fd di)); [discriminate|reflexivity]. }
    destruct (socket_map_ w !! GetHashmapKeyFromFd fd0) as [existing|] eqn:E.
    - inversion H3; subst. rewrite set_socket_map_id. auto 10.
    - unfold bind, put, ret in H3. inversion H3; subst.
      cbn [socket_map_ set_socket_map]. rewrite lookup_insert_eq.
      repeat split; try assumption; try reflexivity.
      intros fd1 Hne. apply lookup_insert_ne. unfold GetHashmapKeyFromFd. lia. }
  destruct Hsteps as (H1 & H2 & H3 & H4 & Ha1 & Ha2).
  repeat split; try assumption.
  intros l'. unfold GetDescriptorInfo.
  unfold bind at 1. rewrite Ha1. rewrite bind_get_eq. rewrite H1.
  rewrite bind_ret_l. unfold bind. rewrite Ha2. reflexivity.
Qed.

Lemma GetDescriptorInfo_lookup_witness :
  exists w',
    GetDescriptorInfo (spec_header true) 5 true empty_world
      = Ok (DescriptorInfoMultiple 5) w' []
    /\ socket_map_ w' !! 6 = Some (DescriptorInfoMultiple 5)
    /\ GetDescriptorInfo (spec_header true) 5 false w' = Ok (DescriptorInfoMultiple 5) w' [].
Proof.
  eexists. split; [vm_compute; reflexivity|].
  destruct (GetDescriptorInfo_lookup (spec_header true) 5 true empty_world
              (DescriptorInfoMultiple 5) _ [] ltac:(vm_compute; reflexivity))
    as (H1 & _ & _ & _ & H2).
  split; [exact H1|apply H2].
Defined.

(** X19: once the descriptor info of a descriptor is removed from the map
    and closed, the next [GetDescriptorInfo] for that descriptor number makes
    a new one, of the kind now asked for, without subscribers and not
    registered. *)
Theorem GetDescriptorInfo_after_destroy hdr fd0 (is_listening : bool) w :
  0 <= fd0 ->
  let di := if is_listening then DescriptorInfoMultiple fd0 else DescriptorInfoSingle fd0 in
  bind (destroy_descriptor_info fd0)
       (fun _ => GetDescriptorInfo hdr fd0 is_listening) w =
  Ok di (set_socket_map (<[GetHashmapKeyFromFd fd0 := di]> (socket_map_ w)) w)
     [DescriptorClose fd0].
Proof.
  intros Hfd di.
  assert (E : destroy_descriptor_info fd0 w =
              Ok tt (set_socket_map (delete (GetHashmapKeyFromFd fd0) (socket_map_ w)) w)
                 [DescriptorClose fd0]) by reflexivity.
  rewrite (bind_Ok _ _ _ _ _ _ E).
  rewrite (GetDescriptorInfo_fresh hdr fd0 is_listening _ Hfd)
    by (cbn [socket_map_ set_socket_map]; apply lookup_delete_eq).
  cbn [socket_map_ set_socket_map app]. rewrite insert_delete_eq. reflexivity.
Qed.

Lemma GetDescriptorInfo_after_destroy_witness :
  bind (destroy_descriptor_info 5)
       (fun _ => GetDescriptorInfo (spec_header true) 5 true) a_world_with_a_connection
  = Ok (DescriptorInfoMultiple 5)
       (set_socket_map (<[6 := DescriptorInfoMultiple 5]>
                          (socket_map_ a_world_with_a_connection))
                       a_world_with_a_connection)
       [DescriptorClose 5].
Proof.
  apply (GetDescriptorInfo_after_destroy (spec_header true) 5 true
           a_world_with_a_connection).
  lia.
Defined.

(** ** Timers and shutdown *)

(** X20: with a timer in the queue, [GetTimeout] is the time left to its
    deadline, or 0 when it is due; and [HandleTimeout], run when the clock
    shows [t'], posts null to the port of that timer and removes it exactly
    when at least the milliseconds of [GetTimeout] have gone by.  One call
    fires one timer. *)
Theorem HandleTimeout_after_GetTimeout hdr w t' :
  HasTimeout (timeout_queue_ w) = true ->
  0 < CurrentTimeout (timeout_queue_ w) < 2 ^ 63 ->
  0 <= clock w <= t' ->
  t' < 2 ^ 63 ->
  exists millis,
    GetTimeout hdr w = Ok millis w []
    /\ millis = Z.max 0 (CurrentTimeout (timeout_queue_ w) - clock w)
    /\ HandleTimeout (set_clock t' w) =
       if millis <=? t' - clock w
       then Ok tt (set_timeout_queue (RemoveCurrent (timeout_queue_ w)) (set_clock t' w))
               [PostNull (CurrentPort (timeout_queue_ w))]
       else Ok tt (set_clock t' w) [].
Proof.
  intros Hh Hd Hc Ht.
  set (d := CurrentTimeout (timeout_queue_ w)) in *.
  exists (Z.max 0 (d - clock w)). split; [|split; [reflexivity|]].
  - unfold GetTimeout. rewrite bind_get_eq, Hh. cbn [negb]. fold d.
    rewrite wrap64_small by lia. unfold ret. f_equal.
    destruct (d - clock w <? 0) eqn:E; [apply Z.ltb_lt in E|apply Z.ltb_ge in E]; lia.
  - unfold HandleTimeout. rewrite bind_get_eq.
    cbn [timeout_queue_ set_clock clock]. rewrite Hh. fold d.
    rewrite wrap64_small by lia.
    assert (E : (d - t' <=? 0) = (Z.max 0 (d - clock w) <=? t' - clock w)).
    { destruct (d - t' <=? 0) eqn:E1; [apply Z.leb_le in E1|apply Z.leb_gt in E1];
        symmetry; [apply Z.leb_le|apply Z.leb_gt]; lia. }
    rewrite E. destruct (Z.max 0 (d - clock w) <=? t' - clock w); reflexivity.
Qed.

Lemma HandleTimeout_after_GetTimeout_witness :
  exists millis,
    GetTimeout (spec_header true) a_world_with_timers = Ok millis a_world_with_timers []
    /\ millis = 2501
    /\ HandleTimeout (set_clock 2511 a_world_with_timers)
       = Ok tt (set_timeout_queue [(1, 5000)] (set_clock 2511 a_world_with_timers))
            [PostNull 2].
Proof.
  destruct (HandleTimeout_after_GetTimeout (spec_header true) a_world_with_timers 2511)
    as (millis & H1 & H2 & H3).
  - reflexivity.
  - vm_compute. split; reflexivity.
  - vm_compute. split; discriminate.
  - reflexivity.
  - exists millis. split; [exact H1|]. split; [rewrite H2; reflexivity|].
    rewrite H3, H2. reflexivity.
Defined.

(** Continuations that agree on the results of [c]. *)
Lemma bind_ext_on {S A B} (c : M S A) (k k' : A -> M S B) s :
  (forall a s1 out, c s = Ok a s1 out -> k a s1 = k' a s1) ->
  bind c k s = bind c k' s.
Proof.
  intros H. unfold bind. destruct (c s) as [a s1 out|x] eqn:E; [|reflexivity].
  rewrite (H a s1 out eq_refl). reflexivity.
Qed.

Lemma HandleEvents_loop_pipe hdr os events seen p :
  hoare (fun w => interrupt_pipe w = p) (HandleEvents_loop hdr os events seen)
        (fun _ w => interrupt_pipe w = p).
Proof.
  eapply hoare_weaken.
  - apply (HandleEvents_loop_inv hdr os (fun _ _ => True) (fun _ => True)
             (fun pipe => pipe = p)).
    intros k event d a d' out _ _. exact I.
  - intros w Hw. split; [|split]; [intros ? ? _; exact I | exact I | exact Hw].
  - intros a w (_ & _ & Hw). exact Hw.
Qed.

Lemma HandleTimeout_pipe p :
  hoare (fun w => interrupt_pipe w = p) HandleTimeout (fun _ w => interrupt_pipe w = p).
Proof.
  eapply hoare_weaken.
  - apply (HandleTimeout_inv (fun _ _ => True) (fun _ => True) (fun pipe => pipe = p)).
    intros ? _. exact I.
  - intros w Hw. split; [|split]; [intros ? ? _; exact I | exact I | exact Hw].
  - intros a w (_ & _ & Hw). exact Hw.
Qed.

Lemma HandleEvents_loop_seen hdr os events w a w' out :
  HandleEvents_loop hdr os events false w = Ok a w' out ->
  a = existsb is_wakeup events.
Proof.
  rewrite HandleEvents_loop_filter. intros H.
  apply bind_inv in H. destruct H as (? & ? & ? & ? & _ & H & _).
  inversion H. reflexivity.
Qed.

Lemma EventHandlerEntry_exit_sockets hdr w a w' out :
  EventHandlerEntry_exit hdr w = Ok a w' out ->
  assertions_enabled hdr = true -> sockets w = ∅.
Proof.
  unfold EventHandlerEntry_exit. rewrite bind_get_eq. intros E Hd.
  unfold bind, ASSERT in E. rewrite Hd in E. cbn [andb] in E.
  destruct (Z.of_nat (size (sockets w)) =? 0) eqn:Ez; [|discriminate].
  apply Z.eqb_eq in Ez. apply map_size_empty_iff. lia.
Qed.

Lemma EventHandlerEntry_shutdown hdr os script w :
  shutdown_ w = true ->
  EventHandlerEntry hdr os script w = EventHandlerEntry_exit hdr w.
Proof.
  intros H. destruct script; cbn [EventHandlerEntry]; rewrite bind_get_eq, H; reflexivity.
Qed.

(** The turn of the loop that finds the shutdown message in the pipe. *)
Lemma iteration_after_Shutdown hdr os r events w a w' out :
  interrupt_pipe w = msg_bytes (shutdown_message hdr) ->
  kShutdownId hdr <> kTimerId hdr ->
  in_int64 (kShutdownId hdr) ->
  returned_events r = Some events ->
  existsb is_wakeup events = true ->
  EventHandlerEntry_iteration hdr os r w = Ok a w' out ->
  shutdown_ w' = true.
Proof.
  intros Hp Hne Hr Hev Hwk H.
  unfold EventHandlerEntry_iteration in H.
  apply bind_inv in H. destruct H as (timeout & w1 & o1 & o2 & H1 & H2 & _).
  apply EventHandlerEntry_timeout_state in H1. subst w1.
  unfold EventHandlerEntry_wait in H2. rewrite Hev in H2.
  apply bind_inv in H2. destruct H2 as ([] & w2 & ? & ? & E1 & H2 & _).
  inversion E1; subst w2.
  apply bind_inv in H2. destruct H2 as ([] & w3 & ? & ? & E2 & H2 & _).
  inversion E2; subst w3.
  apply bind_inv in H2. destruct H2 as ([] & w4 & ? & ? & E3 & H2 & _).
  assert (Hp4 : interrupt_pipe w4 = msg_bytes (shutdown_message hdr)).
  { eapply HandleTimeout_pipe; [|exact E3]. exact Hp. }
  unfold HandleEvents in H2.
  apply bind_inv in H2. destruct H2 as (seen & w5 & ? & ? & E4 & H2 & _).
  pose proof (HandleEvents_loop_seen _ _ _ _ _ _ _ E4) as Hs. rewrite Hwk in Hs. subst seen.
  assert (Hp5 : interrupt_pipe w5 = msg_bytes (shutdown_message hdr)).
  { eapply HandleEvents_loop_pipe; [|exact E4]. exact Hp4. }
  rewrite (HandleInterruptFd_messages hdr os [shutdown_message hdr]) in H2.
  - apply bind_inv in H2. destruct H2 as ([] & w6 & ? & ? & E5 & H2 & _).
    inversion E5; subst w6.
    cbn [for_each] in H2.
    apply bind_inv in H2. destruct H2 as ([] & w7 & ? & ? & E6 & H2 & _).
    inversion H2; subst w7.
    unfold HandleInterruptMessage in E6. cbn [id shutdown_message] in E6.
    apply Z.eqb_neq in Hne. rewrite Hne, Z.eqb_refl in E6.
    inversion E6. reflexivity.
  - rewrite Hp5. cbn [flat_map]. rewrite app_nil_r. reflexivity.
  - discriminate.
  - constructor; [|constructor]. unfold message_in_range, in_int64 in *. cbn. lia.
Qed.

(** X21: after [Shutdown], the turn of the loop in which the kernel reports
    the pipe is the last one: the worker handles that batch, which sets
    [shutdown_], and leaves the loop, whatever the kernel would have reported
    next.  On the way out a debug build asserts that no socket object is
    alive, and then the worker reports [NotifyShutdownDone]: when the run
    returns, [shutdown_] is set, [NotifyShutdownDone] is its last effect,
    and in a debug build no socket object is left. *)
Theorem Shutdown_ends_loop hdr os r events rest w :
  shutdown_ w = false ->
  interrupt_pipe w = [] ->
  WriteToBlocking os (msg_bytes (shutdown_message hdr)) = kInterruptMessageSize ->
  kShutdownId hdr <> kTimerId hdr ->
  in_int64 (kShutdownId hdr) ->
  returned_events r = Some events ->
  existsb is_wakeup events = true ->
  bind (Shutdown hdr os) (fun _ => EventHandlerEntry hdr os (r :: rest)) w
  = bind (Shutdown hdr os)
         (fun _ => bind (EventHandlerEntry_iteration hdr os r)
                     (fun _ => EventHandlerEntry_exit hdr)) w
  /\ forall a w' out,
      bind (Shutdown hdr os) (fun _ => EventHandlerEntry hdr os (r :: rest)) w
        = Ok a w' out ->
      shutdown_ w' = true
      /\ (assertions_enabled hdr = true -> sockets w' = ∅)
      /\ exists turn, out = turn ++ [NotifyShutdownDone].
Proof.
  intros Hs Hp Hw Hne Hr Hev Hwk.
  assert (E : Shutdown hdr os w =
              Ok tt (set_interrupt_pipe (msg_bytes (shutdown_message hdr)) w) []).
  { unfold Shutdown, SendData. rewrite WakeupHandler_eq. fold (shutdown_message hdr).
    rewrite Hw, Z.eqb_refl, Hp. reflexivity. }
  set (w1 := set_interrupt_pipe (msg_bytes (shutdown_message hdr)) w) in E.
  assert (Hit : forall a w2 out,
             EventHandlerEntry_iteration hdr os r w1 = Ok a w2 out -> shutdown_ w2 = true).
  { intros a w2 out H.
    eapply (iteration_after_Shutdown hdr os r events w1); try eassumption. reflexivity. }
  assert (Heq : bind (Shutdown hdr os) (fun _ => EventHandlerEntry hdr os (r :: rest)) w
                = bind (Shutdown hdr os)
                       (fun _ => bind (EventHandlerEntry_iteration hdr os r)
                                   (fun _ => EventHandlerEntry_exit hdr)) w).
  { rewrite !(bind_Ok _ _ _ _ _ _ E).
    cbn [EventHandlerEntry]. rewrite bind_get_eq.
    change (shutdown_ w1) with (shutdown_ w). rewrite Hs.
    rewrite (bind_ext_on (EventHandlerEntry_iteration hdr os r)
               (fun _ => EventHandlerEntry hdr os rest)
               (fun _ => EventHandlerEntry_exit hdr)); [reflexivity|].
    intros a w2 out H. apply EventHandlerEntry_shutdown. eapply Hit; exact H. }
  split; [exact Heq|].
  intros a w' out H. rewrite Heq, (bind_Ok _ _ _ _ _ _ E) in H.
  destruct (bind (EventHandlerEntry_iteration hdr os r)
              (fun _ => EventHandlerEntry_exit hdr) w1) as [a2 w2 out2|x] eqn:E2;
    [|discriminate].
  inversion H; subst. cbn [app].
  apply bind_inv in E2. destruct E2 as (a1 & w3 & o1 & o2 & H1 & H2 & ->).
  pose proof (EventHandlerEntry_exit_sockets _ _ _ _ _ H2) as Hso.
  apply EventHandlerEntry_exit_state in H2. destruct H2 as [-> ->].
  split; [eapply Hit; exact H1|]. split; [exact Hso|]. exists o1. reflexivity.
Qed.

Lemma Shutdown_ends_loop_witness :
  bind (Shutdown (spec_header true) (a_kernel [] true))
       (fun _ => EventHandlerEntry (spec_header true) (a_kernel [] true)
                   [a_wakeup_return; a_read_return]) empty_world
  = Ok tt (set_clock 1 (set_shutdown true empty_world))
       [SysKeventWait None; SysRead 576; NotifyShutdownDone].
Proof.
  etransitivity.
  - refine (proj1 (Shutdown_ends_loop (spec_header true) (a_kernel [] true) a_wakeup_return
                     [a_wakeup_event] [a_read_return] empty_world _ _ _ _ _ _ _)).
    + reflexivity.
    + reflexivity.
    + reflexivity.
    + discriminate.
    + vm_compute. split; [discriminate|reflexivity].
    + reflexivity.
    + reflexivity.
  - vm_compute. reflexivity.
Defined.

(** With the socket object 100 alive, the way out fails the assertion of a
    debug build; a release build reports that the worker is done. *)
Example Shutdown_with_a_socket_alive :
  bind (Shutdown (spec_header true) (a_kernel [] true))
       (fun _ => EventHandlerEntry (spec_header true) (a_kernel [] true)
                   [a_wakeup_return; a_read_return]) a_world_with_a_connection
  = Aborted (AssertFailed "ReferenceCounted<Socket>::instances() == 0")
  /\ bind (Shutdown (spec_header false) (a_kernel [] true))
          (fun _ => EventHandlerEntry (spec_header false) (a_kernel [] true)
                      [a_wakeup_return; a_read_return]) a_world_with_a_connection
     = Ok tt (set_clock 1 (set_shutdown true a_world_with_a_connection))
          [SysKeventWait None; SysRead 576; NotifyShutdownDone].
Proof. split; vm_compute; reflexivity. Qed.

(** X22: every run of the worker loop and every [SendData] keep the
    descriptor infos under the keys of their descriptors (which
    [GetDescriptorInfo] asserts), the deadlines in the queue positive, and
    whole messages in the pipe. *)
Theorem standing_is_kept hdr os :
  (forall script, hoare standing (EventHandlerEntry hdr os script) (fun _ => standing))
  /\ (forall id0 dart_port0 data0,
        hoare standing (SendData hdr os id0 dart_port0 data0) (fun _ => standing)).
Proof.
  split.
  - apply EventHandlerEntry_standing.
  - intros. apply WakeupHandler_standing.
Qed.

Lemma standing_is_kept_witness :
  exists w' out, a_session empty_world = Ok tt w' out /\ standing w'.
Proof.
  destruct (standing_is_kept (spec_header true) (a_kernel [] true))
    as (Hloop & Hsend).
  destruct (a_session empty_world) as [[] w' out|x] eqn:E.
  - exists w', out. split; [reflexivity|].
    unfold a_session in E.
    apply bind_inv in E. destruct E as (? & w1 & ? & ? & E1 & E & _).
    apply bind_inv in E. destruct E as (? & w2 & ? & ? & E2 & E3 & _).
    eapply Hloop; [|exact E3].
    eapply Hsend; [|exact E2].
    unfold put in E1. injection E1 as _ <- _.
    split; [intros k d H; cbn in H; rewrite lookup_empty in H; discriminate|].
    split; [constructor|]. exists 0. reflexivity.
  - vm_compute in E. discriminate.
Defined.

(** ** Construction *)

Lemma standing_constructed w : standing (constructed w).
Proof.
  split; [intros k d H; cbn in H; rewrite lookup_empty in H; discriminate|].
  split; [constructor|]. exists 0. reflexivity.
Qed.

(** X23: the constructor returns exactly when [pipe], the three [fcntl]
    settings, [kqueue] and the registration of the read end of the pipe all
    succeed; any failure is fatal.  It leaves an empty map, no timer,
    [shutdown_ = false] and an empty pipe, registered for READ with a null
    [udata], which is how [HandleEvents] knows its events; the invariants of
    the worker hold of that state. *)
Theorem EventHandlerImplementation_new_cases os sys w :
  match EventHandlerImplementation_new os sys w with
  | Ok kq w' out =>
      startup_succeeds os sys = true
      /\ kq = kqueue_result sys
      /\ w' = constructed w
      /\ out = [SysKevent [interrupt_registration sys]]
      /\ is_wakeup (interrupt_registration sys) = true
      /\ standing w' /\ I1 w'
  | Aborted x =>
      startup_succeeds os sys = false /\ exists message, x = Fatal message
  end.
Proof.
  unfold EventHandlerImplementation_new, startup_succeeds, bind, modify, emit, abort, ret.
  destruct (pipe_result sys =? 0); cbn [negb andb]; [|eauto].
  destruct (SetNonBlocking sys (fst (interrupt_fds_ sys))); cbn [negb andb]; [|eauto].
  destruct (SetCloseOnExec sys (fst (interrupt_fds_ sys))); cbn [negb andb]; [|eauto].
  destruct (SetCloseOnExec sys (snd (interrupt_fds_ sys))); cbn [negb andb]; [|eauto].
  destruct (kqueue_result sys =? -1); cbn [negb andb]; [eauto|].
  destruct (SetCloseOnExec sys (kqueue_result sys)); cbn [negb andb]; [|eauto].
  destruct (kevent_status os [interrupt_registration sys] =? -1); cbn [negb andb]; [eauto|].
  do 5 (split; [reflexivity|]).
  split; [apply (standing_constructed w)|].
  intros k d H. cbn in H. rewrite lookup_empty in H. discriminate.
Qed.

Lemma EventHandlerImplementation_new_cases_witness :
  exists w',
    EventHandlerImplementation_new (a_kernel [] true) a_startup empty_world
      = Ok 5 w' [SysKevent [EV_SET 3 EVFILT_READ EV_ADD 0 0 None]]
    /\ w' = constructed empty_world
    /\ standing w' /\ I1 w'.
Proof.
  pose proof (EventHandlerImplementation_new_cases (a_kernel [] true) a_startup
                empty_world) as H.
  destruct (EventHandlerImplementation_new (a_kernel [] true) a_startup empty_world)
    as [kq w' out|x].
  - destruct H as (_ & -> & Hw & -> & _ & Hs & Hi).
    exists w'. split; [reflexivity|]. split; [exact Hw|]. split; [exact Hs|exact Hi].
  - destruct H as [H _]. vm_compute in H. discriminate H.
Defined.

(** ** The references of socket objects *)

Section SocketObjects.

Variable hdr : Header.

Variable os : Collaborators.

Variable m : gmap Z Socket.

Variable w0 : World.

Local Notation "'Same'" := (with_sockets m w0).

Lemma on_di_sockets {A} p (c : M DescriptorInfo A) :
  hoare Same (on_di p c) (fun _ => Same).
Proof.
  intros w a w' out Hw E. unfold on_di in E.
  destruct (socket_map_ w !! GetHashmapKeyFromFd p) as [d|]; [|discriminate].
  destruct (c d) as [a' d' out'|]; [|discriminate].
  inversion E; subst. exact Hw.
Qed.

Lemma GetDescriptorInfo_sockets fd0 is_listening :
  hoare Same (GetDescriptorInfo hdr fd0 is_listening) (fun _ => Same).
Proof.
  unfold GetDescriptorInfo.
  eapply hoare_bind with (Q := fun _ => Same); [apply hoare_ASSERT|]. intros _.
  eapply hoare_bind; [apply hoare_get|]. intros w.
  eapply hoare_bind with (Q := fun _ => Same).
  - destruct (socket_map_ w !! GetHashmapKeyFromFd fd0).
    + apply hoare_ret. intros s [_ Hs]. exact Hs.
    + eapply hoare_bind with (Q := fun _ => Same).
      * intros s a s' out [-> Hs] E. inversion E; subst. exact Hs.
      * intros _. apply hoare_ret. auto.
  - intros di. eapply hoare_bind with (Q := fun _ => Same); [apply hoare_ASSERT|].
    intros _. apply hoare_ret. auto.
Qed.

Lemma destroy_descriptor_info_sockets fd0 :
  hoare Same (destroy_descriptor_info fd0) (fun _ => Same).
Proof.
  unfold destroy_descriptor_info.
  eapply hoare_bind with (Q := fun _ => Same).
  - apply hoare_modify. intros s Hs. exact Hs.
  - intros _. apply hoare_emit.
Qed.

End SocketObjects.

Lemma HandleCloseCommand_sockets hdr os msg s di w0 so :
  sockets w0 !! s = Some so ->
  hoare (with_sockets (sockets w0) w0) (HandleCloseCommand hdr os msg s di)
        (fun _ => with_sockets (<[s := closed so]> (sockets w0)) w0).
Proof.
  intros Es. unfold HandleCloseCommand.
  set (Same := with_sockets (sockets w0) w0).
  set (Closed := with_sockets (<[s := closed so]> (sockets w0)) w0).
  assert (Hclose : hoare Same (Socket_CloseFd s) (fun _ => Closed)).
  { intros w a w' out Hw E. unfold Socket_CloseFd, bind, socket_deref, modify, emit in E.
    destruct Hw as (H1 & H2 & H3 & H4 & H5). rewrite H5, Es in E.
    inversion E; subst. repeat split; try assumption.
    cbn [sockets set_sockets]. rewrite H5. reflexivity. }
  eapply hoare_bind with (Q := fun _ => Same).
  { intros w a w' out Hw E. apply socket_deref_state in E. subst. exact Hw. }
  intros so'.
  eapply hoare_bind with (Q := fun _ => Same); [apply on_di_sockets|]. intros d0.
  eapply hoare_bind with (Q := fun _ => Same).
  { apply hoare_if; [apply hoare_emit|apply hoare_ret; auto]. }
  intros _.
  eapply hoare_bind with (Q := fun _ => Same); [apply on_di_sockets|]. intros new_mask.
  eapply hoare_bind with (Q := fun _ => Same); [apply on_di_sockets|]. intros d.
  eapply hoare_bind with (Q := fun _ => Closed); [|intros _; apply hoare_emit].
  apply hoare_if.
  - eapply hoare_bind with (Q := fun _ => Same); [|intros _; exact Hclose].
    apply hoare_if; [|apply hoare_ret; auto].
    eapply hoare_bind with (Q := fun _ => Same); [apply hoare_ASSERT|].
    intros _. apply destroy_descriptor_info_sockets.
  - eapply hoare_bind with (Q := fun _ => Same); [apply hoare_ASSERT|]. intros _.
    eapply hoare_bind with (Q := fun _ => Same);
      [apply destroy_descriptor_info_sockets|]. intros _. exact Hclose.
Qed.

Lemma HandleSocketCommand_sockets hdr os msg s d di w0 so :
  sockets w0 !! s = Some so ->
  hoare (with_sockets (sockets w0) w0) (HandleSocketCommand hdr os msg s d di)
        (fun _ w => with_sockets (sockets w0) w0 w
                    \/ with_sockets (<[s := closed so]> (sockets w0)) w0 w).
Proof.
  intros Es. unfold HandleSocketCommand.
  set (Same := with_sockets (sockets w0) w0).
  assert (Hsh : forall how,
             hoare Same (bind (ASSERT hdr "!di->IsListeningSocket()"
                                 (negb (IsListeningSocket d)))
                           (fun _ => emit (SysShutdown (fd d) how)))
                   (fun _ w => Same w
                     \/ with_sockets (<[s := closed so]> (sockets w0)) w0 w)).
  { intros how.
    apply hoare_weaken with (P' := Same) (Q' := fun _ => Same);
      [|intros ? H; exact H|intros ? ? H; left; exact H].
    eapply hoare_bind with (Q := fun _ => Same); [apply hoare_ASSERT|].
    intros _. apply hoare_emit. }
  repeat apply hoare_if; try apply Hsh.
  - apply hoare_weaken with (P' := Same)
      (Q' := fun _ => with_sockets (<[s := closed so]> (sockets w0)) w0);
      [apply (HandleCloseCommand_sockets hdr os msg s di w0 so Es)
      |intros ? H; exact H|intros ? ? H; right; exact H].
  - apply hoare_weaken with (P' := Same) (Q' := fun _ => Same);
      [apply on_di_sockets|intros ? H; exact H|intros ? ? H; left; exact H].
  - apply hoare_weaken with (P' := Same) (Q' := fun _ => Same);
      [apply on_di_sockets|intros ? H; exact H|intros ? ? H; left; exact H].
  - apply hoare_abort.
Qed.

Lemma released_closed s so (m : gmap Z Socket) :
  released s (closed so) (<[s := closed so]> m) = released s (closed so) m.
Proof.
  unfold released. destruct (ref_count (closed so) - 1 =? 0).
  - apply delete_insert_eq.
  - apply insert_insert_eq.
Qed.

(** X17: every command for a socket object that returns releases one
    reference of that object, and deletes it with the last one; it changes
    the descriptor of the object only by closing it, and it changes no other
    socket object, no timer, not the shutdown flag and not the pipe. *)
Theorem HandleInterruptMessage_releases hdr os msg w so w' out :
  socket_message hdr msg ->
  sockets w !! id msg = Some so ->
  HandleInterruptMessage hdr os msg w = Ok tt w' out ->
  exists so1,
    (so1 = so \/ so1 = closed so)
    /\ w' = set_sockets (released (id msg) so1 (sockets w))
              (set_socket_map (socket_map_ w') w).
Proof.
  intros Hm Es H.
  rewrite (HandleInterruptMessage_socket hdr os msg w so Hm Es) in H.
  apply bind_inv in H. destruct H as ([] & w1 & o1 & o2 & H1 & H2 & _).
  assert (Hw : with_sockets (sockets w) w w) by (repeat split; reflexivity).
  assert (H1' : with_sockets (sockets w) w w1
                \/ with_sockets (<[id msg := closed so]> (sockets w)) w w1).
  { destruct (socket_fd so =? -1).
    - inversion H1; subst. left. exact Hw.
    - apply bind_inv in H1. destruct H1 as (d & w2 & ? & ? & E1 & E2 & _).
      eapply (HandleSocketCommand_sockets hdr os msg (id msg) d _ w so Es);
        [|exact E2].
      eapply GetDescriptorInfo_sockets; [exact Hw|exact E1]. }
  assert (Hfin : forall so1, with_sockets (sockets w) w w1
                             \/ (so1 = closed so /\
                                 with_sockets (<[id msg := so1]> (sockets w)) w w1) ->
                 sockets w1 !! id msg = Some so1 ->
                 w' = set_sockets (released (id msg) so1 (sockets w))
                        (set_socket_map (socket_map_ w') w)).
  { intros so1 Hc Es1. rewrite (Socket_Release_eq _ _ _ Es1) in H2.
    inversion H2; subst w'. cbn [socket_map_ set_sockets].
    destruct Hc as [(A & B & C & D & E)|(-> & A & B & C & D & E)].
    - destruct w1, w. cbn in *. subst. reflexivity.
    - rewrite E, released_closed. destruct w1, w. cbn in *. subst. reflexivity. }
  destruct H1' as [Hs|Hc].
  - exists so. split; [left; reflexivity|]. apply Hfin; [left; exact Hs|].
    destruct Hs as (_ & _ & _ & _ & ->). exact Es.
  - exists (closed so). split; [right; reflexivity|]. apply Hfin; [right; split; [reflexivity|exact Hc]|].
    destruct Hc as (_ & _ & _ & _ & ->). apply lookup_insert_eq.
Qed.

Lemma HandleInterruptMessage_releases_witness :
  exists w' out so1,
    HandleInterruptMessage (spec_header true) (a_kernel [] true) a_close_message
                           a_world_with_a_connection = Ok tt w' out
    /\ (so1 = {| socket_fd := 5; isolate_port := 9; ref_count := 2 |}
        \/ so1 = closed {| socket_fd := 5; isolate_port := 9; ref_count := 2 |})
    /\ w' = set_sockets (released 100 so1 (sockets a_world_with_a_connection))
              (set_socket_map (socket_map_ w') a_world_with_a_connection).
Proof.
  destruct (HandleInterruptMessage (spec_header true) (a_kernel [] true) a_close_message
              a_world_with_a_connection) as [[] w' out|x] eqn:E.
  - destruct (HandleInterruptMessage_releases (spec_header true) (a_kernel [] true)
                a_close_message a_world_with_a_connection
                {| socket_fd := 5; isolate_port := 9; ref_count := 2 |} w' out)
      as (so1 & Hso & Hw).
    + repeat split; vm_compute; discriminate.
    + reflexivity.
    + exact E.
    + exists w', out, so1. split; [reflexivity|]. split; [exact Hso|exact Hw].
  - vm_compute in E. discriminate.
Defined.

(** X24: once a close command for a socket object is handled and a
    reference to the object is left, the object has the descriptor -1, and
    the next command for it, whatever it is, is skipped: it releases its
    reference and does nothing else. *)
Theorem HandleInterruptMessage_after_close hdr os msg msg' w so w1 out :
  socket_message hdr msg ->
  sockets w !! id msg = Some so ->
  socket_fd so <> -1 ->
  IS_COMMAND hdr (msg_data msg) kShutdownReadCommand = false ->
  IS_COMMAND hdr (msg_data msg) kShutdownWriteCommand = false ->
  IS_COMMAND hdr (msg_data msg) kCloseCommand = true ->
  HandleInterruptMessage hdr os msg w = Ok tt w1 out ->
  ref_count so - 1 <> 0 ->
  socket_message hdr msg' ->
  id msg' = id msg ->
  let so1 := {| socket_fd := -1; isolate_port := isolate_port so;
                ref_count := ref_count so - 1 |} in
  sockets w1 !! id msg = Some so1
  /\ HandleInterruptMessage hdr os msg' w1 =
     Ok tt (set_sockets (released (id msg) so1 (sockets w1)) w1) [].
Proof.
  intros Hm Es Hfd Hr Hw Hc H Href Hm' Hid so1.
  assert (Es1 : sockets w1 !! id msg = Some so1).
  { rewrite (HandleInterruptMessage_socket hdr os msg w so Hm Es) in H.
    apply Z.eqb_neq in Hfd. rewrite Hfd in H.
    apply bind_inv in H. destruct H as ([] & w2 & o1 & o2 & H1 & H2 & _).
    apply bind_inv in H1. destruct H1 as (d & w3 & ? & ? & E1 & E2 & _).
    unfold HandleSocketCommand in E2. rewrite Hr, Hw, Hc in E2.
    assert (Hw3 : with_sockets (sockets w) w w3).
    { eapply GetDescriptorInfo_sockets; [|exact E1]. repeat split; reflexivity. }
    pose proof (HandleCloseCommand_sockets hdr os msg (id msg) _ w so Es _ _ _ _ Hw3 E2)
      as (_ & _ & _ & _ & Hs).
    assert (Es2 : sockets w2 !! id msg = Some (closed so))
      by (rewrite Hs; apply lookup_insert_eq).
    rewrite (Socket_Release_eq _ _ _ Es2) in H2. inversion H2; subst w1.
    cbn [sockets set_sockets]. unfold released. cbn [ref_count closed].
    apply Z.eqb_neq in Href. rewrite Href. apply lookup_insert_eq. }
  split; [exact Es1|].
  rewrite <- Hid in Es1 |- *.
  rewrite (HandleInterruptMessage_socket hdr os msg' w1 so1 Hm' Es1).
  cbn [socket_fd so1 Z.eqb Pos.eqb]. rewrite bind_ret_l.
  apply Socket_Release_eq. exact Es1.
Qed.

Lemma HandleInterruptMessage_after_close_witness :
  exists w1 out so1,
    HandleInterruptMessage (spec_header true) (a_kernel [] true) a_close_message
                           a_world_with_a_connection = Ok tt w1 out
    /\ so1 = {| socket_fd := -1; isolate_port := 9; ref_count := 1 |}
    /\ sockets w1 !! 100 = Some so1
    /\ HandleInterruptMessage (spec_header true) (a_kernel [] true)
         a_shutdown_write_message w1
       = Ok tt (set_sockets (released 100 so1 (sockets w1)) w1) [].
Proof.
  destruct (HandleInterruptMessage (spec_header true) (a_kernel [] true) a_close_message
              a_world_with_a_connection) as [[] w1 out|x] eqn:E.
  - exists w1, out, {| socket_fd := -1; isolate_port := 9; ref_count := 1 |}.
    split; [reflexivity|]. split; [reflexivity|].
    apply (HandleInterruptMessage_after_close (spec_header true) (a_kernel [] true)
             a_close_message a_shutdown_write_message a_world_with_a_connection
             {| socket_fd := 5; isolate_port := 9; ref_count := 2 |} w1 out).
    + repeat split; vm_compute; discriminate.
    + reflexivity.
    + discriminate.
    + reflexivity.
    + reflexivity.
    + reflexivity.
    + exact E.
    + discriminate.
    + repeat split; vm_compute; discriminate.
    + reflexivity.
  - vm_compute in E. discriminate.
Defined.

(** ** The trace of the worker loop *)

Lemma turn_effect_emit {S} e :
  e <> NotifyShutdownDone -> (forall t, e <> SysKeventWait t) ->
  emits turn_effect (@emit S e).
Proof. intros H1 H2. apply emits_emit. split; assumption. Qed.

Lemma emits_put {S} E (s0 : S) : emits E (put s0).
Proof. intros s a s' out H. inversion H; subst. constructor. Qed.

Lemma emits_GetEvents E event : emits E (GetEvents event).
Proof.
  intros d a d' out H. pose proof (GetEvents_decoded event d) as Hg.
  rewrite H in Hg. destruct Hg as (_ & _ & _ & ->). constructor.
Qed.

Lemma emits_socket_deref E s : emits E (socket_deref s).
Proof.
  intros w a w' out H. unfold socket_deref in H.
  destruct (sockets w !! s); inversion H; subst. constructor.
Qed.

Ltac turn_steps :=
  repeat first
    [ apply emits_ret | apply emits_get | apply emits_modify | apply emits_abort
    | apply emits_put | apply emits_ASSERT | apply emits_GetEvents
    | apply emits_socket_deref | apply emits_NextNotifyDartPort
    | (apply turn_effect_emit; [discriminate | intros ?; discriminate])
    | apply emits_if
    | (apply emits_bind; [|intros ?])
    | apply emits_on_di ].

Section TurnEffects.

Variable hdr : Header.

Variable os : Collaborators.

Lemma turn_NotifyAllDartPorts m : emits turn_effect (NotifyAllDartPorts m).
Proof.
  intros d a d' out H. unfold NotifyAllDartPorts in H. inversion H; subst.
  apply List.Forall_forall. intros e He. apply in_map_iff in He.
  destruct He as (x & <- & _). split; [discriminate|intros ?; discriminate].
Qed.

Lemma turn_RemoveFromKqueue : emits turn_effect RemoveFromKqueue.
Proof. unfold RemoveFromKqueue. turn_steps. Qed.

Lemma turn_AddToKqueue : emits turn_effect (AddToKqueue hdr os).
Proof. unfold AddToKqueue. turn_steps. apply turn_NotifyAllDartPorts. Qed.

Lemma turn_UpdateKQueueInstance old_mask :
  emits turn_effect (UpdateKQueueInstance hdr os old_mask).
Proof.
  unfold UpdateKQueueInstance.
  apply emits_bind; [apply emits_get|]. intros d.
  repeat apply emits_if;
    repeat first [ apply turn_RemoveFromKqueue | apply turn_AddToKqueue
                 | apply emits_ret | apply emits_ASSERT
                 | (apply emits_bind; [|intros ?]) ].
Qed.

Lemma turn_HandleDescriptorEvent event :
  emits turn_effect (HandleDescriptorEvent hdr os event).
Proof.
  unfold HandleDescriptorEvent.
  apply emits_bind; [apply emits_get|]. intros d.
  apply emits_bind; [apply emits_GetEvents|]. intros m.
  repeat apply emits_if.
  - apply emits_bind; [apply turn_NotifyAllDartPorts|]. intros ?.
    apply turn_UpdateKQueueInstance.
  - apply emits_bind; [apply emits_NextNotifyDartPort|]. intros port0.
    apply emits_bind; [apply emits_ASSERT|]. intros ?.
    apply emits_bind; [apply turn_UpdateKQueueInstance|]. intros ?.
    apply turn_effect_emit; [discriminate | intros ?; discriminate].
  - apply emits_ret.
Qed.

Lemma turn_GetDescriptorInfo fd0 is_listening :
  emits turn_effect (GetDescriptorInfo hdr fd0 is_listening).
Proof.
  unfold GetDescriptorInfo.
  apply emits_bind; [apply emits_ASSERT|]. intros ?.
  apply emits_bind; [apply emits_get|]. intros w.
  apply emits_bind; [|intros ?; turn_steps].
  destruct (socket_map_ w !! GetHashmapKeyFromFd fd0); turn_steps.
Qed.

Lemma turn_Socket_CloseFd s : emits turn_effect (Socket_CloseFd s).
Proof. unfold Socket_CloseFd. turn_steps. Qed.

Lemma turn_Socket_Release s : emits turn_effect (Socket_Release s).
Proof. unfold Socket_Release. turn_steps. Qed.

Lemma turn_CloseCommand_on_di port0 :
  emits turn_effect (CloseCommand_on_di hdr os port0).
Proof.
  unfold CloseCommand_on_di, RemovePort.
  apply emits_bind; [apply emits_get|]. intros d.
  apply emits_bind; [turn_steps|]. intros ?.
  apply emits_bind; [apply emits_get|]. intros d1.
  apply emits_bind; [apply turn_UpdateKQueueInstance|]. intros ?.
  apply emits_ret.
Qed.

Lemma turn_HandleCloseCommand msg socket di :
  emits turn_effect (HandleCloseCommand hdr os msg socket di).
Proof.
  unfold HandleCloseCommand, destroy_descriptor_info.
  apply emits_bind; [apply emits_socket_deref|]. intros so.
  apply emits_bind; [turn_steps|]. intros d0.
  apply emits_bind; [turn_steps|]. intros ?.
  apply emits_bind; [apply emits_on_di, turn_CloseCommand_on_di|]. intros new_mask.
  apply emits_bind; [turn_steps|]. intros d.
  apply emits_bind; [|intros ?; turn_steps].
  repeat apply emits_if;
    repeat first [ apply turn_Socket_CloseFd | (apply emits_bind; [|intros ?])
                 | progress turn_steps ].
Qed.

Lemma turn_HandleSocketCommand msg socket d di :
  emits turn_effect (HandleSocketCommand hdr os msg socket d di).
Proof.
  unfold HandleSocketCommand, UNREACHABLE.
  repeat apply emits_if.
  - turn_steps.
  - turn_steps.
  - apply turn_HandleCloseCommand.
  - apply emits_on_di. unfold ReturnTokenCommand_on_di, ReturnTokens.
    apply emits_bind; [apply emits_get|]. intros ?.
    apply emits_bind; [apply emits_modify|]. intros ?.
    apply turn_UpdateKQueueInstance.
  - apply emits_on_di. unfold SetEventMaskCommand_on_di, SetPortAndMask.
    apply emits_bind; [apply emits_ASSERT|]. intros ?.
    apply emits_bind; [apply emits_get|]. intros ?.
    apply emits_bind; [apply emits_modify|]. intros ?.
    apply turn_UpdateKQueueInstance.
  - apply emits_abort.
Qed.

Lemma turn_HandleInterruptMessage msg :
  emits turn_effect (HandleInterruptMessage hdr os msg).
Proof.
  unfold HandleInterruptMessage.
  repeat apply emits_if; try apply emits_modify.
  apply emits_bind; [apply emits_ASSERT|]. intros ?.
  apply emits_bind; [apply emits_socket_deref|]. intros so.
  apply emits_bind; [|intros ?; apply turn_Socket_Release].
  apply emits_if; [apply emits_ret|].
  apply emits_bind; [apply turn_GetDescriptorInfo|]. intros d.
  apply turn_HandleSocketCommand.
Qed.

Lemma turn_HandleInterruptFd : emits turn_effect (HandleInterruptFd hdr os).
Proof.
  unfold HandleInterruptFd.
  apply emits_bind.
  - intros w a w' out H. unfold read_interrupt_pipe in H.
    destruct (interrupt_pipe w); inversion H; subst;
      (constructor; [split; [discriminate|intros ?; discriminate]|constructor]).
  - intros r. apply emits_for_each. intros i. apply turn_HandleInterruptMessage.
Qed.

Lemma turn_HandleEvents events : emits turn_effect (HandleEvents hdr os events).
Proof.
  unfold HandleEvents. apply emits_bind.
  - generalize false. induction events as [|event rest IH]; intros seen;
      cbn [HandleEvents_loop]; [apply emits_ret|].
    apply emits_if; [apply emits_abort|].
    destruct (udata event) as [di|]; [|apply IH].
    apply emits_bind; [apply emits_on_di, turn_HandleDescriptorEvent|].
    intros ?. apply IH.
  - intros seen. apply emits_if; [apply turn_HandleInterruptFd|apply emits_ret].
Qed.

Lemma turn_HandleTimeout : emits turn_effect HandleTimeout.
Proof. unfold HandleTimeout. turn_steps. Qed.

Lemma EventHandlerEntry_iteration_trace r w a w' out :
  EventHandlerEntry_iteration hdr os r w = Ok a w' out ->
  exists timeout work, out = SysKeventWait timeout :: work /\ Forall turn_effect work.
Proof.
  intros H. unfold EventHandlerEntry_iteration in H.
  apply bind_inv in H. destruct H as (timeout & w1 & o1 & o2 & H1 & H2 & ->).
  assert (o1 = []) as ->.
  { unfold EventHandlerEntry_timeout, GetTimeout in H1.
    rewrite bind_assoc, bind_get_eq in H1.
    unfold bind, ret, ASSERT, abort in H1.
    repeat match type of H1 with
           | context [if ?c then _ else _] => destruct c
           end; inversion H1; reflexivity. }
  unfold EventHandlerEntry_wait in H2.
  apply bind_inv in H2. destruct H2 as ([] & w2 & ? & o3 & E1 & H2 & ->).
  inversion E1; subst.
  apply bind_inv in H2. destruct H2 as ([] & w3 & ? & o4 & E2 & H2 & ->).
  inversion E2; subst.
  exists timeout, o4. split; [reflexivity|].
  destruct (returned_events r) as [events|]; [|discriminate].
  apply bind_inv in H2. destruct H2 as ([] & w4 & o5 & o6 & E3 & E4 & ->).
  apply Forall_app; split.
  - eapply turn_HandleTimeout; exact E3.
  - eapply turn_HandleEvents; exact E4.
Qed.

End TurnEffects.

(** X25: a run of the worker loop is a sequence of turns, at most one for
    each return of the blocking query and one for each when the run ends
    without [shutdown_]; a turn makes the blocking [kevent] call once, first;
    and [NotifyShutdownDone] is emitted exactly when the run ends with
    [shutdown_] set, once, as the last thing the worker does. *)
Theorem EventHandlerEntry_trace hdr os script w w' out :
  EventHandlerEntry hdr os script w = Ok tt w' out ->
  exists turns,
    out = turns_trace turns ++ (if shutdown_ w' then [NotifyShutdownDone] else [])
    /\ Forall (fun t => Forall turn_effect (snd t)) turns
    /\ (length turns <= length script)%nat
    /\ (shutdown_ w' = false -> length turns = length script).
Proof.
  revert w out. induction script as [|r script IH]; intros w out H;
    cbn [EventHandlerEntry] in H; rewrite bind_get_eq in H.
  - exists []. destruct (shutdown_ w) eqn:Es.
    + apply EventHandlerEntry_exit_state in H. destruct H as [-> ->]. rewrite Es.
      repeat split; auto; discriminate.
    + inversion H; subst. rewrite Es. repeat split; auto.
  - destruct (shutdown_ w) eqn:Es.
    + apply EventHandlerEntry_exit_state in H. destruct H as [-> ->]. rewrite Es.
      exists []. repeat split; auto; [cbn; lia|discriminate].
    + apply bind_inv in H. destruct H as ([] & w1 & o1 & o2 & H1 & H2 & ->).
      apply EventHandlerEntry_iteration_trace in H1.
      destruct H1 as (timeout & work & -> & Hwork).
      apply IH in H2. destruct H2 as (turns & -> & Ht & Hl & Hs).
      exists ((timeout, work) :: turns).
      split; [|split; [|split]].
      * unfold turns_trace. cbn [flat_map fst snd app].
        rewrite <- app_assoc. reflexivity.
      * constructor; assumption.
      * cbn [length]. lia.
      * intros E. cbn [length]. rewrite (Hs E). reflexivity.
Qed.

Lemma EventHandlerEntry_trace_witness :
  exists w' out turns,
    a_session empty_world = Ok tt w' out
    /\ out = turns_trace turns ++ (if shutdown_ w' then [NotifyShutdownDone] else [])
    /\ Forall (fun t => Forall turn_effect (snd t)) turns
    /\ (length turns <= 2)%nat.
Proof.
  destruct (a_session empty_world) as [[] w' out|x] eqn:E.
  - unfold a_session in E.
    apply bind_inv in E. destruct E as (? & w1 & o1 & ? & E1 & E & ->).
    apply bind_inv in E. destruct E as (? & w2 & o2 & o3 & E2 & E3 & ->).
    assert (o1 = []) as -> by (inversion E1; reflexivity).
    assert (o2 = []) as ->.
    { unfold SendData in E2. rewrite WakeupHandler_eq in E2.
      destruct (WriteToBlocking _ _ =? kInterruptMessageSize);
        inversion E2; reflexivity. }
    destruct (EventHandlerEntry_trace _ _ _ _ _ _ E3) as (turns & -> & Ht & Hl & _).
    exists w', (turns_trace turns ++ (if shutdown_ w' then [NotifyShutdownDone] else [])),
      turns.
    split; [reflexivity|]. split; [reflexivity|]. split; [exact Ht|exact Hl].
  - vm_compute in E. discriminate.
Defined.
